(** * Folder-sync-script: a shallow embedding of [main.py] and its properties

    The script mirrors a source directory onto a replica directory.  This file
    embeds its three functions ([sync_folders], [get_folder_hash],
    [check_for_events]) and the body of its polling loop over a small model of
    a POSIX file system, and states the properties of the specification
    against that embedding. *)

From Stdlib Require Import ZArith List Bool Lia.
From Stdlib.Strings Require Import Ascii String Byte.
Import ListNotations.

Open Scope string_scope.
Open Scope list_scope.
Open Scope Z_scope.

(** ** MD5, as provided by [hashlib.md5] (RFC 1321) *)

Module MD5.

Definition mask32 : Z := 4294967295.

Definition add32 (x y : Z) : Z := Z.land (x + y) mask32.

Definition not32 (x : Z) : Z := Z.lxor x mask32.

Definition rotl32 (x : Z) (c : Z) : Z :=
  Z.land (Z.lor (Z.shiftl x c) (Z.shiftr x (32 - c))) mask32.

Definition shifts : list Z :=
  [ 7; 12; 17; 22; 7; 12; 17; 22; 7; 12; 17; 22; 7; 12; 17; 22;
    5;  9; 14; 20; 5;  9; 14; 20; 5;  9; 14; 20; 5;  9; 14; 20;
    4; 11; 16; 23; 4; 11; 16; 23; 4; 11; 16; 23; 4; 11; 16; 23;
    6; 10; 15; 21; 6; 10; 15; 21; 6; 10; 15; 21; 6; 10; 15; 21 ].

Definition sines : list Z :=
  [ 3614090360; 3905402710; 606105819; 3250441966; 4118548399; 1200080426;
    2821735955; 4249261313; 1770035416; 2336552879; 4294925233; 2304563134;
    1804603682; 4254626195; 2792965006; 1236535329; 4129170786; 3225465664;
    643717713; 3921069994; 3593408605; 38016083; 3634488961; 3889429448;
    568446438; 3275163606; 4107603335; 1163531501; 2850285829; 4243563512;
    1735328473; 2368359562; 4294588738; 2272392833; 1839030562; 4259657740;
    2763975236; 1272893353; 4139469664; 3200236656; 681279174; 3936430074;
    3572445317; 76029189; 3654602809; 3873151461; 530742520; 3299628645;
    4096336452; 1126891415; 2878612391; 4237533241; 1700485571; 2399980690;
    4293915773; 2240044497; 1873313359; 4264355552; 2734768916; 1309151649;
    4149444226; 3174756917; 718787259; 3951481745 ].

Record regs := Regs { ra : Z; rb : Z; rc : Z; rd : Z }.

Definition init : regs := Regs 1732584193 4023233417 2562383102 271733878.

(** One of the 64 operations of a block; [i] is the operation index and [m]
    the sixteen message words of the block. *)
Definition round_step (m : list Z) (r : regs) (i : nat) : regs :=
  let '(Regs a b c d) := r in
  let iz := Z.of_nat i in
  let '(f, g) :=
    if iz <? 16 then (Z.lor (Z.land b c) (Z.land (not32 b) d), iz)
    else if iz <? 32 then
      (Z.lor (Z.land d b) (Z.land (not32 d) c), (5 * iz + 1) mod 16)
    else if iz <? 48 then (Z.lxor b (Z.lxor c d), (3 * iz + 5) mod 16)
    else (Z.lxor c (Z.lor b (not32 d)), (7 * iz) mod 16) in
  let f' := add32 (add32 (add32 f a) (nth i sines 0)) (nth (Z.to_nat g) m 0) in
  Regs d (add32 b (rotl32 f' (nth i shifts 0))) b c.

Definition process_block (r : regs) (m : list Z) : regs :=
  let r' := fold_left (round_step m) (seq 0 64) r in
  Regs (add32 (ra r) (ra r')) (add32 (rb r) (rb r'))
       (add32 (rc r) (rc r')) (add32 (rd r) (rd r')).

(** Little-endian packing of bytes into 32-bit words. *)
Fixpoint words_of (bs : list Z) : list Z :=
  match bs with
  | b0 :: b1 :: b2 :: b3 :: rest =>
      (b0 + 256 * b1 + 65536 * b2 + 16777216 * b3) :: words_of rest
  | _ => []
  end.

Fixpoint blocks_of (n : nat) (ws : list Z) : list (list Z) :=
  match n with
  | O => []
  | S k => firstn 16 ws :: blocks_of k (skipn 16 ws)
  end.

Definition le_bytes (n : nat) (x : Z) : list Z :=
  map (fun k => Z.land (Z.shiftr x (8 * Z.of_nat k)) 255) (seq 0 n).

Definition pad (msg : list Z) : list Z :=
  let len := Z.of_nat (List.length msg) in
  let zeros := Z.to_nat ((55 - len) mod 64) in
  msg ++ 128 :: repeat 0 zeros ++ le_bytes 8 (Z.land (8 * len) 18446744073709551615).

Definition digest (msg : list byte) : list Z :=
  let padded := pad (map (fun b => Z.of_N (Byte.to_N b)) msg) in
  let ws := words_of padded in
  let r := fold_left process_block (blocks_of (List.length ws / 16) ws) init in
  le_bytes 4 (ra r) ++ le_bytes 4 (rb r) ++ le_bytes 4 (rc r) ++ le_bytes 4 (rd r).

Definition hex_digit (x : Z) : ascii :=
  nth (Z.to_nat x)
      (list_ascii_of_string "0123456789abcdef") "0"%char.

Fixpoint hex_of (bs : list Z) : string :=
  match bs with
  | [] => EmptyString
  | b :: rest => String (hex_digit (b / 16)) (String (hex_digit (b mod 16)) (hex_of rest))
  end.

Definition hexdigest (msg : list byte) : string := hex_of (digest msg).

End MD5.

(** ** Path strings ([os.path] on POSIX) *)

Definition sep : ascii := "/"%char.

Definition starts_with_sep (s : string) : bool :=
  match s with
  | String c _ => Ascii.eqb c sep
  | EmptyString => false
  end.

Fixpoint ends_with_sep (s : string) : bool :=
  match s with
  | EmptyString => false
  | String c EmptyString => Ascii.eqb c sep
  | String _ s' => ends_with_sep s'
  end.

(** [os.path.join(a, b)] *)
Definition join (a b : string) : string :=
  if starts_with_sep b then b
  else if (String.eqb a EmptyString || ends_with_sep a)%bool then (a ++ b)%string
  else (a ++ String sep b)%string.

(** [s.replace(old, new)]: every non-overlapping occurrence of [old], found
    left to right.  [skip] counts the characters of an occurrence that is
    being passed over. *)
Fixpoint replace_from (old new : string) (skip : nat) (s : string) : string :=
  match s with
  | EmptyString => EmptyString
  | String c s' =>
      match skip with
      | S k => replace_from old new k s'
      | O =>
          if String.prefix old s
          then (new ++ replace_from old new (Nat.pred (String.length old)) s')%string
          else String c (replace_from old new O s')
      end
  end.

Fixpoint intersperse (new : string) (s : string) : string :=
  match s with
  | EmptyString => new
  | String c s' => (new ++ String c (intersperse new s'))%string
  end.

Definition replace (s old new : string) : string :=
  match old with
  | EmptyString => intersperse new s
  | _ => replace_from old new O s
  end.

(** [s.split('/')] *)
Fixpoint split_sep (s : string) : list string :=
  match s with
  | EmptyString => [EmptyString]
  | String c s' =>
      if Ascii.eqb c sep then EmptyString :: split_sep s'
      else match split_sep s' with
           | w :: ws => String c w :: ws
           | [] => [String c EmptyString]
           end
  end.

(** Components of a path below the root of the model, the way the kernel
    (and [os.path.abspath]) resolve them: empty components and [.] are
    dropped, [..] steps back.  The working directory is the root. *)
Definition norm_step (acc : list string) (c : string) : list string :=
  if (String.eqb c EmptyString || String.eqb c ".")%bool then acc
  else if String.eqb c ".." then removelast acc
  else acc ++ [c].

Definition normalize (cs : list string) : list string :=
  fold_left norm_step cs [].

Definition resolve (p : string) : list string := normalize (split_sep p).

(** Position of the last separator: the text up to and including it, and the
    text after it. *)
Fixpoint rsplit_sep (s : string) : option (string * string) :=
  match s with
  | EmptyString => None
  | String c s' =>
      match rsplit_sep s' with
      | Some (h, t) => Some (String c h, t)
      | None => if Ascii.eqb c sep then Some (String c EmptyString, s') else None
      end
  end.

Fixpoint all_sep (s : string) : bool :=
  match s with
  | EmptyString => true
  | String c s' => (Ascii.eqb c sep && all_sep s')%bool
  end.

(** [s.rstrip('/')] *)
Fixpoint rstrip_sep (s : string) : string :=
  match s with
  | EmptyString => EmptyString
  | String c s' =>
      match rstrip_sep s' with
      | EmptyString => if Ascii.eqb c sep then EmptyString else String c EmptyString
      | r => String c r
      end
  end.

(** [os.path.basename] and [os.path.dirname] *)
Definition basename (p : string) : string :=
  match rsplit_sep p with
  | Some (_, t) => t
  | None => p
  end.

Definition dirname (p : string) : string :=
  match rsplit_sep p with
  | Some (h, _) => if all_sep h then h else rstrip_sep h
  | None => EmptyString
  end.

Fixpoint common_prefix_len (a b : list string) : nat :=
  match a, b with
  | x :: a', y :: b' => if String.eqb x y then S (common_prefix_len a' b') else O
  | _, _ => O
  end.

Fixpoint join_all (cs : list string) : string :=
  match cs with
  | [] => EmptyString
  | [c] => c
  | c :: rest => (c ++ String sep (join_all rest))%string
  end.

(** [os.path.relpath(path, start)] *)
Definition relpath (path start : string) : string :=
  let start_list := resolve start in
  let path_list := resolve path in
  let i := common_prefix_len start_list path_list in
  let rel_list := repeat ".." (List.length start_list - i) ++ skipn i path_list in
  match rel_list with
  | [] => "."
  | _ => join_all rel_list
  end.

(** ** The file system

    A tree under one root, which is also the working directory.  A regular
    file has a read permission bit, a modification time and its bytes; a
    directory has a modification time and its entries in listing order.
    Times are [st_mtime_ns]: integer nanoseconds (the script reads the float
    [st_mtime], whose rounding is not modelled).  A new entry goes to the end
    of its directory's listing.  Links, ownership and the write and search
    permission bits are outside the model, and so are failures of the
    device. *)

#[warnings="-register-all"]
Inductive node : Type :=
| File (readable : bool) (mtime : Z) (data : list byte)
| Dir (mtime : Z) (entries : list (string * node)).

Definition is_dir (n : node) : bool :=
  match n with Dir _ _ => true | File _ _ _ => false end.

Definition node_mtime (n : node) : Z :=
  match n with Dir m _ => m | File _ m _ => m end.

Inductive exn : Type :=
| FileNotFoundError
| NotADirectoryError
| IsADirectoryError
| FileExistsError
| PermissionError
| SameFileError.

Fixpoint find_entry (name : string) (es : list (string * node)) : option node :=
  match es with
  | [] => None
  | (k, n) :: rest => if String.eqb k name then Some n else find_entry name rest
  end.

(** Replace the entry in place, or append it. *)
Fixpoint set_entry (name : string) (n : node) (es : list (string * node))
  : list (string * node) :=
  match es with
  | [] => [(name, n)]
  | (k, m) :: rest =>
      if String.eqb k name then (k, n) :: rest else (k, m) :: set_entry name n rest
  end.

Fixpoint del_entry (name : string) (es : list (string * node))
  : list (string * node) :=
  match es with
  | [] => []
  | (k, m) :: rest =>
      if String.eqb k name then rest else (k, m) :: del_entry name rest
  end.

Fixpoint lookup (n : node) (p : list string) : exn + node :=
  match p with
  | [] => inr n
  | c :: p' =>
      match n with
      | File _ _ _ => inl NotADirectoryError
      | Dir _ es =>
          match find_entry c es with
          | Some child => lookup child p'
          | None => inl FileNotFoundError
          end
      end
  end.

(** Rewrite the node at [p], when there is one. *)
Fixpoint alter (f : node -> node) (p : list string) (n : node) : node :=
  match p with
  | [] => f n
  | c :: p' =>
      match n with
      | File _ _ _ => n
      | Dir m es =>
          match find_entry c es with
          | Some child => Dir m (set_entry c (alter f p' child) es)
          | None => n
          end
      end
  end.

(** What [stat(2)] finds at a path string: the empty string names nothing,
    and a path that ends in a separator names directories only. *)
Definition stat (root : node) (p : string) : exn + node :=
  if String.eqb p EmptyString then inl FileNotFoundError
  else match lookup root (resolve p) with
       | inr (File r m d) =>
           if ends_with_sep p then inl NotADirectoryError else inr (File r m d)
       | other => other
       end.

(** Create or overwrite the entry [name] of the directory [d]; the
    directory's own time moves only when its listing changes. *)
Definition put_entry (now : Z) (name : string) (n : node) (d : node) : node :=
  match d with
  | File _ _ _ => d
  | Dir m es =>
      match find_entry name es with
      | Some _ => Dir m (set_entry name n es)
      | None => Dir now (set_entry name n es)
      end
  end.

Definition drop_entry (now : Z) (name : string) (d : node) : node :=
  match d with
  | File _ _ _ => d
  | Dir _ es => Dir now (del_entry name es)
  end.

(** [os.walk(top)]: top-down, each directory as [(root, dirs, files)], the
    names in listing order; a [top] that cannot be listed yields nothing
    (the default [onerror=None]).

    [os.walk] is a generator and lists a directory when it reaches it.  The
    walk here is taken on the tree as it is when the loop starts.  The two
    agree for the loops of the script as long as a round changes nothing
    below a directory that is still to be listed: the rounds of
    [sync_folders] and of the recopy pass write to the replica while the
    source is walked, and the rounds of the deletion pass remove files of the
    directory they are given. *)
Definition walk_item : Type := string * list string * list string.

Definition dir_names (es : list (string * node)) : list string :=
  map fst (filter (fun e => is_dir (snd e)) es).

Definition file_names (es : list (string * node)) : list string :=
  map fst (filter (fun e => negb (is_dir (snd e))) es).

Fixpoint walk_node (top : string) (n : node) {struct n} : list walk_item :=
  match n with
  | File _ _ _ => []
  | Dir _ es =>
      (top, dir_names es, file_names es) ::
      (fix walk_entries (l : list (string * node)) : list walk_item :=
         match l with
         | [] => []
         | (name, child) :: rest => walk_node (join top name) child ++ walk_entries rest
         end) es
  end.

Definition os_walk (root : node) (top : string) : list walk_item :=
  match stat root top with
  | inr n => walk_node top n
  | inl _ => []
  end.

(** ** The world the script runs in, and its effects *)

(** Messages of [logging.info] and [print], by format string. *)
Inductive message : Type :=
| FileCopied (source_file replica_file : string)  (* "File copied: {} -> {}" *)
| FileRemoved (replica_file : string)             (* "File removed: {}" *)
| NewFileCreated (file_path : string)             (* "New file created: {}" *)
| FileModified (file_path : string)               (* "File modified: {}" *)
| SyncCompleteAt (time : Z)                       (* "Sync complete at {}" *)
| SourceHash (source_hash : string)               (* "Source hash: {}" *)
| FoldersSynchronizedAt (time : Z).               (* "Folders synchronized at {}" *)

(** Calls that changed the file system, with the paths they acted on. *)
Inductive action : Type :=
| Makedirs (name : string)
| Copy2 (src dst : string)
| Copyfile (src dst : string)
| Remove (path : string).

(** The clock moves in [time.sleep] only: what a cycle writes is stamped
    with the time the cycle started at. *)
Record world : Type := World {
  fs : node;                (* the disk *)
  clock : Z;                (* current time, nanoseconds *)
  logged : list message;    (* records passed to logging.info, oldest first *)
  printed : list message;   (* lines printed on the console, oldest first *)
  actions : list action     (* mutating calls performed, oldest first *)
}.

(** A call returns a value or raises; either way the world is what the call
    made of it up to that point. *)
Inductive outcome (A : Type) : Type :=
| Done (a : A) (w : world)
| Raised (e : exn) (w : world).

Arguments Done {A} a w.
Arguments Raised {A} e w.

Definition M (A : Type) : Type := world -> outcome A.

Definition ret {A} (a : A) : M A := fun w => Done a w.

Definition raise {A} (e : exn) : M A := fun w => Raised e w.

Definition bind {A B} (m : M A) (k : A -> M B) : M B :=
  fun w => match m w with
           | Done a w' => k a w'
           | Raised e w' => Raised e w'
           end.

Notation "x <- m ;; k" := (bind m (fun x => k))
  (at level 61, m at next level, right associativity).
Notation "m ;; k" := (bind m (fun _ => k))
  (at level 61, right associativity).

Definition get_fs : M node := fun w => Done (fs w) w.

Definition set_fs (n : node) : M unit :=
  fun w => Done tt (World n (clock w) (logged w) (printed w) (actions w)).

Definition time_now : M Z := fun w => Done (clock w) w.

Definition record (a : action) : M unit :=
  fun w => Done tt (World (fs w) (clock w) (logged w) (printed w) (actions w ++ [a])).

Definition logging_info (msg : message) : M unit :=
  fun w => Done tt (World (fs w) (clock w) (logged w ++ [msg]) (printed w) (actions w)).

Definition print (msg : message) : M unit :=
  fun w => Done tt (World (fs w) (clock w) (logged w) (printed w ++ [msg]) (actions w)).

Definition lift {A} (r : exn + A) : M A :=
  match r with
  | inr a => ret a
  | inl e => raise e
  end.

(** [for x in xs: acc = body(acc, x)]: a loop with the local variables it
    assigns as accumulator. *)
Fixpoint for_each {X A} (xs : list X) (acc : A) (body : A -> X -> M A) : M A :=
  match xs with
  | [] => ret acc
  | x :: rest => acc' <- body acc x ;; for_each rest acc' body
  end.

(** ** The library calls the script makes ([os], [os.path], [shutil]) *)

Definition one_second : Z := 1000000000.

Definition path_exists (p : string) : M bool :=
  root <- get_fs ;;
  ret (match stat root p with inr _ => true | inl _ => false end).

Definition isfile (p : string) : M bool :=
  root <- get_fs ;;
  ret (match stat root p with inr (File _ _ _) => true | _ => false end).

Definition isdir (p : string) : M bool :=
  root <- get_fs ;;
  ret (match stat root p with inr (Dir _ _) => true | _ => false end).

(** [os.stat(p).st_mtime] and [os.path.getmtime(p)] *)
Definition st_mtime (p : string) : M Z :=
  root <- get_fs ;;
  n <- lift (stat root p) ;;
  ret (node_mtime n).

Definition listdir (p : string) : M (list string) :=
  root <- get_fs ;;
  n <- lift (stat root p) ;;
  match n with
  | Dir _ es => ret (map fst es)
  | File _ _ _ => raise NotADirectoryError
  end.

Definition name_in (name : string) (names : list string) : bool :=
  existsb (String.eqb name) names.

(** [open(p, 'rb')] and reading the file to its end. *)
Definition open_rb (p : string) : M (list byte) :=
  root <- get_fs ;;
  n <- lift (stat root p) ;;
  match n with
  | Dir _ _ => raise IsADirectoryError
  | File r _ d => if r then ret d else raise PermissionError
  end.

(** [open(p, 'wb')], writing [data] and closing: the file is created in its
    directory, or truncated and rewritten, and gets the current time. *)
Definition open_wb (p : string) (data : list byte) : M unit :=
  root <- get_fs ;;
  now <- time_now ;;
  if String.eqb p EmptyString then raise FileNotFoundError
  else if ends_with_sep p then raise IsADirectoryError
  else match resolve p with
       | [] => raise IsADirectoryError
       | comps =>
           let parent := removelast comps in
           let name := last comps EmptyString in
           d <- lift (lookup root parent) ;;
           match d with
           | File _ _ _ => raise NotADirectoryError
           | Dir _ es =>
               match find_entry name es with
               | Some (Dir _ _) => raise IsADirectoryError
               | Some (File r _ _) =>
                   set_fs (alter (put_entry now name (File r now data)) parent root)
               | None =>
                   set_fs (alter (put_entry now name (File true now data)) parent root)
               end
           end
       end.

Fixpoint comps_eqb (a b : list string) : bool :=
  match a, b with
  | [], [] => true
  | x :: a', y :: b' => (String.eqb x y && comps_eqb a' b')%bool
  | _, _ => false
  end.

Definition samefile (src dst : string) : M bool :=
  root <- get_fs ;;
  ret (match stat root src, stat root dst with
       | inr _, inr _ => comps_eqb (resolve src) (resolve dst)
       | _, _ => false
       end).

(** The copy inside [shutil.copyfile]: contents only. *)
Definition copy_contents (src dst : string) : M unit :=
  same <- samefile src dst ;;
  if same then raise SameFileError
  else data <- open_rb src ;; open_wb dst data.

(** [shutil.copystat]: the permission bits and the times of [src] on [dst]. *)
Definition copystat (src dst : string) : M unit :=
  root <- get_fs ;;
  s <- lift (stat root src) ;;
  _ <- lift (stat root dst) ;;
  let stamp n :=
    match n, s with
    | File _ _ d, File r m _ => File r m d
    | File r _ d, Dir m _ => File r m d
    | Dir _ es, _ => Dir (node_mtime s) es
    end in
  set_fs (alter stamp (resolve dst) root).

Definition shutil_copyfile (src dst : string) : M unit :=
  copy_contents src dst ;;
  record (Copyfile src dst).

(** [shutil.copy2]: into [dst] when [dst] is a directory. *)
Definition shutil_copy2 (src dst : string) : M unit :=
  d <- isdir dst ;;
  let dst' := if d then join dst (basename src) else dst in
  copy_contents src dst' ;;
  copystat src dst' ;;
  record (Copy2 src dst').

Definition os_remove (p : string) : M unit :=
  root <- get_fs ;;
  now <- time_now ;;
  n <- lift (stat root p) ;;
  match n, resolve p with
  | File _ _ _, c :: cs =>
      let comps := c :: cs in
      set_fs (alter (drop_entry now (last comps EmptyString)) (removelast comps) root) ;;
      record (Remove p)
  | _, _ => raise IsADirectoryError
  end.

(** [os.makedirs(name, exist_ok=True)]: [made] is the part of the path that
    is known to be a directory, [rest] the components still to visit. *)
Fixpoint makedirs_from (now : Z) (made rest : list string) (root : node)
  : exn + node :=
  match rest with
  | [] => inr root
  | c :: rest' =>
      let p := made ++ [c] in
      match lookup root p with
      | inr (Dir _ _) => makedirs_from now p rest' root
      | inr (File _ _ _) =>
          inl (match rest' with [] => FileExistsError | _ => NotADirectoryError end)
      | inl FileNotFoundError =>
          makedirs_from now p rest' (alter (put_entry now c (Dir now [])) made root)
      | inl e => inl e
      end
  end.

Definition os_makedirs (name : string) : M unit :=
  root <- get_fs ;;
  now <- time_now ;;
  if String.eqb name EmptyString then raise FileNotFoundError
  else
    there <- path_exists name ;;
    root' <- lift (makedirs_from now [] (resolve name) root) ;;
    set_fs root' ;;
    if there then ret tt else record (Makedirs name).

(** [time.sleep(interval)], [interval] in seconds *)
Definition time_sleep (interval : Z) : M unit :=
  fun w => Done tt (World (fs w) (clock w + interval * one_second)
                          (logged w) (printed w) (actions w)).

(** [logging.debug]: the script always configures the logger at level INFO
    ([logging.basicConfig(filename=log_file, level=logging.INFO)]), so the
    record is dropped. *)
Definition logging_debug (msg : message) : M unit := ret tt.

(** ** The script *)

(** *** [sync_folders] *)

(** Body of the loop over the files of one source directory (lines 50-58). *)
Definition sync_file (root replica_root : string) (new_files_created : bool)
  (file : string) : M bool :=
  let source_file := join root file in
  let replica_file := join replica_root file in
  there <- path_exists replica_file ;;
  stale <- (if negb there then ret true
            else s <- st_mtime source_file ;;
                 r <- st_mtime replica_file ;;
                 ret (s - r >? one_second)) ;;
  if stale then
    shutil_copy2 source_file replica_file ;;
    logging_info (FileCopied source_file replica_file) ;;
    print (FileCopied source_file replica_file) ;;
    ret true
  else ret new_files_created.

(** Body of the loop over the source walk (lines 46-58). *)
Definition sync_dir (source_path replica_path : string)
  (new_files_created : bool) (item : walk_item) : M bool :=
  let '(root, dirs, files) := item in
  let replica_root := replace root source_path replica_path in
  os_makedirs replica_root ;;
  for_each files new_files_created (sync_file root replica_root).

(** Body of the loop over the files of one replica directory (lines 64-70). *)
Definition prune_file (source_root replica_root : string) (_ : unit)
  (file : string) : M unit :=
  let source_file := join source_root file in
  let replica_file := join replica_root file in
  there <- path_exists source_file ;;
  if negb there then
    os_remove replica_file ;;
    logging_info (FileRemoved replica_file) ;;
    print (FileRemoved replica_file)
  else ret tt.

(** Body of the loop over the replica walk (lines 62-70). *)
Definition prune_dir (source_path replica_path : string) (_ : unit)
  (item : walk_item) : M unit :=
  let '(replica_root, dirs, files) := item in
  let source_root := replace replica_root replica_path source_path in
  for_each files tt (prune_file source_root replica_root).

Definition sync_folders (source_path replica_path : string) : M unit :=
  disk <- get_fs ;;
  new_files_created <-
    for_each (os_walk disk source_path) false (sync_dir source_path replica_path) ;;
  disk <- get_fs ;;
  for_each (os_walk disk replica_path) tt (prune_dir source_path replica_path) ;;
  if new_files_created : bool then
    now <- time_now ;;
    logging_info (SyncCompleteAt now) ;;
    print (SyncCompleteAt now)
  else ret tt.

(** *** [get_folder_hash] *)

(** The [while True] loop over [f.read(4096)]: [f] is what is left of the
    file, [hash] the bytes the MD5 object has been fed.  Every round but the
    last consumes at least one byte, so [S (length f)] rounds are enough. *)
Definition chunk_size : nat := 4096.

Fixpoint read_chunks (rounds : nat) (hash f : list byte) : list byte :=
  match rounds with
  | O => hash
  | S k =>
      match firstn chunk_size f with
      | [] => hash
      | data => read_chunks k (hash ++ data) (skipn chunk_size f)
      end
  end.

Definition hash_file (root : string) (hash : list byte) (file : string)
  : M (list byte) :=
  f <- open_rb (join root file) ;;
  ret (read_chunks (S (List.length f)) hash f).

Definition hash_dir (hash : list byte) (item : walk_item) : M (list byte) :=
  let '(root, dirs, files) := item in
  for_each files hash (hash_file root).

Definition get_folder_hash (folder : string) : M string :=
  disk <- get_fs ;;
  hash <- for_each (os_walk disk folder) [] hash_dir ;;
  ret (MD5.hexdigest hash).

(** *** [check_for_events] *)

Record events : Type := Events {
  new_file : list string;
  file_modified : list string;
  file_removed : list string
}.

(** Body of the loop over [os.listdir(source_path)] (lines 121-135). *)
Definition check_source_entry (source_path replica_path : string)
  (ev : events) (filename : string) : M events :=
  let file_path := join source_path filename in
  f <- isfile file_path ;;
  if f then
    names <- listdir replica_path ;;
    if negb (name_in filename names) then
      logging_info (NewFileCreated file_path) ;;
      print (NewFileCreated file_path) ;;
      ret (Events (new_file ev ++ [filename]) (file_modified ev) (file_removed ev))
    else
      source_mtime <- st_mtime file_path ;;
      replica_mtime <- st_mtime (join replica_path filename) ;;
      if source_mtime >? replica_mtime then
        logging_info (FileModified file_path) ;;
        print (FileModified file_path) ;;
        ret (Events (new_file ev) (file_modified ev ++ [filename]) (file_removed ev))
      else ret ev
  else ret ev.

(** Body of the loop over [os.listdir(replica_path)] (lines 139-142). *)
Definition check_replica_entry (source_path replica_path : string)
  (ev : events) (filename : string) : M events :=
  let file_path := join replica_path filename in
  f <- isfile file_path ;;
  if f then
    names <- listdir source_path ;;
    if negb (name_in filename names) then
      ret (Events (new_file ev) (file_modified ev) (file_removed ev ++ [filename]))
    else ret ev
  else ret ev.

Definition nonempty {X} (l : list X) : bool :=
  match l with [] => false | _ => true end.

(** The two loops that fill [events] (lines 117-142). *)
Definition scan_events (source_path replica_path : string) : M events :=
  let ev := Events [] [] [] in
  names <- listdir source_path ;;
  ev <- for_each names ev (check_source_entry source_path replica_path) ;;
  names <- listdir replica_path ;;
  for_each names ev (check_replica_entry source_path replica_path).

(** [events['new_file'] or events['file_modified'] or events['file_removed']] *)
Definition has_events (ev : events) : bool :=
  (nonempty (new_file ev) || nonempty (file_modified ev)
   || nonempty (file_removed ev))%bool.

Definition check_for_events (source_path replica_path : string) : M unit :=
  ev <- scan_events source_path replica_path ;;
  if has_events ev then
    sync_folders source_path replica_path ;;
    source_hash <- get_folder_hash source_path ;;
    logging_info (SourceHash source_hash)
  else ret tt.

(** *** The polling loop *)

(** Body of the loop over the files of one source directory in the recopy
    that follows a hash mismatch (lines 204-209). *)
Definition recopy_file (source_path replica_path root : string) (_ : unit)
  (file : string) : M unit :=
  let source_file := join root file in
  let replica_file := join replica_path (relpath source_file source_path) in
  there <- path_exists replica_file ;;
  (if there then os_remove replica_file else ret tt) ;;
  os_makedirs (dirname replica_file) ;;
  shutil_copyfile source_file replica_file.

Definition recopy_dir (source_path replica_path : string) (_ : unit)
  (item : walk_item) : M unit :=
  let '(root, dirs, files) := item in
  for_each files tt (recopy_file source_path replica_path root).

(** One pass of the [while True] loop, up to the [time.sleep] (lines
    194-215): the reconciliation cycle. *)
Definition sync_cycle (source_path replica_path log_level : string) : M unit :=
  check_for_events source_path replica_path ;;
  source_hash <- get_folder_hash source_path ;;
  replica_hash <- get_folder_hash replica_path ;;
  (if negb (String.eqb source_hash replica_hash) then
     disk <- get_fs ;;
     for_each (os_walk disk source_path) tt (recopy_dir source_path replica_path)
   else ret tt) ;;
  now <- time_now ;;
  if String.eqb log_level "DEBUG" then logging_debug (SyncCompleteAt now)
  else logging_info (FoldersSynchronizedAt now).

(** [n] passes of the loop, each followed by [time.sleep(interval)]. *)
Fixpoint main_loop (n : nat) (source_path replica_path : string)
  (interval : Z) (log_level : string) : M unit :=
  match n with
  | O => ret tt
  | S k =>
      sync_cycle source_path replica_path log_level ;;
      time_sleep interval ;;
      main_loop k source_path replica_path interval log_level
  end.

(** ** Notions the properties are stated with *)

(** The bytes a walk of [folder] meets, file after file, in walk order. *)
Definition file_bytes (disk : node) (path : string) : list byte :=
  match stat disk path with
  | inr (File _ _ d) => d
  | _ => []
  end.

Definition item_bytes (disk : node) (item : walk_item) : list byte :=
  let '(root, dirs, files) := item in
  flat_map (fun file => file_bytes disk (join root file)) files.

Definition walk_stream (disk : node) (folder : string) : list byte :=
  flat_map (item_bytes disk) (os_walk disk folder).

(** Every file of the walk can be opened for reading. *)
Definition can_read (disk : node) (path : string) : bool :=
  match stat disk path with
  | inr (File true _ _) => true
  | _ => false
  end.

Definition item_readable (disk : node) (item : walk_item) : bool :=
  let '(root, dirs, files) := item in
  forallb (fun file => can_read disk (join root file)) files.

Definition all_readable (disk : node) (folder : string) : bool :=
  forallb (item_readable disk) (os_walk disk folder).

(** World of an outcome, whether the call returned or raised. *)
Definition final {A} (o : outcome A) : world :=
  match o with
  | Done _ w => w
  | Raised _ w => w
  end.

Definition raised {A} (o : outcome A) : bool :=
  match o with
  | Done _ _ => false
  | Raised _ _ => true
  end.

(** ** Scenarios *)

Definition text (s : string) : list byte := list_byte_of_string s.

Definition seconds (n : Z) : Z := n * one_second.

(** A fresh run on [disk]: the clock at 100 s, nothing logged yet. *)
Definition boot (disk : node) : world := World disk (seconds 100) [] [] [].

(** The replica holds a file below a subdirectory that the source lacks;
    the top-level files agree. *)
Definition stray_file_disk : node :=
  Dir 0 [ ("src", Dir 0 [ ("a.txt", File true (seconds 10) (text "x")) ]);
          ("dst", Dir 0 [ ("a.txt", File true (seconds 10) (text "x"));
                          ("sub", Dir 0 [ ("b.txt", File true (seconds 10) (text "y")) ]) ]) ].

(** The replica holds an empty directory that the source lacks. *)
Definition stray_dir_disk : node :=
  Dir 0 [ ("src", Dir 0 [ ("a.txt", File true (seconds 10) (text "x")) ]);
          ("dst", Dir 0 [ ("old", Dir 0 []) ]) ].

(** There is no replica directory yet. *)
Definition no_replica_disk : node :=
  Dir 0 [ ("src", Dir 0 [ ("a.txt", File true (seconds 10) (text "x")) ]) ].

(** Same name, same time, different bytes. *)
Definition changed_bytes_disk : node :=
  Dir 0 [ ("src", Dir 0 [ ("a.txt", File true (seconds 10) (text "new")) ]);
          ("dst", Dir 0 [ ("a.txt", File true (seconds 10) (text "old")) ]) ].

(** The first source file cannot be read. *)
Definition unreadable_disk : node :=
  Dir 0 [ ("src", Dir 0 [ ("a.txt", File false (seconds 10) (text "x"));
                          ("b.txt", File true (seconds 10) (text "y")) ]);
          ("dst", Dir 0 []) ].

(** The replica holds a file and a directory with a file in it that the
    source lacks; the source has a new top-level file. *)
Definition orphans_disk : node :=
  Dir 0 [ ("src", Dir 0 [ ("a.txt", File true (seconds 10) (text "x")) ]);
          ("dst", Dir 0 [ ("old.txt", File true (seconds 10) (text "o"));
                          ("olddir", Dir 0 [ ("deep.txt", File true (seconds 10) (text "d")) ]) ]) ].

(** Source [ab] with a subdirectory [b], replica [a]. *)
Definition sibling_disk : node :=
  Dir 0 [ ("ab", Dir 0 [ ("t", File true (seconds 10) (text "x"));
                         ("b", Dir 0 [ ("f", File true (seconds 10) (text "y")) ]) ]);
          ("a", Dir 0 []) ].


(** Two trees with the same bytes in walk order and nothing else in common. *)
Definition flat_disk : node :=
  Dir 0 [ ("one", Dir 0 [ ("a.txt", File true (seconds 10) (text "xy")) ]) ].

Definition deep_disk : node :=
  Dir 0 [ ("two", Dir 0 [ ("p.txt", File true (seconds 20) (text "x"));
                          ("empty", Dir 0 []);
                          ("d", Dir 0 [ ("q.txt", File true (seconds 30) (text "y")) ]) ]) ].

(** ** Well-formed names and trees *)

Fixpoint has_sep (s : string) : bool :=
  match s with
  | EmptyString => false
  | String c s' => (Ascii.eqb c sep || has_sep s')%bool
  end.

(** A name a directory entry can have: not empty, not [.] or [..], without
    separator. *)
Definition valid_name (s : string) : bool :=
  (negb (String.eqb s EmptyString) && negb (String.eqb s ".") && negb (String.eqb s "..")
   && negb (has_sep s))%bool.

(** [old] occurs somewhere in [s]. *)
Fixpoint occurs (old s : string) : bool :=
  (String.prefix old s ||
   match s with
   | EmptyString => false
   | String _ s' => occurs old s'
   end)%bool.

Fixpoint no_repeat (names : list string) : bool :=
  match names with
  | [] => true
  | x :: rest => (negb (name_in x rest) && no_repeat rest)%bool
  end.

(** Every entry of the tree has a name that satisfies [ok], and no directory
    lists a name twice. *)
Fixpoint well_named (ok : string -> bool) (n : node) {struct n} : bool :=
  match n with
  | File _ _ _ => true
  | Dir _ es =>
      (no_repeat (map fst es) &&
       (fix entries_ok (l : list (string * node)) : bool :=
          match l with
          | [] => true
          | (name, child) :: rest =>
              (ok name && well_named ok child && entries_ok rest)%bool
          end) es)%bool
  end.

(** The path string [os.walk] builds for the directory reached from [top]
    through the names [names]. *)
Fixpoint path_str (top : string) (names : list string) : string :=
  match names with
  | [] => top
  | c :: rest => path_str (join top c) rest
  end.

Fixpoint tail_str (names : list string) : string :=
  match names with
  | [] => EmptyString
  | c :: rest => String sep (c ++ tail_str rest)%string
  end.

(** ** Source and replica kept apart

    The script maps a walk path to the other tree with [str.replace].  The
    map is the intended one when the two roots are plain, different names
    and no entry below either root has a name that contains one of them. *)

Definition tidy_name (source_path replica_path name : string) : bool :=
  (valid_name name && negb (occurs source_path name)
   && negb (occurs replica_path name))%bool.

Definition subtree_ok (ok : string -> bool) (disk : node) (top : string) : bool :=
  match lookup disk [top] with
  | inr n => well_named ok n
  | inl _ => true
  end.

Definition plain_roots (source_path replica_path : string) : bool :=
  (valid_name source_path && valid_name replica_path
   && negb (String.eqb source_path replica_path))%bool.

Definition tidy_disk (source_path replica_path : string) (disk : node) : bool :=
  (subtree_ok (tidy_name source_path replica_path) disk source_path
   && subtree_ok (tidy_name source_path replica_path) disk replica_path)%bool.

(** [disk'] differs from [disk] below the entry [top] of the root only, and
    what is below [top] is still well named if it was. *)
Definition changed_below (ok : string -> bool) (top : string)
  (disk disk' : node) : Prop :=
  (forall c p, c <> top -> lookup disk' (c :: p) = lookup disk (c :: p)) /\
  (subtree_ok ok disk top = true -> subtree_ok ok disk' top = true).

(** A function on nodes that keeps trees well named. *)
Definition keeps_names (ok : string -> bool) (f : node -> node) : Prop :=
  forall x, well_named ok x = true -> well_named ok (f x) = true.

(** Every directory of [disk] is still a directory of [disk']. *)
Definition dirs_kept (disk disk' : node) : Prop :=
  forall p m es,
    lookup disk p = inr (Dir m es) ->
    exists m' es', lookup disk' p = inr (Dir m' es').

Definition is_file_at (disk : node) (p : list string) : Prop :=
  exists r m d, lookup disk p = inr (File r m d).

(** The replica may only have lost files between [w] and [w']. *)
Definition pruned (ok : string -> bool) (replica_path : string)
  (w w' : world) : Prop :=
  changed_below ok replica_path (fs w) (fs w') /\
  forall q r m d,
    lookup (fs w') (replica_path :: q) = inr (File r m d) ->
    lookup (fs w) (replica_path :: q) = inr (File r m d).

(** The replica has no orphan at [names/file]: either the source has an
    entry there, or the replica has no regular file there. *)
Definition no_orphan_at (source_path replica_path : string)
  (names : list string) (file : string) (w : world) : Prop :=
  (exists n, lookup (fs w) (source_path :: names ++ [file]) = inr n) \/
  ~ is_file_at (fs w) (replica_path :: names ++ [file]).

(** No regular file below the replica root is without an entry at the same
    relative path below the source root. *)
Definition no_orphans (source_path replica_path : string) (disk : node) : Prop :=
  forall names file,
    is_file_at disk (replica_path :: names ++ [file]) ->
    exists n, lookup disk (source_path :: names ++ [file]) = inr n.

(** [check_for_events] finds a new, modified or removed top-level file. *)
Definition events_found (source_path replica_path : string) (w : world) : bool :=
  match scan_events source_path replica_path w with
  | Done ev _ => has_events ev
  | Raised _ _ => false
  end.

(** ** What a call does to the disk

    A call [respects] a relation [R] between disks when, from any world
    whose disk is [good], it ends (returning or raising) on a disk related
    to the one it started on. *)
Definition respects (good : node -> Prop) (R : node -> node -> Prop)
  {A} (m : M A) : Prop :=
  forall w, good (fs w) -> R (fs w) (fs (final (m w))).

(** A call that leaves the disk alone, and the record of mutating calls
    with it. *)
Definition reads {A} (m : M A) : Prop :=
  forall w, fs (final (m w)) = fs w /\ actions (final (m w)) = actions w.

(** The permission bits [open(p, 'wb')] leaves on the file: those of the
    file it truncates, or the default of a new file. *)
Definition mode_of (entry : option node) : bool :=
  match entry with
  | Some (File r _ _) => r
  | _ => true
  end.

(** ** Further notions: failures of a listing, the bytes of a tree, what a
    log tells *)

(** The exception [os.listdir(p)] ends with, if any. *)
Definition listdir_error (disk : node) (p : string) : option exn :=
  match stat disk p with
  | inl e => Some e
  | inr (File _ _ _) => Some NotADirectoryError
  | inr (Dir _ _) => None
  end.

(** The exception the two listings of [check_for_events] end with, if
    any: that of the source first. *)
Definition roots_error (disk : node) (source_path replica_path : string)
  : option exn :=
  match listdir_error disk source_path with
  | Some e => Some e
  | None => listdir_error disk replica_path
  end.

(** The paths a walk opens, in the order it opens them. *)
Definition item_files (item : walk_item) : list string :=
  let '(root, dirs, files) := item in map (join root) files.

Definition walk_files (disk : node) (folder : string) : list string :=
  flat_map item_files (os_walk disk folder).

(** The regular files of a tree in the order a walk meets them: the files
    of a directory in listing order, then its subdirectories, one after the
    other, in listing order. *)
Fixpoint tree_files (n : node) {struct n} : list node :=
  match n with
  | File _ _ _ => []
  | Dir _ es =>
      filter (fun c => negb (is_dir c)) (map snd es) ++
      (fix below (l : list (string * node)) : list node :=
         match l with
         | [] => []
         | (_, child) :: rest => tree_files child ++ below rest
         end) es
  end.

Definition node_bytes (n : node) : list byte :=
  match n with
  | File _ _ d => d
  | Dir _ _ => []
  end.

Definition node_readable (n : node) : bool :=
  match n with
  | File r _ _ => r
  | Dir _ _ => true
  end.

(** The bytes a walk of the tree feeds the hash, and whether every file of
    the tree can be read. *)
Definition tree_bytes (n : node) : list byte := flat_map node_bytes (tree_files n).

Definition tree_readable (n : node) : bool := forallb node_readable (tree_files n).

(** What happened to files, as the record of calls has it and as the log
    tells it. *)
Inductive change : Type :=
| Copied (source_file : string)
| Removed (replica_file : string).

Definition change_of_action (a : action) : list change :=
  match a with
  | Copy2 src _ => [Copied src]
  | Copyfile src _ => [Copied src]
  | Remove p => [Removed p]
  | Makedirs _ => []
  end.

Definition change_of_message (msg : message) : list change :=
  match msg with
  | FileCopied source_file _ => [Copied source_file]
  | FileRemoved replica_file => [Removed replica_file]
  | _ => []
  end.

Definition changes_done (la : list action) : list change :=
  flat_map change_of_action la.

Definition changes_told (lm : list message) : list change :=
  flat_map change_of_message lm.

Definition is_copy (a : action) : bool :=
  match a with
  | Copy2 _ _ => true
  | Copyfile _ _ => true
  | _ => false
  end.

(** ** What a call does to the records

    A call is [always] in a relation [T] between worlds when, from any
    world, it ends (returning or raising) in a world related to the one it
    started in. *)
Definition always (T : world -> world -> Prop) {A} (m : M A) : Prop :=
  forall w, T w (final (m w)).

(** Nothing recorded, logged or printed, and the clock where it was. *)
Definition quiet (w w' : world) : Prop :=
  clock w' = clock w /\ logged w' = logged w /\ printed w' = printed w /\
  actions w' = actions w.

(** Between [w] and [w'] the log and the console got the same lines, and
    these lines tell the copies and removals performed, in order. *)
Definition told (w w' : world) : Prop :=
  clock w' = clock w /\
  exists la lm,
    actions w' = actions w ++ la /\
    logged w' = logged w ++ lm /\
    printed w' = printed w ++ lm /\
    changes_told lm = changes_done la.

Definition is_sync_complete (msg : message) : bool :=
  match msg with
  | SyncCompleteAt _ => true
  | _ => false
  end.

(** How many copies the record of calls has, how many [Sync complete]
    lines the log. *)
Definition copies (w : world) : nat := List.length (filter is_copy (actions w)).

Definition sync_completes (w : world) : nat :=
  List.length (filter is_sync_complete (logged w)).

(** ** The events of [check_for_events], read off the two listings *)

Definition entry_mtime (es : list (string * node)) (name : string) : Z :=
  match find_entry name es with
  | Some n => node_mtime n
  | None => 0
  end.

(** A regular file of the source listing with no entry of its name in the
    replica listing; one whose namesake in the replica listing is older. *)
Definition is_new (rep : list (string * node)) (f : string) : bool :=
  negb (name_in f (map fst rep)).

Definition is_newer (src rep : list (string * node)) (f : string) : bool :=
  (name_in f (map fst rep) && (entry_mtime src f >? entry_mtime rep f))%bool.

Definition found_events (src rep : list (string * node)) : events :=
  Events (filter (is_new rep) (file_names src))
         (filter (is_newer src rep) (file_names src))
         (filter (is_new src) (file_names rep)).

(** The lines the scan writes: one for each new and each newer file, in
    the order of the source listing. *)
Definition event_line (source_path : string) (src rep : list (string * node))
  (f : string) : list message :=
  if is_new rep f then [NewFileCreated (join source_path f)]
  else if is_newer src rep f then [FileModified (join source_path f)]
  else [].

Definition scan_report (source_path : string) (src rep : list (string * node))
  : list message :=
  flat_map (event_line source_path src rep) (file_names src).

(** The world after the lines [lm] went to the log and to the console. *)
Definition say (lm : list message) (w : world) : world :=
  World (fs w) (clock w) (logged w ++ lm) (printed w ++ lm) (actions w).

(** ** A replica that mirrors its source

    The same names in the same listing order, directories under directories,
    and under each file a file with the same bytes that is not older.  The
    times of directories and the permission bits do not matter. *)
Fixpoint bytes_eqb (a b : list byte) : bool :=
  match a, b with
  | [], [] => true
  | x :: a', y :: b' => (Byte.eqb x y && bytes_eqb a' b')%bool
  | _, _ => false
  end.

Fixpoint mirrors (a b : node) {struct a} : bool :=
  match a, b with
  | File _ ma da, File _ mb db => ((ma <=? mb) && bytes_eqb da db)%bool
  | Dir _ es, Dir _ es' =>
      (fix entries (l l' : list (string * node)) {struct l} : bool :=
         match l, l' with
         | [], [] => true
         | (k, c) :: rest, (k', c') :: rest' =>
             (String.eqb k k' && mirrors c c' && entries rest rest')%bool
         | _, _ => false
         end) es es'
  | _, _ => false
  end.

Definition entry_mirrors (e e' : string * node) : Prop :=
  fst e = fst e' /\ mirrors (snd e) (snd e') = true.

(** ** Paths beside one another *)

(** [a] is [b] or an ancestor of [b]. *)
Fixpoint is_prefix (a b : list string) : bool :=
  match a, b with
  | [], _ => true
  | x :: a', y :: b' => (String.eqb x y && is_prefix a' b')%bool
  | _ :: _, [] => false
  end.

(** What [shutil.copystat] makes of a node of the target, given the node
    of the origin. *)
Definition stamp_with (s n : node) : node :=
  match n, s with
  | File _ _ d, File r m _ => File r m d
  | File r _ d, Dir m _ => File r m d
  | Dir _ es, _ => Dir (node_mtime s) es
  end.

(** A replica entry that the copy loop of [sync_folders] leaves as it is,
    for a source file of time [sm]: a file that is not more than a second
    older, or a directory. *)
Definition settled (sm : Z) (x : exn + node) : bool :=
  match x with
  | inr (File _ rm _) => negb (sm - rm >? one_second)
  | inr (Dir _ _) => true
  | inl _ => false
  end.

Definition is_dir_at (x : exn + node) : bool :=
  match x with
  | inr (Dir _ _) => true
  | _ => false
  end.

(** Two results of a lookup that are the same entry, or both of them no
    entry. *)
Definition same_entry (a b : exn + node) : Prop :=
  match a, b with
  | inl _, inl _ => True
  | _, _ => a = b
  end.

(** ** Further scenarios *)

(** A replica that mirrors its source: its directories were made later
    and its files are the copies of the source's. *)
Definition mirrored_disk : node :=
  Dir 0 [ ("src", Dir (seconds 20)
                    [ ("a.txt", File true (seconds 10) (text "x"));
                      ("sub", Dir (seconds 15)
                                [ ("b.txt", File true (seconds 12) (text "y")) ]) ]);
          ("dst", Dir (seconds 90)
                    [ ("a.txt", File true (seconds 10) (text "x"));
                      ("sub", Dir (seconds 90)
                                [ ("b.txt", File true (seconds 12) (text "y")) ]) ]) ].

(** The source has a directory [sub] where the replica has a regular file
    of that name. *)
Definition conflict_disk : node :=
  Dir 0 [ ("src", Dir 0 [ ("a.txt", File true (seconds 10) (text "x"));
                          ("sub", Dir 0 [ ("b.txt", File true (seconds 10) (text "y")) ]) ]);
          ("dst", Dir 0 [ ("sub", File true (seconds 10) (text "z")) ]) ].

(** An empty source beside a replica that still holds a file. *)
Definition leftover_disk : node :=
  Dir 0 [ ("src", Dir 0 []);
          ("dst", Dir 0 [ ("old.txt", File true (seconds 10) (text "o")) ]) ].


(** ** Basic facts *)

Ltac monad_unfold :=
  repeat progress
    unfold bind, ret, raise, lift, get_fs, set_fs, time_now, record,
      logging_info, print, logging_debug in *.

#[local] Arguments sep : simpl never.
#[local] Arguments stat : simpl never.
#[local] Arguments resolve : simpl never.
#[local] Arguments join : simpl never.
#[local] Arguments replace : simpl never.
#[local] Arguments os_walk : simpl never.
#[local] Arguments path_exists : simpl never.
#[local] Arguments isfile : simpl never.
#[local] Arguments isdir : simpl never.
#[local] Arguments st_mtime : simpl never.
#[local] Arguments listdir : simpl never.
#[local] Arguments open_rb : simpl never.
#[local] Arguments open_wb : simpl never.
#[local] Arguments samefile : simpl never.
#[local] Arguments copy_contents : simpl never.
#[local] Arguments copystat : simpl never.
#[local] Arguments shutil_copyfile : simpl never.
#[local] Arguments shutil_copy2 : simpl never.
#[local] Arguments os_remove : simpl never.
#[local] Arguments os_makedirs : simpl never.
#[local] Arguments sync_file : simpl never.
#[local] Arguments sync_dir : simpl never.
#[local] Arguments prune_file : simpl never.
#[local] Arguments prune_dir : simpl never.
#[local] Arguments sync_folders : simpl never.
#[local] Arguments hash_file : simpl never.
#[local] Arguments hash_dir : simpl never.
#[local] Arguments get_folder_hash : simpl never.
#[local] Arguments check_source_entry : simpl never.
#[local] Arguments check_replica_entry : simpl never.
#[local] Arguments scan_events : simpl never.
#[local] Arguments check_for_events : simpl never.
#[local] Arguments recopy_file : simpl never.
#[local] Arguments recopy_dir : simpl never.
#[local] Arguments sync_cycle : simpl never.
#[local] Arguments removelast : simpl never.
#[local] Arguments last : simpl never.

#[local] Arguments read_chunks : simpl never.
#[local] Arguments chunk_size : simpl never.

Lemma firstn_nil_inv {X} (n : nat) (l : list X) :
  (0 < n)%nat -> firstn n l = [] -> l = [].
Proof.
  destruct n as [|n]; [lia|].
  destruct l; [reflexivity | discriminate].
Qed.

Lemma chunk_size_pos : (0 < chunk_size)%nat.
Proof. unfold chunk_size. lia. Qed.

(** Reading a file chunk by chunk feeds the hash every byte of it: the
    rounds allotted to the loop are enough. *)
Lemma read_chunks_all (rounds : nat) :
  forall hash f, (List.length f < rounds)%nat -> read_chunks rounds hash f = hash ++ f.
Proof.
  induction rounds as [|k IH]; intros hash f Hlen; [lia|].
  unfold read_chunks; fold read_chunks.
  destruct (firstn chunk_size f) as [|b data] eqn:Hfirst.
  - apply firstn_nil_inv in Hfirst; [|apply chunk_size_pos].
    subst f. now rewrite app_nil_r.
  - rewrite IH.
    + rewrite <- app_assoc, <- Hfirst. now rewrite firstn_skipn.
    + rewrite length_skipn.
      pose proof chunk_size_pos.
      destruct f; [destruct chunk_size; discriminate | cbn [List.length] in *; lia].
Qed.

Lemma hash_file_readable (w : world) (root file : string) (hash : list byte) :
  can_read (fs w) (join root file) = true ->
  hash_file root hash file w = Done (hash ++ file_bytes (fs w) (join root file)) w.
Proof.
  unfold can_read, file_bytes, hash_file, open_rb. monad_unfold.
  destruct (stat (fs w) (join root file)) as [e|[r m d|m es]]; try discriminate.
  destruct r; [|discriminate]. intros _. cbn.
  now rewrite read_chunks_all by lia.
Qed.

Lemma hash_files_readable (w : world) (root : string) :
  forall files hash,
    forallb (fun file => can_read (fs w) (join root file)) files = true ->
    for_each files hash (hash_file root) w
    = Done (hash ++ flat_map (fun file => file_bytes (fs w) (join root file)) files) w.
Proof.
  induction files as [|file files IH]; intros hash Hall; cbn in *.
  - unfold ret. now rewrite app_nil_r.
  - apply andb_prop in Hall. destruct Hall as [Hfile Hrest].
    unfold bind. rewrite hash_file_readable by assumption.
    rewrite IH by assumption. now rewrite app_assoc.
Qed.

Lemma hash_items_readable (w : world) :
  forall items hash,
    forallb (item_readable (fs w)) items = true ->
    for_each items hash hash_dir w
    = Done (hash ++ flat_map (item_bytes (fs w)) items) w.
Proof.
  induction items as [|[[root dirs] files] items IH]; intros hash Hall; cbn in *.
  - unfold ret. now rewrite app_nil_r.
  - apply andb_prop in Hall. destruct Hall as [Hitem Hrest].
    unfold bind.
    change (hash_dir hash (root, dirs, files))
      with (for_each files hash (hash_file root)).
    rewrite hash_files_readable by assumption.
    rewrite IH by assumption. now rewrite app_assoc.
Qed.

(** [get_folder_hash] is total on a tree whose files can all be read, leaves
    the world as it is, and returns the MD5 of the walk's byte stream. *)
Lemma get_folder_hash_stream (w : world) (folder : string) :
  all_readable (fs w) folder = true ->
  get_folder_hash folder w = Done (MD5.hexdigest (walk_stream (fs w) folder)) w.
Proof.
  intros Hall. unfold get_folder_hash, get_fs, bind.
  rewrite hash_items_readable by assumption. reflexivity.
Qed.

(** ** Entries, paths and rewriting *)

Lemma find_entry_set_same (name : string) (v : node) (es : list (string * node)) :
  find_entry name (set_entry name v es) = Some v.
Proof.
  induction es as [|[k m] es IH]; cbn.
  - now rewrite String.eqb_refl.
  - destruct (String.eqb k name) eqn:E; cbn; now rewrite E.
Qed.

Lemma find_entry_set_other (name name' : string) (v : node)
  (es : list (string * node)) :
  name <> name' ->
  find_entry name' (set_entry name v es) = find_entry name' es.
Proof.
  intros Hne. induction es as [|[k m] es IH]; cbn.
  - destruct (String.eqb_spec name name'); [contradiction | reflexivity].
  - destruct (String.eqb_spec k name) as [->|Hk]; cbn.
    + destruct (String.eqb_spec name name'); [contradiction | reflexivity].
    + now rewrite IH.
Qed.

Lemma find_entry_del_other (name name' : string) (es : list (string * node)) :
  name <> name' ->
  find_entry name' (del_entry name es) = find_entry name' es.
Proof.
  intros Hne. induction es as [|[k m] es IH]; cbn; [reflexivity|].
  destruct (String.eqb_spec k name) as [->|Hk]; cbn.
  - destruct (String.eqb_spec name name'); [contradiction | reflexivity].
  - now rewrite IH.
Qed.

Lemma lookup_app (p q : list string) :
  forall n,
    lookup n (p ++ q)
    = match lookup n p with
      | inr m => lookup m q
      | inl e => inl e
      end.
Proof.
  induction p as [|c p IH]; intros n; cbn; [reflexivity|].
  destruct n as [r m d|m es]; [reflexivity|].
  destruct (find_entry c es); [apply IH | reflexivity].
Qed.

Lemma lookup_alter_same (f : node -> node) (p : list string) :
  forall n x, lookup n p = inr x -> lookup (alter f p n) p = inr (f x).
Proof.
  induction p as [|c p IH]; intros n x Hx; cbn in *.
  - now inversion Hx.
  - destruct n as [r m d|m es]; [discriminate|].
    destruct (find_entry c es) as [child|] eqn:Hc; [|discriminate].
    cbn. rewrite find_entry_set_same. now apply IH.
Qed.

(** A change below the entry [c] of the root is not seen through another
    entry. *)
Lemma lookup_alter_apart (f : node -> node) (c c' : string)
  (q p : list string) (n : node) :
  c <> c' ->
  lookup (alter f (c :: q) n) (c' :: p) = lookup n (c' :: p).
Proof.
  intros Hne. cbn. destruct n as [r m d|m es]; [reflexivity|].
  destruct (find_entry c es) as [child|] eqn:Hc; [|reflexivity].
  cbn. now rewrite find_entry_set_other.
Qed.

Lemma removelast_last_split {X} (l : list X) (d : X) :
  l <> [] -> l = removelast l ++ [last l d].
Proof. intros H. now apply app_removelast_last. Qed.



(** What [stat] answers, in terms of the tree. *)
Lemma stat_file_inv (root : node) (p : string) (r : bool) (m : Z) (d : list byte) :
  stat root p = inr (File r m d) ->
  String.eqb p EmptyString = false /\ ends_with_sep p = false /\
  lookup root (resolve p) = inr (File r m d).
Proof.
  unfold stat. destruct (String.eqb p EmptyString); [discriminate|].
  destruct (lookup root (resolve p)) as [e|[r0 m0 d0|m0 es]]; try discriminate.
  destruct (ends_with_sep p); [discriminate|]. intros E. now inversion E.
Qed.


(** ** Copying onto a regular file *)

Lemma lookup_file_parent (root : node) (comps : list string)
  (r : bool) (m : Z) (d : list byte) :
  comps <> [] ->
  lookup root comps = inr (File r m d) ->
  exists pm es,
    lookup root (removelast comps) = inr (Dir pm es) /\
    find_entry (last comps EmptyString) es = Some (File r m d).
Proof.
  intros Hne Hl.
  rewrite (removelast_last_split comps EmptyString Hne), lookup_app in Hl.
  destruct (lookup root (removelast comps)) as [e|[r0 m0 d0|pm es]];
    try discriminate.
  exists pm, es. split; [reflexivity|].
  cbn in Hl. destruct (find_entry (last comps EmptyString) es) as [child|]; [|discriminate].
  now inversion Hl.
Qed.

Lemma lookup_put_same (now : Z) (name : string) (v : node)
  (parent : list string) (root : node) (pm : Z) (es : list (string * node)) :
  lookup root parent = inr (Dir pm es) ->
  lookup (alter (put_entry now name v) parent root) (parent ++ [name]) = inr v.
Proof.
  intros Hparent. rewrite lookup_app.
  rewrite (lookup_alter_same _ _ _ _ Hparent).
  unfold put_entry. destruct (find_entry name es); cbn;
    now rewrite find_entry_set_same.
Qed.




(** ** Path strings *)

Lemma append_assoc (a b c : string) : ((a ++ b) ++ c = a ++ (b ++ c))%string.
Proof. induction a as [|x a IH]; cbn; [reflexivity | now rewrite IH]. Qed.

Lemma append_nil_r (a : string) : (a ++ EmptyString)%string = a.
Proof. induction a as [|x a IH]; cbn; [reflexivity | now rewrite IH]. Qed.

Lemma split_sep_nonempty (s : string) : split_sep s <> [].
Proof.
  induction s as [|c s IH]; cbn; [discriminate|].
  destruct (Ascii.eqb c sep); [discriminate|].
  destruct (split_sep s); [contradiction | discriminate].
Qed.

Lemma split_sep_app_sep (a b : string) :
  split_sep (a ++ String sep b) = split_sep a ++ split_sep b.
Proof.
  induction a as [|c a IH].
  - cbn. now rewrite Ascii.eqb_refl.
  - cbn [String.append split_sep]. rewrite IH.
    destruct (Ascii.eqb c sep); [reflexivity|].
    pose proof (split_sep_nonempty a).
    destruct (split_sep a) as [|w ws]; [contradiction | reflexivity].
Qed.

Lemma split_sep_no_sep (s : string) : has_sep s = false -> split_sep s = [s].
Proof.
  induction s as [|c s IH]; cbn; [reflexivity|].
  intros H. apply orb_false_iff in H. destruct H as [Hc Hs].
  rewrite Hc, (IH Hs). reflexivity.
Qed.

Lemma valid_name_inv (s : string) :
  valid_name s = true ->
  s <> EmptyString /\ s <> "." /\ s <> ".." /\ has_sep s = false.
Proof.
  unfold valid_name. rewrite !andb_true_iff, !negb_true_iff.
  intros [[[H1 H2] H3] H4].
  repeat split; try assumption; now apply String.eqb_neq.
Qed.

Lemma norm_step_valid (acc : list string) (c : string) :
  valid_name c = true -> norm_step acc c = acc ++ [c].
Proof.
  intros H. apply valid_name_inv in H. destruct H as (H1 & H2 & H3 & _).
  unfold norm_step.
  apply String.eqb_neq in H1, H2, H3. now rewrite H1, H2, H3.
Qed.

Lemma resolve_app_sep (a b : string) :
  resolve (a ++ String sep b) = fold_left norm_step (split_sep b) (resolve a).
Proof.
  unfold resolve, normalize. now rewrite split_sep_app_sep, fold_left_app.
Qed.

Lemma resolve_valid (s : string) : valid_name s = true -> resolve s = [s].
Proof.
  intros H. unfold resolve, normalize.
  rewrite split_sep_no_sep by (now apply valid_name_inv in H).
  cbn. now rewrite norm_step_valid.
Qed.

Lemma starts_with_sep_no_sep (s : string) :
  has_sep s = false -> starts_with_sep s = false.
Proof.
  destruct s as [|c s]; cbn; [reflexivity|].
  intros H. now apply orb_false_iff in H.
Qed.

Lemma ends_with_sep_inv (a : string) :
  ends_with_sep a = true -> exists a', a = (a' ++ String sep EmptyString)%string.
Proof.
  induction a as [|c a IH]; cbn; [discriminate|].
  destruct a as [|c' a].
  - intros H. apply Ascii.eqb_eq in H. subst c. now exists EmptyString.
  - intros H. destruct (IH H) as [a' Ha']. exists (String c a').
    cbn. now rewrite <- Ha'.
Qed.

Lemma ends_with_sep_app (a b : string) :
  b <> EmptyString -> ends_with_sep (a ++ b) = ends_with_sep b.
Proof.
  intros Hb. induction a as [|c a IH]; [reflexivity|].
  cbn [String.append ends_with_sep]. rewrite IH.
  destruct (a ++ b)%string eqn:E; [|reflexivity].
  destruct a; cbn in E; [contradiction | discriminate].
Qed.

Lemma ends_with_sep_no_sep (s : string) :
  has_sep s = false -> ends_with_sep s = false.
Proof.
  induction s as [|c s IH]; cbn; [reflexivity|].
  intros H. apply orb_false_iff in H. destruct H as [Hc Hs].
  destruct s; [exact Hc | now apply IH].
Qed.

(** [join] with a valid name appends one component. *)
Lemma join_cases (a f : string) :
  has_sep f = false ->
  (a = EmptyString /\ join a f = f) \/
  (exists a', a = (a' ++ String sep EmptyString)%string /\ join a f = (a' ++ String sep f)%string) \/
  (a <> EmptyString /\ ends_with_sep a = false /\ join a f = (a ++ String sep f)%string).
Proof.
  intros Hf. unfold join. rewrite (starts_with_sep_no_sep f Hf).
  destruct (String.eqb_spec a EmptyString) as [->|Ha]; [left; now split|]. cbn.
  destruct (ends_with_sep a) eqn:He.
  - right. left. destruct (ends_with_sep_inv a He) as [a' ->].
    exists a'. split; [reflexivity|]. now rewrite append_assoc.
  - right. right. now repeat split.
Qed.

Lemma resolve_join (a f : string) :
  valid_name f = true -> resolve (join a f) = resolve a ++ [f].
Proof.
  intros Hf. pose proof (valid_name_inv f Hf) as (_ & _ & _ & Hsep).
  destruct (join_cases a f Hsep) as [[-> ->]|[(a' & -> & ->)|(_ & _ & ->)]].
  - now rewrite resolve_valid.
  - rewrite !resolve_app_sep, split_sep_no_sep by assumption.
    cbn. now rewrite norm_step_valid.
  - rewrite resolve_app_sep, split_sep_no_sep by assumption.
    cbn. now rewrite norm_step_valid.
Qed.

Lemma join_nonempty (a f : string) :
  valid_name f = true -> String.eqb (join a f) EmptyString = false.
Proof.
  intros Hf. pose proof (valid_name_inv f Hf) as (Hne & _ & _ & Hsep).
  apply String.eqb_neq.
  destruct (join_cases a f Hsep) as [[-> ->]|[(a' & -> & ->)|(_ & _ & ->)]];
    [assumption | |]; intros E.
  - destruct a'; discriminate.
  - destruct a; discriminate.
Qed.

Lemma join_no_trailing_sep (a f : string) :
  valid_name f = true -> ends_with_sep (join a f) = false.
Proof.
  intros Hf. pose proof (valid_name_inv f Hf) as (Hne & _ & _ & Hsep).
  assert (Hf' : ends_with_sep (String sep f) = false).
  { cbn. destruct f; [contradiction|]. now apply (ends_with_sep_no_sep (String a0 f)). }
  destruct (join_cases a f Hsep) as [[-> ->]|[(a' & -> & ->)|(_ & _ & ->)]].
  - now apply ends_with_sep_no_sep.
  - now rewrite ends_with_sep_app.
  - now rewrite ends_with_sep_app.
Qed.

Lemma resolve_path_str (names : list string) :
  forall top,
    forallb valid_name names = true ->
    resolve (path_str top names) = resolve top ++ names.
Proof.
  induction names as [|c names IH]; intros top H; cbn in *.
  - now rewrite app_nil_r.
  - apply andb_prop in H. destruct H as [Hc Hrest].
    rewrite IH by assumption. rewrite resolve_join by assumption.
    now rewrite <- app_assoc.
Qed.

(** Below a top that is itself a plain name, the walk's path strings are the
    top followed by [/name] for every name. *)
Lemma path_str_plain (names : list string) :
  forall top,
    top <> EmptyString -> ends_with_sep top = false ->
    forallb valid_name names = true ->
    path_str top names = (top ++ tail_str names)%string.
Proof.
  induction names as [|c names IH]; intros top Hne Hend H; cbn in *.
  - now rewrite append_nil_r.
  - apply andb_prop in H. destruct H as [Hc Hrest].
    pose proof (valid_name_inv c Hc) as (Hcne & _ & _ & Hsep).
    destruct (join_cases top c Hsep) as [[-> _]|[(a' & -> & _)|(_ & _ & Hj)]].
    + contradiction.
    + rewrite ends_with_sep_app in Hend by discriminate. discriminate.
    + rewrite IH; [| | now apply join_no_trailing_sep | assumption].
      * rewrite Hj. rewrite append_assoc. reflexivity.
      * apply String.eqb_neq. now apply join_nonempty.
Qed.

(** *** [str.replace] on walk paths *)

Lemma prefix_app_same (old rest : string) : String.prefix old (old ++ rest) = true.
Proof.
  induction old as [|c old IH]; cbn; [now destruct rest|].
  destruct (ascii_dec c c); [exact IH | contradiction].
Qed.

Lemma replace_from_skip (old new x : string) :
  forall rest,
    replace_from old new (String.length x) (x ++ rest) = replace_from old new O rest.
Proof.
  induction x as [|c x IH]; intros rest; cbn.
  - now destruct rest.
  - apply IH.
Qed.

Lemma replace_from_no_occurrence (old new s : string) :
  occurs old s = false -> replace_from old new O s = s.
Proof.
  induction s as [|c s IH]; cbn; [reflexivity|].
  intros H. apply orb_false_iff in H. destruct H as [Hp Hs].
  change (match old with
          | EmptyString => true
          | String a s1' =>
              if ascii_dec a c then String.prefix s1' s else false
          end) with (String.prefix old (String c s)) in *.
  rewrite Hp. now rewrite IH.
Qed.

(** Where [old] is the head of the string and occurs nowhere else, the
    replacement swaps the head. *)
Lemma replace_head (old new rest : string) :
  old <> EmptyString -> occurs old rest = false ->
  replace (old ++ rest) old new = (new ++ rest)%string.
Proof.
  intros Hne Hocc. unfold replace.
  destruct old as [|c old]; [contradiction|].
  cbn. destruct (ascii_dec c c); [|contradiction].
  rewrite prefix_app_same, replace_from_skip.
  now rewrite replace_from_no_occurrence.
Qed.

Lemma prefix_app_no_sep (x y : string) :
  (y = EmptyString \/ starts_with_sep y = true) ->
  forall old,
    has_sep old = false ->
    String.prefix old x = false -> String.prefix old (x ++ y) = false.
Proof.
  intros Hy. induction x as [|a x IH]; intros old Hsep Hp.
  - destruct old as [|o old]; [destruct y; discriminate|].
    cbn in *. destruct Hy as [->|Hy]; [reflexivity|].
    destruct y as [|b y]; [reflexivity|]. cbn in Hy.
    apply Ascii.eqb_eq in Hy. subst b.
    apply orb_false_iff in Hsep. destruct Hsep as [Ho _].
    cbn. destruct (ascii_dec o sep) as [->|]; [|reflexivity].
    now rewrite Ascii.eqb_refl in Ho.
  - destruct old as [|o old]; [discriminate|].
    cbn in *. apply orb_false_iff in Hsep. destruct Hsep as [_ Hsep].
    destruct (ascii_dec o a); [now apply IH | reflexivity].
Qed.

Lemma occurs_app_no_sep (old x y : string) :
  (y = EmptyString \/ starts_with_sep y = true) ->
  has_sep old = false ->
  occurs old x = false -> occurs old y = false -> occurs old (x ++ y) = false.
Proof.
  intros Hy Hsep. induction x as [|a x IH]; intros Hx Hocc; [exact Hocc|].
  cbn [occurs] in Hx. apply orb_false_iff in Hx. destruct Hx as [Hp Hx].
  change (String a x ++ y)%string with (String a (x ++ y)).
  cbn [occurs]. apply orb_false_iff. split; [|now apply IH].
  change (String a (x ++ y)) with (String a x ++ y)%string.
  now apply prefix_app_no_sep.
Qed.

Lemma occurs_tail_str (old : string) (names : list string) :
  old <> EmptyString -> has_sep old = false ->
  forallb (fun c => negb (occurs old c)) names = true ->
  occurs old (tail_str names) = false.
Proof.
  intros Hne Hsep. induction names as [|c names IH]; intros H; cbn [tail_str].
  - destruct old; [contradiction | reflexivity].
  - cbn in H. apply andb_prop in H. destruct H as [Hc Hrest].
    apply negb_true_iff in Hc.
    cbn [occurs]. apply orb_false_iff. split.
    + destruct old as [|o old]; [contradiction|]. cbn in *.
      apply orb_false_iff in Hsep. destruct Hsep as [Ho _].
      destruct (ascii_dec o sep) as [->|]; [|reflexivity].
      now rewrite Ascii.eqb_refl in Ho.
    + apply occurs_app_no_sep; [| assumption | assumption | now apply IH].
      destruct names; [now left | right; cbn; apply Ascii.eqb_refl].
Qed.

(** The substitution [root.replace(old, new)] of the script maps the walk
    path of a directory below [old] to the walk path of the directory of the
    same names below [new], provided no name on the way contains [old]. *)
Lemma replace_path_str (old new : string) (names : list string) :
  valid_name old = true -> valid_name new = true ->
  forallb valid_name names = true ->
  forallb (fun c => negb (occurs old c)) names = true ->
  replace (path_str old names) old new = path_str new names.
Proof.
  intros Hold Hnew Hvalid Hocc.
  pose proof (valid_name_inv old Hold) as (Ho1 & _ & _ & Ho2).
  pose proof (valid_name_inv new Hnew) as (Hn1 & _ & _ & Hn2).
  rewrite !path_str_plain;
    try assumption; try (now apply ends_with_sep_no_sep).
  apply replace_head; [assumption|]. now apply occurs_tail_str.
Qed.

(** *** [basename], [dirname], [relpath] *)

Lemma rsplit_sep_no_sep (f : string) : has_sep f = false -> rsplit_sep f = None.
Proof.
  induction f as [|c f IH]; cbn; [reflexivity|].
  intros H. apply orb_false_iff in H. destruct H as [Hc Hf].
  now rewrite (IH Hf), Hc.
Qed.

Lemma rsplit_sep_app (a f : string) :
  has_sep f = false ->
  rsplit_sep (a ++ String sep f) = Some ((a ++ String sep EmptyString)%string, f).
Proof.
  intros Hf. induction a as [|c a IH]; cbn.
  - rewrite (rsplit_sep_no_sep f Hf). now rewrite Ascii.eqb_refl.
  - now rewrite IH.
Qed.

Lemma basename_join (a f : string) : valid_name f = true -> basename (join a f) = f.
Proof.
  intros Hf. pose proof (valid_name_inv f Hf) as (_ & _ & _ & Hsep).
  unfold basename.
  destruct (join_cases a f Hsep) as [[-> ->]|[(a' & -> & ->)|(_ & _ & ->)]].
  - now rewrite rsplit_sep_no_sep.
  - now rewrite rsplit_sep_app.
  - now rewrite rsplit_sep_app.
Qed.

Lemma rstrip_sep_app (a : string) :
  ends_with_sep a = false -> rstrip_sep (a ++ String sep EmptyString) = a.
Proof.
  induction a as [|c a IH]; intros H.
  - cbn. now rewrite Ascii.eqb_refl.
  - cbn [String.append rstrip_sep].
    destruct a as [|c' a].
    + cbn in *. rewrite Ascii.eqb_refl. now rewrite H.
    + rewrite IH by exact H. reflexivity.
Qed.

Lemma all_sep_app (a : string) :
  a <> EmptyString -> ends_with_sep a = false -> all_sep (a ++ String sep EmptyString) = false.
Proof.
  induction a as [|c a IH]; intros Hne H; [contradiction|].
  cbn [String.append all_sep].
  destruct a as [|c' a].
  - cbn in *. now rewrite H.
  - rewrite IH; [apply andb_false_r | discriminate | exact H].
Qed.

Lemma dirname_join (a f : string) :
  valid_name f = true -> a <> EmptyString -> ends_with_sep a = false ->
  dirname (join a f) = a.
Proof.
  intros Hf Hne Hend. pose proof (valid_name_inv f Hf) as (_ & _ & _ & Hsep).
  unfold dirname.
  destruct (join_cases a f Hsep) as [[-> _]|[(a' & -> & _)|(_ & _ & ->)]].
  - contradiction.
  - rewrite ends_with_sep_app in Hend by discriminate. discriminate.
  - rewrite rsplit_sep_app by assumption.
    rewrite all_sep_app by assumption. now apply rstrip_sep_app.
Qed.

Lemma common_prefix_len_app (l rest : list string) :
  common_prefix_len l (l ++ rest) = List.length l.
Proof.
  induction l as [|x l IH]; cbn; [reflexivity|].
  now rewrite String.eqb_refl, IH.
Qed.

Lemma relpath_below_start (path start : string) (rest : list string) :
  rest <> [] ->
  resolve path = resolve start ++ rest ->
  relpath path start = join_all rest.
Proof.
  intros Hne Hres. unfold relpath.
  rewrite Hres, common_prefix_len_app, Nat.sub_diag, skipn_app, skipn_all.
  rewrite Nat.sub_diag. cbn. destruct rest; [contradiction | reflexivity].
Qed.

Lemma tail_str_join_all (names : list string) :
  names <> [] -> tail_str names = String sep (join_all names).
Proof.
  induction names as [|c names IH]; intros Hne; [contradiction|].
  cbn [tail_str join_all]. destruct names as [|c' names].
  - cbn. now rewrite append_nil_r.
  - now rewrite IH.
Qed.

Lemma path_str_app (a b : list string) (top : string) :
  path_str top (a ++ b) = path_str (path_str top a) b.
Proof. revert top. induction a as [|c a IH]; intros top; cbn; [reflexivity | apply IH]. Qed.

Lemma path_str_shape (names : list string) :
  forall top,
    top <> EmptyString -> ends_with_sep top = false ->
    forallb valid_name names = true ->
    path_str top names <> EmptyString /\ ends_with_sep (path_str top names) = false.
Proof.
  induction names as [|c names IH]; intros top Hne Hend H; cbn in *.
  - now split.
  - apply andb_prop in H. destruct H as [Hc Hrest].
    apply IH; [| now apply join_no_trailing_sep | assumption].
    apply String.eqb_neq. now apply join_nonempty.
Qed.

Lemma join_plain_left (a b : string) :
  a <> EmptyString -> ends_with_sep a = false -> starts_with_sep b = false ->
  join a b = (a ++ String sep b)%string.
Proof.
  intros Ha Hend Hb. unfold join. rewrite Hb, Hend.
  apply String.eqb_neq in Ha. now rewrite Ha.
Qed.

Lemma starts_with_sep_join_all (names : list string) :
  names <> [] -> forallb valid_name names = true ->
  starts_with_sep (join_all names) = false.
Proof.
  destruct names as [|c names]; [contradiction|]. intros _ H.
  cbn in H. apply andb_prop in H. destruct H as [Hc _].
  pose proof (valid_name_inv c Hc) as (Hne & _ & _ & Hsep).
  pose proof (starts_with_sep_no_sep c Hsep) as Hstart.
  cbn [join_all]. destruct names; [assumption|].
  destruct c; [contradiction | exact Hstart].
Qed.

(** The replica path the recopy pass computes with [os.path.relpath] is the
    path of the same names below the replica root. *)
Lemma recopy_target (source_path replica_path : string) (names : list string)
  (file : string) :
  valid_name source_path = true -> valid_name replica_path = true ->
  forallb valid_name names = true -> valid_name file = true ->
  join replica_path (relpath (join (path_str source_path names) file) source_path)
  = join (path_str replica_path names) file.
Proof.
  intros Hs Hr Hnames Hfile.
  pose proof (valid_name_inv replica_path Hr) as (Hr1 & _ & _ & Hr2).
  assert (Hall : forallb valid_name (names ++ [file]) = true)
    by (rewrite forallb_app, Hnames; cbn; now rewrite Hfile).
  assert (Hne : names ++ [file] <> []) by now destruct names.
  rewrite (relpath_below_start _ _ (names ++ [file]) Hne).
  - rewrite join_plain_left;
      [| assumption | now apply ends_with_sep_no_sep
       | now apply starts_with_sep_join_all].
    rewrite <- tail_str_join_all by assumption.
    rewrite <- path_str_plain;
      [| assumption | now apply ends_with_sep_no_sep | assumption].
    now rewrite path_str_app.
  - rewrite resolve_join, resolve_path_str by assumption.
    now rewrite <- app_assoc.
Qed.

(** ** Reasoning about what a call does to the disk *)

Section Respects.

Variable good : node -> Prop.
Variable R : node -> node -> Prop.
Hypothesis R_refl : forall d, R d d.
Hypothesis R_trans : forall d1 d2 d3, R d1 d2 -> R d2 d3 -> R d1 d3.
Hypothesis good_step : forall d d', good d -> R d d' -> good d'.

Lemma reads_respects {A} (m : M A) : reads m -> respects good R m.
Proof. intros H w _. destruct (H w) as [-> _]. apply R_refl. Qed.

Lemma respects_ret {A} (a : A) : respects good R (ret a).
Proof. intros w _. apply R_refl. Qed.

Lemma respects_raise {A} (e : exn) : respects good R (@raise A e).
Proof. intros w _. apply R_refl. Qed.

Lemma respects_bind {A B} (m : M A) (k : A -> M B) :
  respects good R m -> (forall a, respects good R (k a)) -> respects good R (bind m k).
Proof.
  intros Hm Hk w Hgood. unfold bind.
  specialize (Hm w Hgood). destruct (m w) as [a w1|e w1]; cbn in *.
  - eapply R_trans; [exact Hm|]. apply Hk. eapply good_step; eassumption.
  - exact Hm.
Qed.

Lemma respects_get_fs {B} (k : node -> M B) :
  (forall disk, good disk -> respects good R (k disk)) -> respects good R (bind get_fs k).
Proof. intros Hk w Hgood. unfold bind, get_fs. now apply Hk. Qed.

Lemma respects_for_each {X A} (body : A -> X -> M A) (xs : list X) :
  (forall acc x, In x xs -> respects good R (body acc x)) ->
  forall acc, respects good R (for_each xs acc body).
Proof.
  induction xs as [|x xs IH]; intros Hbody acc; cbn.
  - apply respects_ret.
  - apply respects_bind; [apply Hbody; now left|].
    intros acc'. apply IH. intros acc0 y Hy. apply Hbody. now right.
Qed.

End Respects.

(** The calls that only look. *)

Lemma reads_ret {A} (a : A) : reads (ret a).
Proof. now intros w. Qed.

Lemma reads_raise {A} (e : exn) : reads (@raise A e).
Proof. now intros w. Qed.

Lemma reads_bind {A B} (m : M A) (k : A -> M B) :
  reads m -> (forall a, reads (k a)) -> reads (bind m k).
Proof.
  intros Hm Hk w. unfold bind. specialize (Hm w).
  destruct (m w) as [a w1|e w1]; cbn in *; [|exact Hm].
  destruct Hm as [Hfs Hact]. destruct (Hk a w1) as [-> ->]. now split.
Qed.

Lemma reads_lift {A} (r : exn + A) : reads (lift r).
Proof. destruct r; now intros w. Qed.

Lemma reads_if {A} (b : bool) (m1 m2 : M A) :
  reads m1 -> reads m2 -> reads (if b then m1 else m2).
Proof. now destruct b. Qed.

Lemma reads_for_each {X A} (body : A -> X -> M A) (xs : list X) :
  (forall acc x, reads (body acc x)) -> forall acc, reads (for_each xs acc body).
Proof.
  intros Hbody. induction xs as [|x xs IH]; intros acc; cbn.
  - apply reads_ret.
  - apply reads_bind; [apply Hbody | intros acc'; apply IH].
Qed.

Lemma reads_get_fs : reads get_fs.
Proof. now intros w. Qed.

Lemma reads_time_now : reads time_now.
Proof. now intros w. Qed.

Lemma reads_logging_info (msg : message) : reads (logging_info msg).
Proof. now intros w. Qed.

Lemma reads_print (msg : message) : reads (print msg).
Proof. now intros w. Qed.

Lemma reads_logging_debug (msg : message) : reads (logging_debug msg).
Proof. now intros w. Qed.

Lemma reads_time_sleep (interval : Z) : reads (time_sleep interval).
Proof. now intros w. Qed.

Create HintDb reads discriminated.

#[local] Hint Resolve reads_ret reads_raise reads_lift reads_get_fs
  reads_time_now reads_logging_info reads_print
  reads_logging_debug reads_time_sleep : reads.

Ltac reads_tac :=
  repeat first
    [ progress intros
    | solve [auto with reads]
    | apply reads_bind
    | apply reads_if
    | apply reads_for_each
    | match goal with
      | |- reads (match ?x with _ => _ end) => destruct x
      | |- reads (let '(_, _) := ?x in _) => destruct x
      end ].

Lemma reads_path_exists (p : string) : reads (path_exists p).
Proof. unfold path_exists. reads_tac. Qed.

Lemma reads_isfile (p : string) : reads (isfile p).
Proof. unfold isfile. reads_tac. Qed.

Lemma reads_isdir (p : string) : reads (isdir p).
Proof. unfold isdir. reads_tac. Qed.

Lemma reads_st_mtime (p : string) : reads (st_mtime p).
Proof. unfold st_mtime. reads_tac. Qed.

Lemma reads_listdir (p : string) : reads (listdir p).
Proof. unfold listdir. reads_tac. Qed.

Lemma reads_open_rb (p : string) : reads (open_rb p).
Proof. unfold open_rb. reads_tac. Qed.

Lemma reads_samefile (src dst : string) : reads (samefile src dst).
Proof. unfold samefile. reads_tac. Qed.

#[local] Hint Resolve reads_path_exists reads_isfile reads_isdir reads_st_mtime
  reads_listdir reads_open_rb reads_samefile : reads.

Lemma reads_hash_file (root : string) (hash : list byte) (file : string) :
  reads (hash_file root hash file).
Proof. unfold hash_file. reads_tac. Qed.

Lemma reads_hash_dir (hash : list byte) (item : walk_item) :
  reads (hash_dir hash item).
Proof.
  destruct item as [[root dirs] files]. unfold hash_dir.
  apply reads_for_each. intros. apply reads_hash_file.
Qed.

Lemma reads_get_folder_hash (folder : string) : reads (get_folder_hash folder).
Proof.
  unfold get_folder_hash. apply reads_bind; [auto with reads|]. intros disk.
  apply reads_bind; [|auto with reads].
  apply reads_for_each. intros. apply reads_hash_dir.
Qed.

Lemma reads_check_source_entry (source_path replica_path : string)
  (ev : events) (filename : string) :
  reads (check_source_entry source_path replica_path ev filename).
Proof. unfold check_source_entry. reads_tac. Qed.

Lemma reads_check_replica_entry (source_path replica_path : string)
  (ev : events) (filename : string) :
  reads (check_replica_entry source_path replica_path ev filename).
Proof. unfold check_replica_entry. reads_tac. Qed.

Lemma reads_scan_events (source_path replica_path : string) :
  reads (scan_events source_path replica_path).
Proof.
  unfold scan_events.
  apply reads_bind; [apply reads_listdir|]. intros names.
  apply reads_bind.
  { apply reads_for_each. intros. apply reads_check_source_entry. }
  intros ev. apply reads_bind; [apply reads_listdir|]. intros names'.
  apply reads_for_each. intros. apply reads_check_replica_entry.
Qed.

#[local] Hint Resolve reads_hash_file reads_hash_dir reads_get_folder_hash
  reads_check_source_entry reads_check_replica_entry reads_scan_events : reads.

(** ** Trees *)

Lemma node_induction (P : node -> Prop) :
  (forall r m d, P (File r m d)) ->
  (forall m es, Forall (fun e => P (snd e)) es -> P (Dir m es)) ->
  forall n, P n.
Proof.
  intros P_file P_dir. fix IH 1. intros [r m d|m es].
  - apply P_file.
  - apply P_dir. induction es as [|e es IHes]; constructor.
    + apply IH.
    + exact IHes.
Qed.

Lemma walk_node_dir (top : string) (m : Z) (es : list (string * node)) :
  walk_node top (Dir m es)
  = (top, dir_names es, file_names es)
      :: flat_map (fun e => walk_node (join top (fst e)) (snd e)) es.
Proof.
  cbn [walk_node]. f_equal.
  induction es as [|[name child] es IH]; cbn; [reflexivity|]. now rewrite IH.
Qed.

Lemma well_named_dir (ok : string -> bool) (m : Z) (es : list (string * node)) :
  well_named ok (Dir m es)
  = (no_repeat (map fst es)
     && forallb (fun e => ok (fst e) && well_named ok (snd e)) es)%bool.
Proof.
  cbn [well_named]. f_equal.
  induction es as [|[name child] es IH]; cbn; [reflexivity|]. now rewrite IH.
Qed.

Lemma name_in_iff (x : string) (names : list string) :
  name_in x names = true <-> In x names.
Proof.
  unfold name_in. rewrite existsb_exists. split.
  - intros (y & Hy & E). apply String.eqb_eq in E. now subst.
  - intros H. exists x. split; [assumption | apply String.eqb_refl].
Qed.

Lemma find_entry_in (k : string) (c : node) (es : list (string * node)) :
  find_entry k es = Some c -> In (k, c) es.
Proof.
  induction es as [|[k' c'] es IH]; cbn; [discriminate|].
  destruct (String.eqb_spec k' k) as [->|Hne].
  - intros E. inversion E. now left.
  - intros E. right. now apply IH.
Qed.

Lemma find_entry_none (k : string) (es : list (string * node)) :
  find_entry k es = None <-> ~ In k (map fst es).
Proof.
  induction es as [|[k' c'] es IH]; cbn; [tauto|].
  destruct (String.eqb_spec k' k) as [->|Hne].
  - split; [discriminate | intros H; exfalso; apply H; now left].
  - rewrite IH. tauto.
Qed.

Lemma in_find_entry (k : string) (c : node) (es : list (string * node)) :
  no_repeat (map fst es) = true -> In (k, c) es -> find_entry k es = Some c.
Proof.
  induction es as [|[k' c'] es IH]; cbn; [contradiction|].
  intros Hnr Hin. apply andb_prop in Hnr. destruct Hnr as [Hfresh Hnr].
  apply negb_true_iff in Hfresh.
  destruct Hin as [E|Hin].
  - inversion E. subst. now rewrite String.eqb_refl.
  - destruct (String.eqb_spec k' k) as [->|Hne]; [|now apply IH].
    exfalso. assert (Hk : name_in k (map fst es) = true).
    { apply name_in_iff. apply in_map_iff. now exists (k, c). }
    congruence.
Qed.

Lemma well_named_child (ok : string -> bool) (m : Z) (es : list (string * node))
  (k : string) (c : node) :
  well_named ok (Dir m es) = true -> find_entry k es = Some c ->
  ok k = true /\ well_named ok c = true.
Proof.
  rewrite well_named_dir. intros H Hfind.
  apply andb_prop in H. destruct H as [_ Hall].
  rewrite forallb_forall in Hall.
  specialize (Hall (k, c) (find_entry_in _ _ _ Hfind)). cbn in Hall.
  now apply andb_prop in Hall.
Qed.

Lemma well_named_lookup (ok : string -> bool) (p : list string) :
  forall n n',
    well_named ok n = true -> lookup n p = inr n' ->
    forallb ok p = true /\ well_named ok n' = true.
Proof.
  induction p as [|c p IH]; intros n n' Hwn Hl; cbn in *.
  - inversion Hl. subst. now split.
  - destruct n as [r m d|m es]; [discriminate|].
    destruct (find_entry c es) as [child|] eqn:Hc; [|discriminate].
    destruct (well_named_child ok m es c child Hwn Hc) as [Hok Hchild].
    destruct (IH child n' Hchild Hl) as [Hp Hn'].
    now rewrite Hok, Hp.
Qed.

Lemma file_names_in (ok : string -> bool) (m : Z) (es : list (string * node))
  (f : string) :
  well_named ok (Dir m es) = true -> In f (file_names es) ->
  ok f = true /\
  exists r mt d, find_entry f es = Some (File r mt d).
Proof.
  intros Hwn Hin. unfold file_names in Hin.
  apply in_map_iff in Hin. destruct Hin as ([k c] & Hk & Hin). cbn in Hk. subst k.
  apply filter_In in Hin. destruct Hin as [Hin Hfile]. cbn in Hfile.
  pose proof Hwn as Hwn'. rewrite well_named_dir in Hwn'.
  apply andb_prop in Hwn'. destruct Hwn' as [Hnr _].
  pose proof (in_find_entry f c es Hnr Hin) as Hfind.
  destruct (well_named_child ok m es f c Hwn Hfind) as [Hok _].
  split; [exact Hok|].
  destruct c as [r mt d|mt es']; [|discriminate]. now exists r, mt, d.
Qed.

(** Every item of a walk is the listing of a directory of the tree, under
    the path string built from the names that lead to it. *)
Lemma walk_node_sound (ok : string -> bool) (n : node) :
  forall top item,
    well_named ok n = true ->
    In item (walk_node top n) ->
    exists names m es,
      lookup n names = inr (Dir m es) /\
      item = (path_str top names, dir_names es, file_names es).
Proof.
  induction n as [r m d|m es IH] using node_induction; intros top item Hwn Hin.
  - contradiction.
  - rewrite walk_node_dir in Hin. destruct Hin as [<-|Hin].
    + now exists [], m, es.
    + apply in_flat_map in Hin. destruct Hin as ([k c] & Hkc & Hin). cbn in Hin.
      rewrite Forall_forall in IH.
      pose proof Hwn as Hwn'. rewrite well_named_dir in Hwn'.
      apply andb_prop in Hwn'. destruct Hwn' as [Hnr _].
      pose proof (in_find_entry k c es Hnr Hkc) as Hfind.
      destruct (well_named_child ok m es k c Hwn Hfind) as [_ Hc].
      destruct (IH (k, c) Hkc (join top k) item Hc Hin) as (names & m' & es' & Hl & ->).
      exists (k :: names), m', es'. split; [|reflexivity].
      cbn. now rewrite Hfind.
Qed.

Lemma walk_node_complete (names : list string) :
  forall n top m es,
    lookup n names = inr (Dir m es) ->
    In (path_str top names, dir_names es, file_names es) (walk_node top n).
Proof.
  induction names as [|k names IH]; intros n top m es Hl; cbn in Hl.
  - inversion Hl. subst. rewrite walk_node_dir. now left.
  - destruct n as [r0 m0 d0|m0 es0]; [discriminate|].
    destruct (find_entry k es0) as [c|] eqn:Hfind; [|discriminate].
    rewrite walk_node_dir. right. apply in_flat_map.
    exists (k, c). split; [now apply find_entry_in|].
    cbn. now apply (IH c (join top k) m es).
Qed.

(** ** Updates and well-named trees *)

Lemma set_entry_names_present (c : string) (v child : node)
  (es : list (string * node)) :
  find_entry c es = Some child -> map fst (set_entry c v es) = map fst es.
Proof.
  induction es as [|[k m] es IH]; cbn; [discriminate|].
  destruct (String.eqb k c); cbn; [reflexivity|].
  intros H. now rewrite IH.
Qed.

Lemma set_entry_names_absent (c : string) (v : node) (es : list (string * node)) :
  find_entry c es = None -> map fst (set_entry c v es) = map fst es ++ [c].
Proof.
  induction es as [|[k m] es IH]; cbn; [reflexivity|].
  destruct (String.eqb k c); cbn; [discriminate|].
  intros H. now rewrite IH.
Qed.

Lemma no_repeat_snoc (names : list string) (c : string) :
  no_repeat names = true -> ~ In c names -> no_repeat (names ++ [c]) = true.
Proof.
  induction names as [|x names IH]; cbn; [reflexivity|].
  intros H Hnot. apply andb_prop in H. destruct H as [Hx Hrest].
  apply andb_true_intro. split; [|apply IH; tauto].
  apply negb_true_iff. apply negb_true_iff in Hx.
  destruct (name_in x (names ++ [c])) eqn:E; [|reflexivity].
  apply name_in_iff in E. apply in_app_or in E. destruct E as [E|[E|[]]].
  - apply name_in_iff in E. congruence.
  - subst. exfalso. apply Hnot. now left.
Qed.

Lemma well_named_set (ok : string -> bool) (m : Z) (es : list (string * node))
  (c : string) (v : node) :
  well_named ok (Dir m es) = true -> ok c = true -> well_named ok v = true ->
  forall m', well_named ok (Dir m' (set_entry c v es)) = true.
Proof.
  intros Hwn Hc Hv m'. rewrite well_named_dir in *.
  apply andb_prop in Hwn. destruct Hwn as [Hnr Hall].
  apply andb_true_intro. split.
  - destruct (find_entry c es) as [child|] eqn:Hfind.
    + now rewrite (set_entry_names_present c v child es Hfind).
    + rewrite (set_entry_names_absent c v es Hfind).
      apply no_repeat_snoc; [assumption | now apply find_entry_none].
  - clear Hnr. induction es as [|[k n] es IH]; cbn in *.
    + now rewrite Hc, Hv.
    + apply andb_prop in Hall. destruct Hall as [Hkn Hrest].
      destruct (String.eqb_spec k c) as [->|Hne]; cbn.
      * now rewrite Hc, Hv.
      * now rewrite Hkn, IH.
Qed.

Lemma no_repeat_del (c : string) (es : list (string * node)) :
  no_repeat (map fst es) = true -> no_repeat (map fst (del_entry c es)) = true.
Proof.
  induction es as [|[k n] es IH]; cbn; [reflexivity|].
  intros H. apply andb_prop in H. destruct H as [Hk Hrest].
  destruct (String.eqb k c); cbn; [assumption|].
  rewrite IH by assumption. rewrite andb_true_r.
  apply negb_true_iff. apply negb_true_iff in Hk.
  destruct (name_in k (map fst (del_entry c es))) eqn:E; [|reflexivity].
  apply name_in_iff in E. rewrite <- Hk. symmetry. apply name_in_iff.
  clear - E. induction es as [|[k' n'] es IH]; cbn in *; [contradiction|].
  destruct (String.eqb k' c); cbn in *; [now right|].
  destruct E as [E|E]; [now left | right; now apply IH].
Qed.

Lemma well_named_del (ok : string -> bool) (m : Z) (es : list (string * node))
  (c : string) :
  well_named ok (Dir m es) = true ->
  forall m', well_named ok (Dir m' (del_entry c es)) = true.
Proof.
  intros Hwn m'. rewrite well_named_dir in *.
  apply andb_prop in Hwn. destruct Hwn as [Hnr Hall].
  apply andb_true_intro. split; [now apply no_repeat_del|].
  clear Hnr. induction es as [|[k n] es IH]; cbn in *; [reflexivity|].
  apply andb_prop in Hall. destruct Hall as [Hkn Hrest].
  destruct (String.eqb k c); cbn; [assumption|]. now rewrite Hkn, IH.
Qed.

Lemma keeps_names_put (ok : string -> bool) (now : Z) (name : string) (v : node) :
  ok name = true -> well_named ok v = true ->
  keeps_names ok (put_entry now name v).
Proof.
  intros Hname Hv [r m d|m es] Hwn; [exact Hwn|].
  unfold put_entry. destruct (find_entry name es); now apply well_named_set with (m := m).
Qed.

Lemma keeps_names_drop (ok : string -> bool) (now : Z) (name : string) :
  keeps_names ok (drop_entry now name).
Proof.
  intros [r m d|m es] Hwn; [exact Hwn|].
  unfold drop_entry. now apply well_named_del with (m := m).
Qed.

Lemma well_named_alter (ok : string -> bool) (f : node -> node) (p : list string) :
  keeps_names ok f ->
  forall n, well_named ok n = true -> well_named ok (alter f p n) = true.
Proof.
  intros Hf. induction p as [|c p IH]; intros n Hwn; cbn.
  - now apply Hf.
  - destruct n as [r m d|m es]; [exact Hwn|].
    destruct (find_entry c es) as [child|] eqn:Hc; [|exact Hwn].
    destruct (well_named_child ok m es c child Hwn Hc) as [Hok Hchild].
    apply well_named_set with (m := m); [assumption | assumption |].
    now apply IH.
Qed.

(** ** Changes below the replica root *)

Section ChangedBelow.

Variable ok : string -> bool.
Variable top : string.

Lemma changed_below_refl (d : node) : changed_below ok top d d.
Proof. split; [reflexivity | tauto]. Qed.

Lemma changed_below_trans (d1 d2 d3 : node) :
  changed_below ok top d1 d2 -> changed_below ok top d2 d3 ->
  changed_below ok top d1 d3.
Proof.
  intros [H1 H1'] [H2 H2']. split.
  - intros c p Hc. now rewrite H2, H1.
  - tauto.
Qed.

Lemma changed_below_alter (f : node -> node) (q : list string) (d : node) :
  keeps_names ok f -> changed_below ok top d (alter f (top :: q) d).
Proof.
  intros Hf. split.
  - intros c p Hc. apply lookup_alter_apart. congruence.
  - unfold subtree_ok. cbn.
    destruct d as [r m x|m es]; [tauto|].
    destruct (find_entry top es) as [child|] eqn:Hc; cbn.
    + rewrite find_entry_set_same. now apply well_named_alter.
    + now rewrite Hc.
Qed.

Lemma changed_below_create (now : Z) (d : node) :
  changed_below ok top d (put_entry now top (Dir now []) d).
Proof.
  split.
  - intros c p Hc. destruct d as [r m x|m es]; [reflexivity|].
    unfold put_entry. cbn.
    destruct (find_entry top es); cbn; now rewrite find_entry_set_other.
  - intros _. unfold subtree_ok. destruct d as [r m x|m es]; [reflexivity|].
    unfold put_entry. cbn.
    destruct (find_entry top es); cbn; now rewrite find_entry_set_same.
Qed.

End ChangedBelow.

(** ** The mutating calls, on paths below the replica root *)

Section ReplicaCalls.

Variables source_path replica_path : string.
Hypothesis roots : plain_roots source_path replica_path = true.

Let ok := tidy_name source_path replica_path.
Let good := fun d => tidy_disk source_path replica_path d = true.
Let R := changed_below ok replica_path.

Lemma roots_inv :
  valid_name source_path = true /\ valid_name replica_path = true /\
  source_path <> replica_path.
Proof.
  unfold plain_roots in roots. rewrite !andb_true_iff, negb_true_iff in roots.
  destruct roots as [[H1 H2] H3]. now apply String.eqb_neq in H3.
Qed.

Lemma ok_inv (c : string) :
  ok c = true ->
  valid_name c = true /\ occurs source_path c = false /\
  occurs replica_path c = false.
Proof.
  unfold ok, tidy_name. rewrite !andb_true_iff, !negb_true_iff. tauto.
Qed.

Lemma ok_all_inv (names : list string) :
  forallb ok names = true ->
  forallb valid_name names = true /\
  forallb (fun c => negb (occurs source_path c)) names = true /\
  forallb (fun c => negb (occurs replica_path c)) names = true.
Proof.
  induction names as [|c names IH]; cbn; [tauto|].
  rewrite !andb_true_iff. intros [Hc Hrest].
  destruct (ok_inv c Hc) as (H1 & H2 & H3). destruct (IH Hrest) as (I1 & I2 & I3).
  rewrite H1, H2, H3. tauto.
Qed.

Lemma tidy_step (d d' : node) : good d -> R d d' -> good d'.
Proof.
  unfold good, tidy_disk. intros Hgood [Hframe Hsub].
  destruct roots_inv as (_ & _ & Hne).
  apply andb_prop in Hgood. destruct Hgood as [Hs Hr].
  apply andb_true_intro. split; [|now apply Hsub].
  unfold subtree_ok in *. now rewrite Hframe.
Qed.

Lemma below_refl (d : node) : R d d.
Proof. apply changed_below_refl. Qed.

Lemma below_trans (d1 d2 d3 : node) : R d1 d2 -> R d2 d3 -> R d1 d3.
Proof. apply changed_below_trans. Qed.

Lemma last_ok (q : list string) :
  q <> [] -> forallb ok q = true -> ok (last q EmptyString) = true.
Proof.
  intros Hne Hall. rewrite forallb_forall in Hall. apply Hall.
  rewrite (removelast_last_split q EmptyString Hne) at 2.
  apply in_or_app. right. now left.
Qed.

Lemma removelast_cons (c : string) (q : list string) :
  q <> [] -> removelast (c :: q) = c :: removelast q.
Proof. destruct q; [contradiction | reflexivity]. Qed.

Lemma last_cons (c : string) (q : list string) :
  q <> [] -> last (c :: q) EmptyString = last q EmptyString.
Proof. destruct q; [contradiction | reflexivity]. Qed.

Lemma respects_open_wb (p : string) (data : list byte) (q : list string) :
  resolve p = replica_path :: q -> q <> [] -> forallb ok q = true ->
  respects good R (open_wb p data).
Proof.
  intros Hres Hne Hok w Hgood.
  assert (Hput : forall r,
             R (fs w) (alter (put_entry (clock w) (last q EmptyString) (File r (clock w) data))
                             (replica_path :: removelast q) (fs w))).
  { intros r. apply changed_below_alter. apply keeps_names_put; [|reflexivity].
    now apply last_ok. }
  unfold open_wb. monad_unfold.
  destruct (String.eqb p EmptyString); [apply below_refl|].
  destruct (ends_with_sep p); [apply below_refl|].
  rewrite Hres. cbv beta iota zeta.
  rewrite removelast_cons, last_cons by assumption.
  destruct (lookup (fs w) (replica_path :: removelast q)) as [e|[r m d|m es]];
    cbn; try apply below_refl.
  destruct (find_entry (last q EmptyString) es) as [[r m' d|m' es']|]; cbn;
    try apply below_refl; apply Hput.
Qed.

Lemma respects_copystat (src dst : string) (q : list string) :
  resolve dst = replica_path :: q -> respects good R (copystat src dst).
Proof.
  intros Hres w Hgood. unfold copystat. monad_unfold.
  destruct (stat (fs w) src) as [e|s]; cbn; [apply below_refl|].
  destruct (stat (fs w) dst) as [e|t]; cbn; [apply below_refl|].
  rewrite Hres. apply changed_below_alter.
  intros [r m d|m es] Hwn; destruct s; cbv beta iota; try reflexivity;
    rewrite well_named_dir in *; exact Hwn.
Qed.

Lemma respects_os_remove (p : string) (q : list string) :
  resolve p = replica_path :: q -> q <> [] -> respects good R (os_remove p).
Proof.
  intros Hres Hne w Hgood. unfold os_remove. monad_unfold.
  destruct (stat (fs w) p) as [e|[r m d|m es]]; cbn; try apply below_refl.
  rewrite Hres. cbn. rewrite removelast_cons by assumption.
  apply changed_below_alter. apply keeps_names_drop.
Qed.

Lemma makedirs_from_changed (now : Z) (q : list string) (rest : list string) :
  forallb ok q = true ->
  forall made root root',
    made ++ rest = replica_path :: q ->
    makedirs_from now made rest root = inr root' -> R root root'.
Proof.
  intros Hok. induction rest as [|c rest IH]; intros made root root' Hsplit Hmk.
  - cbn in Hmk. inversion Hmk. apply below_refl.
  - cbn in Hmk.
    assert (Hsplit' : (made ++ [c]) ++ rest = replica_path :: q)
      by now rewrite <- app_assoc.
    destruct (lookup root (made ++ [c])) as [[]|[r m d|m es]] eqn:Hl;
      try discriminate.
    + eapply below_trans; [|eapply IH; eassumption].
      destruct made as [|c0 made].
      * cbn in Hsplit. inversion Hsplit. subst c. cbn.
        apply changed_below_create.
      * cbn in Hsplit. inversion Hsplit. subst c0.
        apply changed_below_alter. apply keeps_names_put; [|reflexivity].
        rewrite forallb_forall in Hok. apply Hok.
        match goal with H : made ++ c :: rest = q |- _ => rewrite <- H end.
        apply in_or_app. right. now left.
    + eapply IH; eassumption.
Qed.

Lemma respects_os_makedirs (name : string) (q : list string) :
  resolve name = replica_path :: q -> forallb ok q = true ->
  respects good R (os_makedirs name).
Proof.
  intros Hres Hok w Hgood. unfold os_makedirs, path_exists. monad_unfold.
  destruct (String.eqb name EmptyString); [apply below_refl|]. cbn.
  destruct (makedirs_from (clock w) [] (resolve name) (fs w)) as [e|root'] eqn:Hmk;
    cbn; [apply below_refl|].
  assert (HR : R (fs w) root').
  { eapply (makedirs_from_changed (clock w) q (resolve name) Hok []);
      [now rewrite Hres | eassumption]. }
  destruct (stat (fs w) name); cbn; exact HR.
Qed.

Lemma respects_reads {A} (m : M A) : reads m -> respects good R m.
Proof. apply reads_respects. apply below_refl. Qed.

Lemma below_ret {A} (a : A) : respects good R (ret a).
Proof. apply respects_ret, below_refl. Qed.

Lemma below_raise {A} (e : exn) : respects good R (@raise A e).
Proof. apply respects_raise, below_refl. Qed.

Lemma below_bind {A B} (m : M A) (k : A -> M B) :
  respects good R m -> (forall a, respects good R (k a)) ->
  respects good R (bind m k).
Proof. apply respects_bind; [apply below_trans | apply tidy_step]. Qed.

Lemma below_for_each {X A} (body : A -> X -> M A) (xs : list X) :
  (forall acc x, In x xs -> respects good R (body acc x)) ->
  forall acc, respects good R (for_each xs acc body).
Proof. apply respects_for_each; [apply below_refl | apply below_trans | apply tidy_step]. Qed.

Lemma respects_copy_contents (src dst : string) (q : list string) :
  resolve dst = replica_path :: q -> q <> [] -> forallb ok q = true ->
  respects good R (copy_contents src dst).
Proof.
  intros Hres Hne Hok. unfold copy_contents.
  apply below_bind;
    [apply respects_reads, reads_samefile|].
  intros same. destruct same; [apply below_raise|].
  apply below_bind;
    [apply respects_reads, reads_open_rb|].
  intros data. now apply respects_open_wb with (q := q).
Qed.

Lemma respects_record (a : action) : respects good R (record a).
Proof. intros w _. apply below_refl. Qed.

Lemma respects_shutil_copyfile (src dst : string) (q : list string) :
  resolve dst = replica_path :: q -> q <> [] -> forallb ok q = true ->
  respects good R (shutil_copyfile src dst).
Proof.
  intros Hres Hne Hok. unfold shutil_copyfile.
  apply below_bind;
    [now apply respects_copy_contents with (q := q)|].
  intros _. apply respects_record.
Qed.

Lemma respects_shutil_copy2 (src dst : string) (q : list string) :
  resolve dst = replica_path :: q -> q <> [] -> forallb ok q = true ->
  ok (basename src) = true ->
  respects good R (shutil_copy2 src dst).
Proof.
  intros Hres Hne Hok Hbase. unfold shutil_copy2.
  apply below_bind;
    [apply respects_reads, reads_isdir|].
  intros d.
  assert (Hdst : exists q',
             resolve (if d then join dst (basename src) else dst)
             = replica_path :: q' /\ q' <> [] /\ forallb ok q' = true).
  { destruct d; [|now exists q].
    exists (q ++ [basename src]). split; [|split].
    - rewrite resolve_join by (now apply ok_inv in Hbase). now rewrite Hres.
    - now destruct q.
    - rewrite forallb_app, Hok. cbn. now rewrite Hbase. }
  destruct Hdst as (q' & Hres' & Hne' & Hok').
  apply below_bind;
    [now apply respects_copy_contents with (q := q')|].
  intros _.
  apply below_bind;
    [now apply respects_copystat with (q := q')|].
  intros _. apply respects_record.
Qed.

(** ** The script changes the replica only *)

Lemma stat_plain (disk : node) (top : string) :
  valid_name top = true -> stat disk top = lookup disk [top].
Proof.
  intros H. pose proof (valid_name_inv top H) as (Hne & _ & _ & Hsep).
  unfold stat. apply String.eqb_neq in Hne. rewrite Hne, resolve_valid by assumption.
  destruct (lookup disk [top]) as [e|[r m d|m es]]; try reflexivity.
  now rewrite ends_with_sep_no_sep.
Qed.

Lemma walk_items_ok (name_ok : string -> bool) (disk : node) (top : string)
  (item : walk_item) :
  valid_name top = true -> subtree_ok name_ok disk top = true ->
  In item (os_walk disk top) ->
  exists names m es,
    lookup disk (top :: names) = inr (Dir m es) /\
    item = (path_str top names, dir_names es, file_names es) /\
    forallb name_ok names = true /\ forallb name_ok (file_names es) = true.
Proof.
  intros Htop Hsub Hin. unfold os_walk in Hin. rewrite stat_plain in Hin by assumption.
  unfold subtree_ok in Hsub.
  destruct (lookup disk [top]) as [e|n] eqn:Hn; [contradiction|].
  destruct (walk_node_sound name_ok n top item Hsub Hin) as (names & m & es & Hl & ->).
  destruct (well_named_lookup name_ok names n (Dir m es) Hsub Hl) as [Hnames Hdir].
  exists names, m, es. repeat split; try assumption.
  - change (top :: names) with ([top] ++ names). now rewrite lookup_app, Hn.
  - apply forallb_forall. intros f Hf.
    now destruct (file_names_in name_ok m es f Hdir Hf).
Qed.

Lemma respects_sync_file (names : list string) (file : string)
  (new_files_created : bool) :
  forallb ok names = true -> ok file = true ->
  respects good R
    (sync_file (path_str source_path names) (path_str replica_path names)
               new_files_created file).
Proof.
  intros Hnames Hfile.
  destruct roots_inv as (Hs & Hr & Hne).
  destruct (ok_all_inv names Hnames) as (Hvalid & _ & _).
  destruct (ok_inv file Hfile) as (Hfv & _ & _).
  unfold sync_file.
  apply below_bind; [apply respects_reads, reads_path_exists|]. intros there.
  apply below_bind.
  { apply respects_reads. destruct there; cbn; reads_tac. }
  intros stale. destruct stale; [|apply below_ret].
  apply below_bind.
  - apply respects_shutil_copy2 with (q := names ++ [file]).
    + rewrite resolve_join, resolve_path_str, resolve_valid by assumption.
      reflexivity.
    + now destruct names.
    + rewrite forallb_app, Hnames. cbn. now rewrite Hfile.
    + now rewrite basename_join.
  - intros _. apply respects_reads. reads_tac.
Qed.

Lemma respects_sync_dir (disk : node) (item : walk_item)
  (new_files_created : bool) :
  good disk -> In item (os_walk disk source_path) ->
  respects good R (sync_dir source_path replica_path new_files_created item).
Proof.
  intros Hgood Hin.
  destruct roots_inv as (Hs & Hr & Hne).
  unfold good, tidy_disk in Hgood. apply andb_prop in Hgood.
  destruct Hgood as [Hsrc _].
  destruct (walk_items_ok ok disk source_path item Hs Hsrc Hin)
    as (names & m & es & _ & -> & Hnames & Hfiles).
  destruct (ok_all_inv names Hnames) as (Hvalid & Hnos & _).
  unfold sync_dir.
  rewrite replace_path_str by assumption.
  apply below_bind.
  - apply respects_os_makedirs with (q := names); [|assumption].
    now rewrite resolve_path_str, resolve_valid.
  - intros _. apply below_for_each. intros acc file Hfile.
    apply respects_sync_file; [assumption|].
    rewrite forallb_forall in Hfiles. now apply Hfiles.
Qed.

Lemma respects_prune_file (source_root : string) (names : list string)
  (file : string) (u : unit) :
  forallb ok names = true -> ok file = true ->
  respects good R (prune_file source_root (path_str replica_path names) u file).
Proof.
  intros Hnames Hfile.
  destruct roots_inv as (Hs & Hr & Hne).
  destruct (ok_all_inv names Hnames) as (Hvalid & _ & _).
  destruct (ok_inv file Hfile) as (Hfv & _ & _).
  unfold prune_file.
  apply below_bind; [apply respects_reads, reads_path_exists|]. intros there.
  destruct there; cbn; [apply below_ret|].
  apply below_bind.
  - apply respects_os_remove with (q := names ++ [file]).
    + rewrite resolve_join, resolve_path_str, resolve_valid by assumption.
      reflexivity.
    + now destruct names.
  - intros _. apply respects_reads. reads_tac.
Qed.

Lemma respects_prune_dir (disk : node) (item : walk_item) (u : unit) :
  good disk -> In item (os_walk disk replica_path) ->
  respects good R (prune_dir source_path replica_path u item).
Proof.
  intros Hgood Hin.
  destruct roots_inv as (Hs & Hr & Hne).
  unfold good, tidy_disk in Hgood. apply andb_prop in Hgood.
  destruct Hgood as [_ Hrep].
  destruct (walk_items_ok ok disk replica_path item Hr Hrep Hin)
    as (names & m & es & _ & -> & Hnames & Hfiles).
  unfold prune_dir.
  apply below_for_each. intros acc file Hfile.
  apply respects_prune_file; [assumption|].
  rewrite forallb_forall in Hfiles. now apply Hfiles.
Qed.

Lemma below_get_fs {B} (k : node -> M B) :
  (forall disk, good disk -> respects good R (k disk)) ->
  respects good R (bind get_fs k).
Proof. apply respects_get_fs. Qed.

Lemma respects_copy_pass (disk : node) (acc : bool) :
  good disk ->
  respects good R
    (for_each (os_walk disk source_path) acc (sync_dir source_path replica_path)).
Proof.
  intros Hdisk. apply below_for_each. intros acc' item Hin.
  now apply respects_sync_dir with (disk := disk).
Qed.

Lemma respects_sync_folders :
  respects good R (sync_folders source_path replica_path).
Proof.
  unfold sync_folders.
  apply below_get_fs. intros disk Hdisk.
  apply below_bind.
  { apply below_for_each. intros acc item Hin. now apply respects_sync_dir with (disk := disk). }
  intros new_files_created.
  apply below_get_fs. intros disk' Hdisk'.
  apply below_bind.
  { apply below_for_each. intros acc item Hin. now apply respects_prune_dir with (disk := disk'). }
  intros _. apply respects_reads. reads_tac.
Qed.

Lemma respects_check_for_events :
  respects good R (check_for_events source_path replica_path).
Proof.
  unfold check_for_events.
  apply below_bind; [apply respects_reads; auto with reads|]. intros ev.
  destruct (has_events ev); [|apply below_ret].
  apply below_bind; [apply respects_sync_folders|]. intros _.
  apply respects_reads. reads_tac.
Qed.

Lemma respects_recopy_file (names : list string) (file : string) (u : unit) :
  forallb ok names = true -> ok file = true ->
  respects good R
    (recopy_file source_path replica_path (path_str source_path names) u file).
Proof.
  intros Hnames Hfile.
  destruct roots_inv as (Hs & Hr & Hne).
  destruct (ok_all_inv names Hnames) as (Hvalid & _ & _).
  destruct (ok_inv file Hfile) as (Hfv & _ & _).
  pose proof (valid_name_inv replica_path Hr) as (Hr1 & _ & _ & Hr2).
  destruct (path_str_shape names replica_path Hr1
              (ends_with_sep_no_sep _ Hr2) Hvalid) as [Hshape1 Hshape2].
  assert (Hres : resolve (join (path_str replica_path names) file)
                 = replica_path :: names ++ [file]).
  { rewrite resolve_join, resolve_path_str, resolve_valid by assumption.
    reflexivity. }
  assert (Hq : names ++ [file] <> []) by now destruct names.
  assert (Hqok : forallb ok (names ++ [file]) = true)
    by (rewrite forallb_app, Hnames; cbn; now rewrite Hfile).
  unfold recopy_file. rewrite recopy_target by assumption.
  apply below_bind; [apply respects_reads, reads_path_exists|]. intros there.
  apply below_bind.
  { destruct there; [|apply below_ret].
    now apply respects_os_remove with (q := names ++ [file]). }
  intros _. apply below_bind.
  { rewrite dirname_join by assumption.
    apply respects_os_makedirs with (q := names); [|assumption].
    now rewrite resolve_path_str, resolve_valid. }
  intros _. now apply respects_shutil_copyfile with (q := names ++ [file]).
Qed.

Lemma respects_recopy_dir (disk : node) (item : walk_item) (u : unit) :
  good disk -> In item (os_walk disk source_path) ->
  respects good R (recopy_dir source_path replica_path u item).
Proof.
  intros Hgood Hin.
  destruct roots_inv as (Hs & Hr & Hne).
  unfold good, tidy_disk in Hgood. apply andb_prop in Hgood.
  destruct Hgood as [Hsrc _].
  destruct (walk_items_ok ok disk source_path item Hs Hsrc Hin)
    as (names & m & es & _ & -> & Hnames & Hfiles).
  unfold recopy_dir.
  apply below_for_each. intros acc file Hfile.
  apply respects_recopy_file; [assumption|].
  rewrite forallb_forall in Hfiles. now apply Hfiles.
Qed.

Lemma respects_sync_cycle (log_level : string) :
  respects good R (sync_cycle source_path replica_path log_level).
Proof.
  unfold sync_cycle.
  apply below_bind; [apply respects_check_for_events|]. intros _.
  apply below_bind; [apply respects_reads; auto with reads|]. intros source_hash.
  apply below_bind; [apply respects_reads; auto with reads|]. intros replica_hash.
  apply below_bind.
  { match goal with |- respects _ _ (if ?b then _ else _) => destruct b end;
      [|apply below_ret].
    apply below_get_fs. intros disk Hdisk.
    apply below_for_each. intros acc item Hin.
    now apply respects_recopy_dir with (disk := disk). }
  intros _. apply respects_reads. reads_tac.
Qed.

End ReplicaCalls.

(** With plain, different roots and tidy trees, whatever a cycle does
    (to its end or to an exception) leaves every path outside the replica
    root as it was; in particular the source tree. *)
Lemma sync_cycle_changes_replica_only (source_path replica_path log_level : string)
  (w : world) :
  plain_roots source_path replica_path = true ->
  tidy_disk source_path replica_path (fs w) = true ->
  forall c p,
    c <> replica_path ->
    lookup (fs (final (sync_cycle source_path replica_path log_level w))) (c :: p)
    = lookup (fs w) (c :: p).
Proof.
  intros Hroots Htidy.
  now destruct (respects_sync_cycle source_path replica_path Hroots log_level w Htidy).
Qed.

(** ** No call of the script removes a directory *)

Lemma dirs_kept_refl (d : node) : dirs_kept d d.
Proof. intros p m es H. eauto. Qed.

Lemma dirs_kept_trans (d1 d2 d3 : node) :
  dirs_kept d1 d2 -> dirs_kept d2 d3 -> dirs_kept d1 d3.
Proof.
  intros H1 H2 p m es H. destruct (H1 p m es H) as (m' & es' & H').
  now apply (H2 p m' es').
Qed.

Lemma dirs_kept_alter (f : node -> node) (q : list string) :
  forall d,
    (forall x, lookup d q = inr x -> dirs_kept x (f x)) ->
    dirs_kept d (alter f q d).
Proof.
  induction q as [|c q IH]; intros d Hf; cbn.
  - now apply Hf.
  - destruct d as [r m x|m es]; [apply dirs_kept_refl|].
    destruct (find_entry c es) as [child|] eqn:Hc; [|apply dirs_kept_refl].
    intros p m0 es0 Hp. destruct p as [|c' p].
    + cbn. eauto.
    + cbn in *. destruct (String.eqb_spec c c') as [<-|Hne].
      * rewrite find_entry_set_same. rewrite Hc in Hp.
        apply (fun H => IH child H p m0 es0 Hp).
        intros x Hx. apply Hf. now rewrite Hc.
      * rewrite find_entry_set_other by assumption.
        destruct (find_entry c' es); [eauto | discriminate].
Qed.

Lemma lookup_file_below (r : bool) (m : Z) (d : list byte) (p : list string)
  (m' : Z) (es' : list (string * node)) :
  lookup (File r m d) p <> inr (Dir m' es').
Proof. destruct p; discriminate. Qed.

Lemma dirs_kept_put (now : Z) (name : string) (v x : node) :
  (forall pm es m' es',
      x = Dir pm es -> find_entry name es <> Some (Dir m' es')) ->
  dirs_kept x (put_entry now name v x).
Proof.
  intros Hno. destruct x as [r m d|pm es]; [apply dirs_kept_refl|].
  intros p m0 es0 Hp. destruct p as [|c p].
  - unfold put_entry. destruct (find_entry name es); cbn; eauto.
  - assert (Hset : find_entry c (set_entry name v es) = find_entry c es).
    { destruct (String.eqb_spec name c) as [->|Hne];
        [|now apply find_entry_set_other].
      exfalso. cbn in Hp.
      destruct (find_entry c es) as [[r1 m1 d1|m1 es1]|] eqn:Hc;
        [| |discriminate].
      - now apply lookup_file_below in Hp.
      - now apply (Hno pm es m1 es1). }
    unfold put_entry. cbn in Hp.
    destruct (find_entry name es); cbn; rewrite Hset;
      destruct (find_entry c es); eauto; discriminate.
Qed.

Lemma dirs_kept_drop (now : Z) (name : string) (x : node) :
  (forall pm es m' es',
      x = Dir pm es -> find_entry name es <> Some (Dir m' es')) ->
  dirs_kept x (drop_entry now name x).
Proof.
  intros Hno. destruct x as [r m d|pm es]; [apply dirs_kept_refl|].
  intros p m0 es0 Hp. destruct p as [|c p].
  - cbn. eauto.
  - assert (Hdel : find_entry c (del_entry name es) = find_entry c es).
    { destruct (String.eqb_spec name c) as [->|Hne];
        [|now apply find_entry_del_other].
      exfalso. cbn in Hp.
      destruct (find_entry c es) as [[r1 m1 d1|m1 es1]|] eqn:Hc;
        [| |discriminate].
      - now apply lookup_file_below in Hp.
      - now apply (Hno pm es m1 es1). }
    cbn in *. rewrite Hdel. destruct (find_entry c es); eauto; discriminate.
Qed.

Lemma dirs_kept_stamp (r0 : bool) (m0 : Z) (x : node) :
  dirs_kept x (match x with
               | File _ _ d => File r0 m0 d
               | Dir _ es => Dir m0 es
               end).
Proof.
  destruct x as [r m d|m es]; intros p m1 es1 Hp.
  - now apply lookup_file_below in Hp.
  - destruct p as [|c p]; cbn in *; eauto.
Qed.

Section DirsKept.

Let anything := fun _ : node => True.

Lemma anything_step (d d' : node) : anything d -> dirs_kept d d' -> anything d'.
Proof. easy. Qed.

Lemma kept_ret {A} (a : A) : respects anything dirs_kept (ret a).
Proof. apply respects_ret, dirs_kept_refl. Qed.

Lemma kept_raise {A} (e : exn) : respects anything dirs_kept (@raise A e).
Proof. apply respects_raise, dirs_kept_refl. Qed.

Lemma kept_bind {A B} (m : M A) (k : A -> M B) :
  respects anything dirs_kept m -> (forall a, respects anything dirs_kept (k a)) ->
  respects anything dirs_kept (bind m k).
Proof. apply respects_bind; [apply dirs_kept_trans | apply anything_step]. Qed.

Lemma kept_for_each {X A} (body : A -> X -> M A) (xs : list X) :
  (forall acc x, respects anything dirs_kept (body acc x)) ->
  forall acc, respects anything dirs_kept (for_each xs acc body).
Proof.
  intros H. apply respects_for_each;
    [apply dirs_kept_refl | apply dirs_kept_trans | apply anything_step | auto].
Qed.

Lemma kept_reads {A} (m : M A) : reads m -> respects anything dirs_kept m.
Proof. apply reads_respects, dirs_kept_refl. Qed.

Lemma kept_open_wb (p : string) (data : list byte) :
  respects anything dirs_kept (open_wb p data).
Proof.
  intros w _. unfold open_wb. monad_unfold.
  destruct (String.eqb p EmptyString); [apply dirs_kept_refl|].
  destruct (ends_with_sep p); [apply dirs_kept_refl|].
  destruct (resolve p) as [|c cs]; [apply dirs_kept_refl|].
  cbv beta iota zeta.
  destruct (lookup (fs w) (removelast (c :: cs))) as [e|[r m d|m es]] eqn:Hl;
    cbn; try apply dirs_kept_refl.
  destruct (find_entry (last (c :: cs) EmptyString) es) as [[r m' d|m' es']|] eqn:He; cbn;
    try apply dirs_kept_refl;
    apply dirs_kept_alter; intros x Hx; rewrite Hl in Hx; inversion Hx; subst x;
    apply dirs_kept_put; intros pm es0 m1 es1 E; inversion E; subst;
    rewrite He; discriminate.
Qed.

Lemma kept_copystat (src dst : string) :
  respects anything dirs_kept (copystat src dst).
Proof.
  intros w _. unfold copystat. monad_unfold.
  destruct (stat (fs w) src) as [e|s]; cbn; [apply dirs_kept_refl|].
  destruct (stat (fs w) dst) as [e|t]; cbn; [apply dirs_kept_refl|].
  apply dirs_kept_alter. intros x _.
  destruct s as [r m d|m es].
  - apply (dirs_kept_stamp r m x).
  - intros p m1 es1 Hp. destruct x as [r0 m0 d0|m0 es0].
    + now apply lookup_file_below in Hp.
    + destruct p as [|c p]; cbn in *; eauto.
Qed.

Lemma kept_os_remove (p : string) : respects anything dirs_kept (os_remove p).
Proof.
  intros w _. unfold os_remove. monad_unfold.
  destruct (stat (fs w) p) as [e|[r m d|m es]] eqn:Hstat; cbn;
    try apply dirs_kept_refl.
  destruct (resolve p) as [|c cs] eqn:Hres; cbn; [apply dirs_kept_refl|].
  apply stat_file_inv in Hstat. destruct Hstat as (_ & _ & Hl).
  rewrite Hres in Hl.
  destruct (lookup_file_parent (fs w) (c :: cs) r m d) as (pm & es & Hparent & He);
    [discriminate | exact Hl |].
  apply dirs_kept_alter. intros x Hx. rewrite Hparent in Hx. inversion Hx. subst x.
  apply dirs_kept_drop. intros pm0 es0 m1 es1 E. inversion E. subst.
  rewrite He. discriminate.
Qed.

Lemma makedirs_from_kept (now : Z) (rest : list string) :
  forall made root root',
    makedirs_from now made rest root = inr root' -> dirs_kept root root'.
Proof.
  induction rest as [|c rest IH]; intros made root root' Hmk; cbn in Hmk.
  - inversion Hmk. apply dirs_kept_refl.
  - destruct (lookup root (made ++ [c])) as [[]|[r m d|m es]] eqn:Hl;
      try discriminate.
    + eapply dirs_kept_trans; [|eapply IH; eassumption].
      apply dirs_kept_alter. intros x Hx.
      apply dirs_kept_put. intros pm es m1 es1 -> He.
      rewrite lookup_app, Hx in Hl. cbn in Hl. rewrite He in Hl. discriminate.
    + eapply IH; eassumption.
Qed.

Lemma kept_os_makedirs (name : string) :
  respects anything dirs_kept (os_makedirs name).
Proof.
  intros w _. unfold os_makedirs, path_exists. monad_unfold.
  destruct (String.eqb name EmptyString); [apply dirs_kept_refl|]. cbn.
  destruct (makedirs_from (clock w) [] (resolve name) (fs w)) as [e|root'] eqn:Hmk;
    cbn; [apply dirs_kept_refl|].
  apply makedirs_from_kept in Hmk.
  destruct (stat (fs w) name); cbn; exact Hmk.
Qed.

Ltac kept_tac :=
  repeat first
    [ progress intros
    | assumption
    | solve [apply kept_reads; auto with reads]
    | apply kept_ret
    | apply kept_raise
    | apply kept_open_wb
    | apply kept_copystat
    | apply kept_os_remove
    | apply kept_os_makedirs
    | apply kept_bind
    | apply kept_for_each
    | match goal with
      | |- respects _ _ (if ?b then _ else _) => destruct b
      | |- respects _ _ (match ?x with _ => _ end) => destruct x
      end ].

Lemma kept_reads_record (a : action) : respects anything dirs_kept (record a).
Proof. intros w _. apply dirs_kept_refl. Qed.

Lemma kept_sync_folders (source_path replica_path : string) :
  respects anything dirs_kept (sync_folders source_path replica_path).
Proof.
  unfold sync_folders, sync_dir, sync_file, prune_dir, prune_file,
    shutil_copy2, copy_contents.
  kept_tac; apply kept_reads_record.
Qed.

Lemma kept_sync_cycle (source_path replica_path log_level : string) :
  respects anything dirs_kept (sync_cycle source_path replica_path log_level).
Proof.
  unfold sync_cycle, check_for_events.
  pose proof (kept_sync_folders source_path replica_path) as Hsync.
  unfold recopy_dir, recopy_file, shutil_copyfile, copy_contents.
  kept_tac; apply kept_reads_record.
Qed.

End DirsKept.

(** ** What [sync_folders] leaves in the replica *)

Lemma find_entry_del_same (name : string) (es : list (string * node)) :
  no_repeat (map fst es) = true -> find_entry name (del_entry name es) = None.
Proof.
  induction es as [|[k n] es IH]; cbn; [reflexivity|].
  intros H. apply andb_prop in H. destruct H as [Hk Hrest].
  destruct (String.eqb_spec k name) as [->|Hne]; cbn.
  - apply find_entry_none. apply negb_true_iff in Hk.
    intros Hin. apply name_in_iff in Hin. congruence.
  - destruct (String.eqb_spec k name); [contradiction | now apply IH].
Qed.

Lemma well_named_no_repeat (ok : string -> bool) (m : Z) (es : list (string * node)) :
  well_named ok (Dir m es) = true -> no_repeat (map fst es) = true.
Proof. rewrite well_named_dir. intros H. now apply andb_prop in H. Qed.

(** Removing an entry brings no file into being. *)
Lemma drop_shrinks (ok : string -> bool) (now : Z) (name : string)
  (q : list string) :
  forall n p r m d,
    well_named ok n = true ->
    lookup (alter (drop_entry now name) q n) p = inr (File r m d) ->
    lookup n p = inr (File r m d).
Proof.
  induction q as [|c q IH]; intros n p r m d Hwn Hl; cbn in Hl.
  - destruct n as [r0 m0 d0|m0 es]; [exact Hl|].
    destruct p as [|c' p]; [discriminate|]. cbn in *.
    destruct (String.eqb_spec name c') as [->|Hne].
    + rewrite find_entry_del_same in Hl
        by (now apply well_named_no_repeat with (ok := ok) (m := m0)).
      discriminate.
    + now rewrite find_entry_del_other in Hl.
  - destruct n as [r0 m0 d0|m0 es]; [exact Hl|].
    destruct (find_entry c es) as [child|] eqn:Hc; [|exact Hl].
    destruct p as [|c' p]; [discriminate|]. cbn in *.
    destruct (String.eqb_spec c c') as [<-|Hne].
    + rewrite find_entry_set_same in Hl. rewrite Hc.
      apply (IH child); [|exact Hl].
      now destruct (well_named_child ok m0 es c child Hwn Hc).
    + now rewrite find_entry_set_other in Hl.
Qed.

(** The removed entry is gone. *)
Lemma drop_removes (ok : string -> bool) (now : Z) (name : string)
  (q : list string) (n : node) (pm : Z) (es : list (string * node)) :
  well_named ok n = true ->
  lookup n q = inr (Dir pm es) ->
  lookup (alter (drop_entry now name) q n) (q ++ [name]) = inl FileNotFoundError.
Proof.
  intros Hwn Hq. rewrite lookup_app, (lookup_alter_same _ _ _ _ Hq). cbn.
  destruct (well_named_lookup ok q n (Dir pm es) Hwn Hq) as [_ Hdir].
  now rewrite find_entry_del_same
    by (now apply well_named_no_repeat with (ok := ok) (m := pm)).
Qed.

Lemma lookup_head (d n : node) (c : string) (p : list string) :
  lookup d [c] = inr n -> lookup d (c :: p) = lookup n p.
Proof.
  intros H. change (c :: p) with ([c] ++ p). now rewrite lookup_app, H.
Qed.

Lemma lookup_alter_head (f : node -> node) (d n : node) (c : string)
  (q p : list string) :
  lookup d [c] = inr n ->
  lookup (alter f (c :: q) d) (c :: p) = lookup (alter f q n) p.
Proof.
  cbn. destruct d as [r m x|m es]; [discriminate|].
  destruct (find_entry c es) as [child|]; [|discriminate].
  intros E. inversion E. subst. cbn. now rewrite find_entry_set_same.
Qed.

Lemma stat_no_trailing (d : node) (p : string) :
  String.eqb p EmptyString = false -> ends_with_sep p = false ->
  stat d p = lookup d (resolve p).
Proof.
  intros Hp Hsep. unfold stat. rewrite Hp, Hsep.
  now destruct (lookup d (resolve p)) as [e|[r m x|m es]].
Qed.

Lemma stat_join (d : node) (top : string) (names : list string) (file : string) :
  valid_name top = true -> forallb valid_name names = true ->
  valid_name file = true ->
  stat d (join (path_str top names) file) = lookup d (top :: names ++ [file]).
Proof.
  intros Htop Hnames Hfile.
  rewrite stat_no_trailing
    by (now apply join_nonempty || now apply join_no_trailing_sep).
  now rewrite resolve_join, resolve_path_str, resolve_valid.
Qed.

(** What a successful [os.remove] did. *)
Lemma os_remove_done (p : string) (w w' : world) :
  os_remove p w = Done tt w' ->
  exists r m d c cs,
    stat (fs w) p = inr (File r m d) /\ resolve p = c :: cs /\
    fs w' = alter (drop_entry (clock w) (last (c :: cs) EmptyString))
                  (removelast (c :: cs)) (fs w).
Proof.
  unfold os_remove. monad_unfold.
  destruct (stat (fs w) p) as [e|[r m d|m es]]; cbn; try discriminate.
  destruct (resolve p) as [|c cs]; cbn; [discriminate|].
  intros E. inversion E. exists r, m, d, c, cs. now repeat split.
Qed.

(** A loop whose every round moves the world along a preorder [T] and
    establishes, for the element of the round, a fact that [T] keeps. *)
Lemma for_each_post {X A} (body : A -> X -> M A)
  (I : world -> Prop) (T : world -> world -> Prop) (Q : X -> world -> Prop)
  (xs : list X) :
  (forall w, T w w) ->
  (forall w1 w2 w3, T w1 w2 -> T w2 w3 -> T w1 w3) ->
  (forall w w', I w -> T w w' -> I w') ->
  (forall x w w', T w w' -> Q x w -> Q x w') ->
  (forall acc x w acc' w',
      In x xs -> I w -> body acc x w = Done acc' w' -> T w w' /\ Q x w') ->
  forall acc w acc' w',
    I w -> for_each xs acc body w = Done acc' w' ->
    T w w' /\ forall x, In x xs -> Q x w'.
Proof.
  intros Trefl Ttrans Istep Qstable Hbody.
  induction xs as [|x xs IH]; intros acc w acc' w' HI Hrun; cbn in Hrun.
  - inversion Hrun. subst. split; [apply Trefl | intros x []].
  - unfold bind in Hrun. destruct (body acc x w) as [acc1 w1|e w1] eqn:Hx;
      [|discriminate].
    destruct (Hbody acc x w acc1 w1 (or_introl eq_refl) HI Hx) as [HT HQ].
    assert (IH' : T w1 w' /\ forall y, In y xs -> Q y w').
    { apply (IH (fun acc0 y w0 acc0' w0' Hy => Hbody acc0 y w0 acc0' w0' (or_intror Hy))
                acc1 w1 acc' w'); [eapply Istep; eassumption | exact Hrun]. }
    destruct IH' as [HT' HQ']. split; [eapply Ttrans; eassumption|].
    intros y [<-|Hy]; [eapply Qstable; eassumption | now apply HQ'].
Qed.

Section Prune.

Variables source_path replica_path : string.
Hypothesis roots : plain_roots source_path replica_path = true.

Let ok := tidy_name source_path replica_path.
Let good := fun w : world => tidy_disk source_path replica_path (fs w) = true.
Let T := pruned ok replica_path.
Let Q := no_orphan_at source_path replica_path.

Lemma pruned_refl (w : world) : T w w.
Proof. split; [apply changed_below_refl | auto]. Qed.

Lemma pruned_trans (w1 w2 w3 : world) : T w1 w2 -> T w2 w3 -> T w1 w3.
Proof.
  intros [H1 S1] [H2 S2]. split; [eapply changed_below_trans; eassumption|].
  intros q r m d H. apply S1. now apply S2.
Qed.

Lemma pruned_good (w w' : world) : good w -> T w w' -> good w'.
Proof.
  intros Hgood [Hch _]. eapply tidy_step; eassumption.
Qed.

Lemma no_orphan_stable (names : list string) (file : string) (w w' : world) :
  T w w' -> Q names file w -> Q names file w'.
Proof.
  intros [[Hframe _] Hshrink] [[n Hn]|Hnot].
  - left. exists n. destruct (roots_inv _ _ roots) as (_ & _ & Hne).
    now rewrite Hframe.
  - right. intros (r & m & d & Hf). apply Hnot. exists r, m, d. now apply Hshrink.
Qed.

Lemma removelast_snoc (c : string) (names : list string) (file : string) :
  removelast (c :: names ++ [file]) = c :: names /\
  last (c :: names ++ [file]) EmptyString = file.
Proof.
  change (c :: names ++ [file]) with ((c :: names) ++ [file]).
  now rewrite removelast_last, last_last.
Qed.

Lemma prune_file_step (source_root : string) (names : list string)
  (file : string) (u : unit) (w w' : world) :
  forallb ok names = true -> ok file = true -> good w ->
  prune_file source_root (path_str replica_path names) u file w = Done tt w' ->
  T w w' /\
  ((exists n, stat (fs w) (join source_root file) = inr n) \/
   ~ is_file_at (fs w') (replica_path :: names ++ [file])).
Proof.
  intros Hnames Hfile Hgood Hrun.
  destruct (roots_inv _ _ roots) as (Hs & Hr & Hne).
  destruct (ok_all_inv _ _ names Hnames) as (Hvalid & _ & _).
  destruct (ok_inv _ _ file Hfile) as (Hfv & _ & _).
  unfold prune_file, path_exists in Hrun. monad_unfold. cbn in Hrun.
  destruct (stat (fs w) (join source_root file)) as [e|n] eqn:Hsrc; cbn in Hrun.
  2:{ inversion Hrun. subst. split; [apply pruned_refl | left; eauto]. }
  destruct (os_remove (join (path_str replica_path names) file) w)
    as [[] w1|e1 w1] eqn:Hrm; [|discriminate].
  inversion Hrun. subst w'. cbn. clear Hrun.
  destruct (os_remove_done _ _ _ Hrm) as (r & m & d & c & cs & Hstat & Hres & Hfs).
  rewrite stat_join in Hstat by assumption.
  rewrite resolve_join, resolve_path_str, resolve_valid in Hres by assumption.
  cbn in Hres. inversion Hres. subst c cs. clear Hres.
  destruct (removelast_snoc replica_path names file) as [Hrl Hl].
  rewrite Hrl, Hl in Hfs. rewrite Hfs.
  unfold good, tidy_disk in Hgood. apply andb_prop in Hgood.
  destruct Hgood as [_ Hrep]. unfold subtree_ok in Hrep.
  destruct (lookup (fs w) [replica_path]) as [e0|Rn] eqn:HR.
  { change (replica_path :: names ++ [file])
      with ([replica_path] ++ (names ++ [file])) in Hstat.
    rewrite lookup_app, HR in Hstat. discriminate. }
  rewrite (lookup_head _ Rn) in Hstat by assumption.
  split; [split|].
  - apply changed_below_alter. apply keeps_names_drop.
  - cbn [fs]. intros q r' m' d' Hq.
    rewrite (lookup_alter_head _ _ Rn) in Hq by assumption.
    rewrite (lookup_head _ Rn) by assumption.
    now apply (drop_shrinks ok) in Hq.
  - right. intros (r' & m' & d' & Hf).
    rewrite (lookup_alter_head _ _ Rn) in Hf by assumption.
    destruct (lookup_file_parent Rn (names ++ [file]) r m d) as (pm & es & Hp & _);
      [now destruct names | exact Hstat |].
    rewrite removelast_last in Hp.
    rewrite (drop_removes ok _ _ _ _ pm es Hrep Hp) in Hf. discriminate.
Qed.

Lemma prune_files_post (names files : list string) (u : unit) (w w' : world) :
  forallb ok names = true -> forallb ok files = true -> good w ->
  for_each files u
    (prune_file (path_str source_path names) (path_str replica_path names)) w
  = Done tt w' ->
  T w w' /\ forall file, In file files -> Q names file w'.
Proof.
  intros Hnames Hfiles Hgood Hrun.
  destruct (roots_inv _ _ roots) as (Hs & Hr & Hne).
  destruct (ok_all_inv _ _ names Hnames) as (Hvalid & _ & _).
  rewrite forallb_forall in Hfiles.
  refine (for_each_post _ good T (fun file w0 => Q names file w0) files
            pruned_refl pruned_trans pruned_good
            (fun file w0 w0' => no_orphan_stable names file w0 w0')
            _ u w tt w' Hgood Hrun).
  intros acc file w0 acc' w0' Hin Hgood0 Hbody. destruct acc'.
  destruct (ok_inv _ _ file (Hfiles file Hin)) as (Hfv & _ & _).
  destruct (prune_file_step _ names file acc w0 w0' Hnames (Hfiles file Hin)
              Hgood0 Hbody) as [HT [[n Hn]|Hnot]].
  - split; [exact HT|]. left. exists n.
    rewrite stat_join in Hn by assumption.
    destruct HT as [[Hframe _] _]. now rewrite Hframe.
  - split; [exact HT | now right].
Qed.

Lemma path_str_inj (top : string) (names names' : list string) :
  forallb valid_name names = true -> forallb valid_name names' = true ->
  path_str top names = path_str top names' -> names = names'.
Proof.
  intros H H' E. apply (f_equal resolve) in E.
  rewrite !resolve_path_str in E by assumption.
  now apply app_inv_head in E.
Qed.

Lemma prune_dirs_post (disk : node) (u : unit) (w w' : world) :
  tidy_disk source_path replica_path disk = true -> good w ->
  for_each (os_walk disk replica_path) u (prune_dir source_path replica_path) w
  = Done tt w' ->
  T w w' /\
  forall names m es file,
    lookup disk (replica_path :: names) = inr (Dir m es) ->
    In file (file_names es) ->
    Q names file w'.
Proof.
  intros Hdisk Hgood Hrun.
  destruct (roots_inv _ _ roots) as (Hs & Hr & Hne).
  pose proof Hdisk as Hdisk'. unfold tidy_disk in Hdisk'.
  apply andb_prop in Hdisk'. destruct Hdisk' as [_ Hrep].
  set (Qitem := fun (item : walk_item) (w0 : world) =>
                  forall names file,
                    fst (fst item) = path_str replica_path names ->
                    forallb ok names = true -> In file (snd item) ->
                    Q names file w0).
  assert (Hloop : T w w' /\ forall item, In item (os_walk disk replica_path) -> Qitem item w').
  { refine (for_each_post _ good T Qitem (os_walk disk replica_path)
              pruned_refl pruned_trans pruned_good _ _ u w tt w' Hgood Hrun).
    - intros item w0 w0' HT HQ names file E Hn Hf.
      eapply no_orphan_stable; [exact HT | now apply HQ].
    - intros acc item w0 acc' w0' Hin Hgood0 Hbody. destruct acc'.
      destruct (walk_items_ok ok disk replica_path item Hr Hrep Hin)
        as (names0 & m & es & _ & -> & Hnames0 & Hfiles0).
      destruct (ok_all_inv _ _ names0 Hnames0) as (Hvalid0 & _ & Hnor0).
      unfold prune_dir in Hbody.
      rewrite replace_path_str in Hbody by assumption.
      destruct (prune_files_post names0 (file_names es) tt w0 w0'
                  Hnames0 Hfiles0 Hgood0 Hbody) as [HT HQ].
      split; [exact HT|]. intros names file E Hn Hf. cbn in E, Hf.
      destruct (ok_all_inv _ _ names Hn) as (Hvalid & _ & _).
      rewrite <- (path_str_inj replica_path names0 names Hvalid0 Hvalid E).
      now apply HQ. }
  destruct Hloop as [HT HQ]. split; [exact HT|].
  intros names m es file Hl Hf.
  unfold subtree_ok in Hrep.
  destruct (lookup disk [replica_path]) as [e|Rn] eqn:HR.
  { change (replica_path :: names) with ([replica_path] ++ names) in Hl.
    rewrite lookup_app, HR in Hl. discriminate. }
  rewrite (lookup_head disk Rn) in Hl by assumption.
  destruct (well_named_lookup ok names Rn (Dir m es) Hrep Hl) as [Hnames Hdir].
  apply (HQ (path_str replica_path names, dir_names es, file_names es));
    [|reflexivity | assumption | assumption].
  unfold os_walk. rewrite stat_plain, HR by assumption.
  exact (walk_node_complete names Rn replica_path m es Hl).
Qed.

Lemma find_entry_file_names (f : string) (es : list (string * node))
  (r : bool) (m : Z) (d : list byte) :
  find_entry f es = Some (File r m d) -> In f (file_names es).
Proof.
  intros H. apply find_entry_in in H. unfold file_names.
  apply in_map_iff. exists (f, File r m d). split; [reflexivity|].
  apply filter_In. now split.
Qed.

Lemma sync_folders_no_orphans (w w' : world) :
  good w ->
  sync_folders source_path replica_path w = Done tt w' ->
  forall names file,
    is_file_at (fs w') (replica_path :: names ++ [file]) ->
    exists n, lookup (fs w') (source_path :: names ++ [file]) = inr n.
Proof.
  intros Hgood Hrun names file Hfile.
  unfold sync_folders in Hrun. unfold bind at 1 2 in Hrun. unfold get_fs at 1 in Hrun.
  destruct (for_each (os_walk (fs w) source_path) false
              (sync_dir source_path replica_path) w) as [nfc w1|e1 w1] eqn:H1;
    [|discriminate].
  assert (Hgood1 : good w1).
  { pose proof (respects_copy_pass source_path replica_path roots (fs w) false
                  Hgood w Hgood) as HR.
    rewrite H1 in HR. cbn in HR.
    eapply tidy_step; eassumption. }
  unfold bind at 1 2 in Hrun. unfold get_fs at 1 in Hrun.
  destruct (for_each (os_walk (fs w1) replica_path) tt
              (prune_dir source_path replica_path) w1) as [[] w2|e2 w2] eqn:H2;
    [|discriminate].
  destruct (prune_dirs_post (fs w1) tt w1 w2 Hgood1 Hgood1 H2) as [[_ Hshrink] HQ].
  assert (Hfs : fs w' = fs w2).
  { destruct nfc; monad_unfold; inversion Hrun; reflexivity. }
  rewrite Hfs in *. clear Hfs Hrun.
  destruct Hfile as (r & m & d & Hf).
  pose proof (Hshrink _ _ _ _ Hf) as Hf1.
  destruct (lookup_file_parent (fs w1) (replica_path :: names ++ [file]) r m d)
    as (pm & es & Hp & He); [discriminate | exact Hf1 |].
  destruct (removelast_snoc replica_path names file) as [Hrl Hl].
  rewrite Hrl in Hp. rewrite Hl in He.
  destruct (HQ names pm es file Hp (find_entry_file_names _ _ _ _ _ He))
    as [Hsrc|Hnot]; [exact Hsrc|].
  exfalso. apply Hnot. now exists r, m, d.
Qed.

End Prune.

(** ** Failures *)

(** An exception in one round ends the loop: the rounds after it are not
    run. *)
Lemma for_each_raises {X A} (body : A -> X -> M A) (xs ys : list X) (x : X)
  (acc acc1 : A) (w w1 w2 : world) (e : exn) :
  for_each xs acc body w = Done acc1 w1 ->
  body acc1 x w1 = Raised e w2 ->
  for_each (xs ++ x :: ys) acc body w = Raised e w2.
Proof.
  revert acc w. induction xs as [|y xs IH]; intros acc w Hxs Hx; cbn in *.
  - inversion Hxs. subst. unfold bind. now rewrite Hx.
  - unfold bind in *. destruct (body acc y w) as [acc' w'|e' w']; [|discriminate].
    now apply IH.
Qed.

Lemma hash_file_unreadable (w : world) (root file : string) (hash : list byte) :
  can_read (fs w) (join root file) = false ->
  exists e, hash_file root hash file w = Raised e w.
Proof.
  unfold can_read, hash_file, open_rb. monad_unfold.
  destruct (stat (fs w) (join root file)) as [e|[[] m d|m es]]; cbn;
    try discriminate; eauto.
Qed.

Lemma hash_files_unreadable (w : world) (root : string) :
  forall files hash,
    forallb (fun file => can_read (fs w) (join root file)) files = false ->
    exists e, for_each files hash (hash_file root) w = Raised e w.
Proof.
  induction files as [|file files IH]; intros hash Hall; cbn in *; [discriminate|].
  unfold bind.
  destruct (can_read (fs w) (join root file)) eqn:Hfile.
  - rewrite hash_file_readable by assumption. now apply IH.
  - destruct (hash_file_unreadable w root file hash Hfile) as [e ->]. eauto.
Qed.

Lemma hash_items_unreadable (w : world) :
  forall items hash,
    forallb (item_readable (fs w)) items = false ->
    exists e, for_each items hash hash_dir w = Raised e w.
Proof.
  induction items as [|[[root dirs] files] items IH]; intros hash Hall; cbn in *;
    [discriminate|].
  unfold bind.
  change (hash_dir hash (root, dirs, files))
    with (for_each files hash (hash_file root)).
  destruct (forallb (fun file => can_read (fs w) (join root file)) files) eqn:Hfiles.
  - rewrite hash_files_readable by assumption. now apply IH.
  - destruct (hash_files_unreadable w root files hash Hfiles) as [e ->]. eauto.
Qed.

(** A file of the walk that cannot be opened ends [get_folder_hash] with the
    exception; nothing is skipped, and the world is as it was. *)
Lemma get_folder_hash_unreadable (w : world) (folder : string) :
  all_readable (fs w) folder = false ->
  exists e, get_folder_hash folder w = Raised e w.
Proof.
  intros Hall. unfold get_folder_hash, get_fs, bind.
  destruct (hash_items_unreadable w (os_walk (fs w) folder) [] Hall) as [e ->].
  eauto.
Qed.

Lemma unreadable_in_walk (disk : node) (top : string) (names : list string)
  (file : string) (m : Z) (d : list byte) :
  valid_name top = true -> subtree_ok valid_name disk top = true ->
  lookup disk (top :: names ++ [file]) = inr (File false m d) ->
  all_readable disk top = false.
Proof.
  intros Htop Hsub Hl.
  unfold subtree_ok in Hsub.
  destruct (lookup disk [top]) as [e|n] eqn:Hn.
  { change (top :: names ++ [file]) with ([top] ++ (names ++ [file])) in Hl.
    rewrite lookup_app, Hn in Hl. discriminate. }
  pose proof Hl as Hl'. rewrite (lookup_head disk n) in Hl' by assumption.
  destruct (lookup_file_parent n (names ++ [file]) false m d) as (pm & es & Hp & He);
    [now destruct names | exact Hl' |].
  rewrite removelast_last in Hp. rewrite last_last in He.
  destruct (well_named_lookup valid_name names n (Dir pm es) Hsub Hp) as [Hnames Hdir].
  destruct (well_named_child valid_name pm es file _ Hdir He) as [Hfile _].
  destruct (all_readable disk top) eqn:Hall; [|reflexivity]. exfalso.
  unfold all_readable in Hall. rewrite forallb_forall in Hall.
  assert (Hin : In (path_str top names, dir_names es, file_names es) (os_walk disk top)).
  { unfold os_walk. rewrite stat_plain, Hn by assumption.
    exact (walk_node_complete names n top pm es Hp). }
  specialize (Hall _ Hin). cbn in Hall. rewrite forallb_forall in Hall.
  specialize (Hall file (find_entry_file_names _ _ _ _ _ He)).
  unfold can_read in Hall. rewrite stat_join, Hl in Hall by assumption.
  discriminate.
Qed.

Lemma well_named_weaken (ok ok' : string -> bool) :
  (forall c, ok c = true -> ok' c = true) ->
  forall n, well_named ok n = true -> well_named ok' n = true.
Proof.
  intros Hweak n.
  induction n as [r m d|m es IH] using node_induction; [reflexivity|].
  rewrite !well_named_dir. intros H. apply andb_prop in H. destruct H as [Hnr Hall].
  rewrite Hnr. cbn. rewrite forallb_forall in *. rewrite Forall_forall in IH.
  intros [k c] Hin. specialize (Hall _ Hin). cbn in *.
  apply andb_prop in Hall. destruct Hall as [Hk Hc].
  rewrite (Hweak k Hk). cbn. now apply (IH (k, c)).
Qed.

(** Without a replica directory, [os.listdir(replica_path)] ends every cycle
    with an exception before anything is created. *)
Lemma sync_cycle_missing_replica (source_path replica_path log_level : string)
  (w : world) (e : exn) :
  stat (fs w) replica_path = inl e ->
  exists e' w',
    sync_cycle source_path replica_path log_level w = Raised e' w' /\
    fs w' = fs w /\ actions w' = actions w.
Proof.
  intros Hrep. unfold sync_cycle, check_for_events, scan_events.
  assert (Hscan : reads (names <- listdir source_path ;;
                         for_each names (Events [] [] [])
                           (check_source_entry source_path replica_path)))
    by reads_tac.
  unfold reads in Hscan. specialize (Hscan w).
  unfold bind in *.
  destruct (listdir source_path w) as [names w1|e1 w1]; cbn in *;
    [|destruct Hscan; eauto].
  destruct (for_each names (Events [] [] [])
              (check_source_entry source_path replica_path) w1)
    as [ev w2|e2 w2]; cbn in *; [|destruct Hscan; eauto].
  destruct Hscan as [Hfs Hact].
  unfold listdir at 1. monad_unfold. rewrite Hfs, Hrep. cbn. eauto.
Qed.

(** ** What a whole cycle leaves in the replica *)

Lemma bind_done {A B} (m : M A) (k : A -> M B) (w w' : world) (b : B) :
  bind m k w = Done b w' ->
  exists a w1, m w = Done a w1 /\ k a w1 = Done b w'.
Proof.
  unfold bind. destruct (m w) as [a w1|e w1]; [eauto | discriminate].
Qed.

Lemma for_each_keeps {X A} (body : A -> X -> M A) (I : world -> Prop)
  (xs : list X) :
  (forall acc x w acc' w',
      In x xs -> I w -> body acc x w = Done acc' w' -> I w') ->
  forall acc w acc' w',
    I w -> for_each xs acc body w = Done acc' w' -> I w'.
Proof.
  induction xs as [|x xs IH]; intros Hbody acc w acc' w' HI Hrun; cbn in Hrun.
  - inversion Hrun. now subst.
  - apply bind_done in Hrun. destruct Hrun as (acc1 & w1 & Hx & Hrest).
    apply (IH (fun acc0 y w0 acc0' w0' Hy => Hbody acc0 y w0 acc0' w0' (or_intror Hy))
              acc1 w1 acc' w'); [|exact Hrest].
    eapply Hbody; [now left | exact HI | exact Hx].
Qed.

(** A new, empty directory brings no file into being. *)
Lemma put_dir_shrinks (now now' : Z) (c : string) (made : list string) :
  forall n p r m d,
    lookup (alter (put_entry now c (Dir now' [])) made n) p = inr (File r m d) ->
    lookup n p = inr (File r m d).
Proof.
  induction made as [|c0 made IH]; intros n p r m d Hl; cbn in Hl.
  - destruct n as [r0 m0 d0|m0 es]; [exact Hl|].
    destruct p as [|c' p]; [unfold put_entry in Hl; destruct (find_entry c es); discriminate|].
    assert (Hl' : lookup (Dir m0 (set_entry c (Dir now' []) es)) (c' :: p)
                  = inr (File r m d)).
    { unfold put_entry in Hl. now destruct (find_entry c es). }
    clear Hl. cbn in *.
    destruct (String.eqb_spec c c') as [<-|Hne].
    + rewrite find_entry_set_same in Hl'. destruct p; discriminate.
    + now rewrite find_entry_set_other in Hl'.
  - destruct n as [r0 m0 d0|m0 es]; [exact Hl|].
    destruct (find_entry c0 es) as [child|] eqn:Hc; [|exact Hl].
    destruct p as [|c' p]; [discriminate|]. cbn in *.
    destruct (String.eqb_spec c0 c') as [<-|Hne].
    + rewrite find_entry_set_same in Hl. rewrite Hc. now apply IH.
    + now rewrite find_entry_set_other in Hl.
Qed.

Lemma makedirs_from_shrinks (now : Z) (rest : list string) :
  forall made root root' p r m d,
    makedirs_from now made rest root = inr root' ->
    lookup root' p = inr (File r m d) -> lookup root p = inr (File r m d).
Proof.
  induction rest as [|c rest IH]; intros made root root' p r m d Hmk Hl; cbn in Hmk.
  - inversion Hmk. now subst.
  - destruct (lookup root (made ++ [c])) as [[]|[r0 m0 d0|m0 es]];
      try discriminate.
    + eapply put_dir_shrinks. eapply IH; eassumption.
    + eapply IH; eassumption.
Qed.

(** A written file is the only file that can be new. *)
Lemma put_file_new (now : Z) (name : string) (r0 : bool) (m0 : Z)
  (d0 : list byte) (parent : list string) :
  forall n p r m d,
    lookup (alter (put_entry now name (File r0 m0 d0)) parent n) p
    = inr (File r m d) ->
    p = parent ++ [name] \/ lookup n p = inr (File r m d).
Proof.
  induction parent as [|c0 parent IH]; intros n p r m d Hl; cbn in Hl.
  - destruct n as [r1 m1 d1|m1 es]; [now right|].
    destruct p as [|c' p]; [unfold put_entry in Hl; destruct (find_entry name es); discriminate|].
    assert (Hl' : lookup (Dir m1 (set_entry name (File r0 m0 d0) es)) (c' :: p)
                  = inr (File r m d)).
    { unfold put_entry in Hl. now destruct (find_entry name es). }
    clear Hl. cbn in *.
    destruct (String.eqb_spec name c') as [<-|Hne].
    + rewrite find_entry_set_same in Hl'.
      destruct p; [now left | discriminate].
    + right. now rewrite find_entry_set_other in Hl'.
  - destruct n as [r1 m1 d1|m1 es]; [now right|].
    destruct (find_entry c0 es) as [child|] eqn:Hc; [|now right].
    destruct p as [|c' p]; [discriminate|]. cbn in *.
    destruct (String.eqb_spec c0 c') as [<-|Hne].
    + rewrite find_entry_set_same in Hl. rewrite Hc.
      destruct (IH child p r m d Hl) as [->|H]; [now left | now right].
    + right. now rewrite find_entry_set_other in Hl.
Qed.

Lemma os_makedirs_done (name : string) (w w' : world) :
  os_makedirs name w = Done tt w' ->
  makedirs_from (clock w) [] (resolve name) (fs w) = inr (fs w').
Proof.
  unfold os_makedirs, path_exists. monad_unfold.
  destruct (String.eqb name EmptyString); [discriminate|]. cbn.
  destruct (makedirs_from (clock w) [] (resolve name) (fs w)) as [e|root'];
    cbn; [discriminate|].
  destruct (stat (fs w) name); cbn; intros E; inversion E; reflexivity.
Qed.

(** What a successful [open(p, 'wb')] did. *)
Lemma open_wb_done (p : string) (data : list byte) (w w' : world) :
  open_wb p data w = Done tt w' ->
  exists r,
    resolve p <> [] /\
    fs w' = alter (put_entry (clock w) (last (resolve p) EmptyString)
                             (File r (clock w) data))
                  (removelast (resolve p)) (fs w).
Proof.
  unfold open_wb. monad_unfold.
  destruct (String.eqb p EmptyString); [discriminate|].
  destruct (ends_with_sep p); [discriminate|].
  destruct (resolve p) as [|c cs]; [discriminate|]. cbv beta iota zeta.
  destruct (lookup (fs w) (removelast (c :: cs))) as [e|[r m d|m es]];
    cbn; try discriminate.
  destruct (find_entry (last (c :: cs) EmptyString) es) as [[r m' d|m' es']|];
    cbn; try discriminate; intros E; inversion E; cbn;
    eexists; (split; [discriminate | reflexivity]).
Qed.

Lemma open_rb_done (p : string) (w w' : world) (data : list byte) :
  open_rb p w = Done data w' ->
  w' = w /\ exists m, stat (fs w) p = inr (File true m data).
Proof.
  unfold open_rb. monad_unfold.
  destruct (stat (fs w) p) as [e|[[] m d|m es]]; cbn; try discriminate.
  intros E. inversion E. subst. eauto.
Qed.

Lemma shutil_copyfile_done (src dst : string) (w w' : world) :
  shutil_copyfile src dst w = Done tt w' ->
  exists r m data,
    stat (fs w) src = inr (File true m data) /\
    resolve dst <> [] /\
    fs w' = alter (put_entry (clock w) (last (resolve dst) EmptyString)
                             (File r (clock w) data))
                  (removelast (resolve dst)) (fs w).
Proof.
  unfold shutil_copyfile, copy_contents. intros H.
  apply bind_done in H. destruct H as ([] & w3 & Hcopy & Hrec).
  apply bind_done in Hcopy. destruct Hcopy as (same & w1 & Hsame & Hcopy).
  assert (w1 = w) by (unfold samefile in Hsame; monad_unfold; now inversion Hsame).
  subst w1. destruct same; [discriminate|].
  apply bind_done in Hcopy. destruct Hcopy as (data & w2 & Hread & Hwrite).
  destruct (open_rb_done _ _ _ _ Hread) as [-> [m Hm]].
  destruct (open_wb_done _ _ _ _ Hwrite) as (r & Hne & Hfs).
  unfold record in Hrec. inversion Hrec. cbn.
  exists r, m, data. now repeat split.
Qed.

Section Recopy.

Variables source_path replica_path : string.
Hypothesis roots : plain_roots source_path replica_path = true.

Let ok := tidy_name source_path replica_path.
Let good := fun w : world => tidy_disk source_path replica_path (fs w) = true.
Let T := pruned ok replica_path.
Let clean := fun w : world => no_orphans source_path replica_path (fs w).

Lemma pruned_no_orphans (w w' : world) : T w w' -> clean w -> clean w'.
Proof.
  intros [[Hframe _] Hshrink] Hclean names file (r & m & d & Hf).
  destruct (roots_inv _ _ roots) as (_ & _ & Hne).
  destruct (Hclean names file) as [n Hn].
  - exists r, m, d. now apply Hshrink.
  - exists n. now rewrite Hframe.
Qed.

Lemma os_remove_pruned (p : string) (q : list string) (w w' : world) :
  resolve p = replica_path :: q -> q <> [] -> good w ->
  os_remove p w = Done tt w' -> T w w'.
Proof.
  intros Hres Hq Hgood Hrm.
  destruct (os_remove_done _ _ _ Hrm) as (r & m & d & c & cs & Hstat & Hres' & Hfs).
  rewrite Hres in Hres'. inversion Hres'. subst c cs. clear Hres'.
  rewrite removelast_cons in Hfs by assumption.
  apply stat_file_inv in Hstat. destruct Hstat as (_ & _ & Hl). rewrite Hres in Hl.
  unfold good, tidy_disk in Hgood. apply andb_prop in Hgood.
  destruct Hgood as [_ Hrep]. unfold subtree_ok in Hrep.
  destruct (lookup (fs w) [replica_path]) as [e0|Rn] eqn:HR.
  { change (replica_path :: q) with ([replica_path] ++ q) in Hl.
    rewrite lookup_app, HR in Hl. discriminate. }
  unfold T, pruned. rewrite Hfs. split.
  - apply changed_below_alter. apply keeps_names_drop.
  - intros q' r' m' d' Hq'.
    rewrite (lookup_alter_head _ _ Rn) in Hq' by assumption.
    rewrite (lookup_head _ Rn) by assumption.
    now apply (drop_shrinks ok) in Hq'.
Qed.

Lemma os_makedirs_pruned (name : string) (q : list string) (w w' : world) :
  resolve name = replica_path :: q -> forallb ok q = true -> good w ->
  os_makedirs name w = Done tt w' -> T w w'.
Proof.
  intros Hres Hok Hgood Hmk. split.
  - pose proof (respects_os_makedirs source_path replica_path name q Hres Hok w Hgood)
      as HR.
    now rewrite Hmk in HR.
  - intros q' r m d Hl. apply os_makedirs_done in Hmk.
    eapply makedirs_from_shrinks; eassumption.
Qed.

Lemma recopy_file_keeps (names : list string) (file : string) (u : unit)
  (w w' : world) :
  forallb ok names = true -> ok file = true ->
  good w /\ clean w ->
  recopy_file source_path replica_path (path_str source_path names) u file w
  = Done tt w' ->
  good w' /\ clean w'.
Proof.
  intros Hnames Hfile [Hgood Hclean] Hrun.
  destruct (roots_inv _ _ roots) as (Hs & Hr & Hne).
  destruct (ok_all_inv _ _ names Hnames) as (Hvalid & _ & _).
  destruct (ok_inv _ _ file Hfile) as (Hfv & _ & _).
  pose proof (valid_name_inv replica_path Hr) as (Hr1 & _ & _ & Hr2).
  destruct (path_str_shape names replica_path Hr1
              (ends_with_sep_no_sep _ Hr2) Hvalid) as [Hshape1 Hshape2].
  assert (Hres : resolve (join (path_str replica_path names) file)
                 = replica_path :: names ++ [file]).
  { rewrite resolve_join, resolve_path_str, resolve_valid by assumption.
    reflexivity. }
  assert (Hq : names ++ [file] <> []) by now destruct names.
  split.
  { pose proof (respects_recopy_file source_path replica_path roots names file u
                  Hnames Hfile w Hgood) as HR.
    rewrite Hrun in HR. eapply tidy_step; eassumption. }
  unfold recopy_file in Hrun. rewrite recopy_target in Hrun by assumption.
  rewrite dirname_join in Hrun by assumption.
  apply bind_done in Hrun. destruct Hrun as (there & w0 & Hthere & Hrun).
  assert (w0 = w) by (unfold path_exists in Hthere; monad_unfold; now inversion Hthere).
  subst w0.
  apply bind_done in Hrun. destruct Hrun as ([] & w1 & Hremove & Hrun).
  apply bind_done in Hrun. destruct Hrun as ([] & w2 & Hmk & Hcopy).
  assert (HT1 : T w w1).
  { destruct there.
    - now apply os_remove_pruned with (p := join (path_str replica_path names) file)
                                      (q := names ++ [file]).
    - inversion Hremove. apply pruned_refl. }
  assert (Hgood1 : good w1) by (destruct HT1; eapply tidy_step; eassumption).
  assert (HT2 : T w1 w2).
  { apply os_makedirs_pruned with (name := path_str replica_path names) (q := names);
      try assumption.
    now rewrite resolve_path_str, resolve_valid. }
  pose proof (pruned_no_orphans _ _ HT2 (pruned_no_orphans _ _ HT1 Hclean)) as Hclean2.
  destruct (shutil_copyfile_done _ _ _ _ Hcopy) as (r & m & data & Hsrc & _ & Hfs).
  rewrite Hres in Hfs.
  destruct (removelast_snoc replica_path names file) as [Hrl Hl].
  rewrite Hrl, Hl in Hfs.
  rewrite stat_join in Hsrc by assumption.
  unfold clean, no_orphans.
  intros names' file' (r' & m' & d' & Hf). rewrite Hfs in Hf |- *.
  rewrite lookup_alter_apart by congruence.
  destruct (put_file_new _ _ _ _ _ _ _ _ _ _ _ Hf) as [E|Hbefore].
  - inversion E as [E']. rewrite E'. eauto.
  - apply Hclean2. now exists r', m', d'.
Qed.

Lemma recopy_pass_keeps (disk : node) (u : unit) (w w' : world) :
  tidy_disk source_path replica_path disk = true ->
  good w /\ clean w ->
  for_each (os_walk disk source_path) u (recopy_dir source_path replica_path) w
  = Done tt w' ->
  good w' /\ clean w'.
Proof.
  intros Hdisk HI Hrun.
  destruct (roots_inv _ _ roots) as (Hs & Hr & Hne).
  pose proof Hdisk as Hdisk'. unfold tidy_disk in Hdisk'.
  apply andb_prop in Hdisk'. destruct Hdisk' as [Hsrc _].
  refine (for_each_keeps _ (fun w0 => good w0 /\ clean w0) _ _ u w tt w' HI Hrun).
  intros acc item w0 acc' w0' Hin HI0 Hbody. destruct acc'.
  destruct (walk_items_ok ok disk source_path item Hs Hsrc Hin)
    as (names & m & es & _ & -> & Hnames & Hfiles).
  unfold recopy_dir in Hbody. rewrite forallb_forall in Hfiles.
  refine (for_each_keeps _ (fun w1 => good w1 /\ clean w1) _ _ tt w0 tt w0' HI0 Hbody).
  intros acc1 file w1 acc1' w1' Hfile HI1 Hstep. destruct acc1'.
  now apply (recopy_file_keeps names file acc1 w1 w1' Hnames (Hfiles file Hfile)).
Qed.

Lemma check_for_events_no_orphans (w w' : world) :
  good w ->
  events_found source_path replica_path w = true \/ clean w ->
  check_for_events source_path replica_path w = Done tt w' ->
  good w' /\ clean w'.
Proof.
  intros Hgood Hcase Hrun. split.
  { pose proof (respects_check_for_events source_path replica_path roots w Hgood)
      as HR.
    rewrite Hrun in HR. eapply tidy_step; eassumption. }
  unfold check_for_events in Hrun. unfold events_found in Hcase.
  apply bind_done in Hrun. destruct Hrun as (ev & w0 & Hscan & Hrun).
  rewrite Hscan in Hcase.
  destruct (reads_scan_events source_path replica_path w) as [Hfs _].
  rewrite Hscan in Hfs. cbn in Hfs.
  destruct (has_events ev).
  - apply bind_done in Hrun. destruct Hrun as ([] & w1 & Hsync & Hrun).
    apply bind_done in Hrun. destruct Hrun as (h & w2 & Hhash & Hlog).
    destruct (reads_get_folder_hash source_path w1) as [Hfs2 _].
    rewrite Hhash in Hfs2. cbn in Hfs2.
    unfold logging_info in Hlog. inversion Hlog. unfold clean. cbn. rewrite Hfs2.
    intros names file.
    apply (sync_folders_no_orphans source_path replica_path roots w0 w1);
      [now rewrite Hfs | exact Hsync].
  - inversion Hrun. subst w'. unfold clean. rewrite Hfs.
    destruct Hcase as [?|Hclean]; [discriminate | exact Hclean].
Qed.

Lemma sync_cycle_no_orphans (log_level : string) (w w' : world) :
  good w ->
  events_found source_path replica_path w = true \/ clean w ->
  sync_cycle source_path replica_path log_level w = Done tt w' ->
  clean w'.
Proof.
  intros Hgood Hcase Hrun. unfold sync_cycle in Hrun.
  apply bind_done in Hrun. destruct Hrun as ([] & w1 & Hcheck & Hrun).
  destruct (check_for_events_no_orphans w w1 Hgood Hcase Hcheck) as [Hgood1 Hclean1].
  apply bind_done in Hrun. destruct Hrun as (h1 & w2 & Hh1 & Hrun).
  destruct (reads_get_folder_hash source_path w1) as [Hfs2 _].
  rewrite Hh1 in Hfs2. cbn in Hfs2.
  apply bind_done in Hrun. destruct Hrun as (h2 & w3 & Hh2 & Hrun).
  destruct (reads_get_folder_hash replica_path w2) as [Hfs3 _].
  rewrite Hh2 in Hfs3. cbn in Hfs3.
  apply bind_done in Hrun. destruct Hrun as ([] & w4 & Hpass & Hlog).
  assert (HI3 : good w3 /\ clean w3).
  { unfold good, clean. rewrite Hfs3, Hfs2. now split. }
  assert (HI4 : good w4 /\ clean w4).
  { destruct (negb (String.eqb h1 h2)).
    - unfold bind at 1 in Hpass. unfold get_fs at 1 in Hpass.
      apply (recopy_pass_keeps (fs w3) tt w3 w4); [apply HI3 | exact HI3 | exact Hpass].
    - inversion Hpass. now subst. }
  assert (Hfs : fs w' = fs w4).
  { apply bind_done in Hlog. destruct Hlog as (now & w5 & Hnow & Hlog).
    inversion Hnow. subst.
    destruct (String.eqb log_level "DEBUG"); inversion Hlog; reflexivity. }
  unfold clean. rewrite Hfs. apply HI4.
Qed.

End Recopy.

(** ** The walk and the tree *)

Lemma tree_files_dir (m : Z) (es : list (string * node)) :
  tree_files (Dir m es)
  = filter (fun c => negb (is_dir c)) (map snd es)
      ++ flat_map (fun e => tree_files (snd e)) es.
Proof.
  cbn [tree_files]. f_equal.
  induction es as [|[k c] es IH]; cbn; [reflexivity|]. now rewrite IH.
Qed.

Lemma flat_map_flat_map {X Y Z0} (f : Y -> list Z0) (g : X -> list Y) (l : list X) :
  flat_map f (flat_map g l) = flat_map (fun x => flat_map f (g x)) l.
Proof.
  induction l as [|x l IH]; cbn; [reflexivity|].
  now rewrite flat_map_app, IH.
Qed.

Lemma flat_map_map {X Y Z0} (f : Y -> list Z0) (g : X -> Y) (l : list X) :
  flat_map f (map g l) = flat_map (fun x => f (g x)) l.
Proof. induction l as [|x l IH]; cbn; [reflexivity|]. now rewrite IH. Qed.

Lemma tree_files_are_files (n : node) :
  Forall (fun c => is_dir c = false) (tree_files n).
Proof.
  induction n as [r m d|m es IH] using node_induction; [constructor|].
  rewrite tree_files_dir. apply Forall_app. split.
  - apply Forall_forall. intros c Hc. apply filter_In in Hc.
    destruct Hc as [_ Hc]. now apply negb_true_iff in Hc.
  - induction IH as [|e es He _ IHes]; cbn; [constructor|].
    apply Forall_app. now split.
Qed.

(** [stat] of a file of a directory that is reached by valid names. *)
Lemma stat_entry (disk : node) (top : string) (names : list string)
  (m : Z) (es : list (string * node)) (f : string) :
  valid_name top = true -> forallb valid_name names = true -> valid_name f = true ->
  lookup disk (top :: names) = inr (Dir m es) ->
  stat disk (join (path_str top names) f) = lookup (Dir m es) [f].
Proof.
  intros Htop Hnames Hf Hl.
  rewrite stat_join by assumption.
  change (top :: names ++ [f]) with ((top :: names) ++ [f]).
  now rewrite lookup_app, Hl.
Qed.

Lemma entries_files_stats (es l : list (string * node)) (m : Z) :
  (forall e, In e l -> find_entry (fst e) es = Some (snd e)) ->
  map (fun f => lookup (Dir m es) [f]) (file_names l)
  = map inr (filter (fun c => negb (is_dir c)) (map snd l)).
Proof.
  unfold file_names.
  induction l as [|[k c] l IH]; intros Hin; cbn; [reflexivity|].
  destruct (is_dir c) eqn:Hc; cbn.
  - apply IH. intros e He. apply Hin. now right.
  - pose proof (Hin (k, c) (or_introl eq_refl)) as Hk. cbn in Hk.
    rewrite Hk. f_equal.
    apply IH. intros e He. apply Hin. now right.
Qed.

(** What [stat] finds at the paths a walk opens: the files of the tree,
    in the order [tree_files] lists them. *)
Lemma walk_node_stats (disk : node) (top : string) :
  valid_name top = true ->
  forall n names,
    forallb valid_name names = true ->
    well_named valid_name n = true ->
    lookup disk (top :: names) = inr n ->
    map (stat disk) (flat_map item_files (walk_node (path_str top names) n))
    = map inr (tree_files n).
Proof.
  intros Htop.
  induction n as [r m d|m es IH] using node_induction; intros names Hnames Hwn Hl;
    [reflexivity|].
  rewrite walk_node_dir, tree_files_dir. cbn [flat_map item_files].
  rewrite !map_app. 
  pose proof Hwn as Hwn'. rewrite well_named_dir in Hwn'.
  apply andb_prop in Hwn'. destruct Hwn' as [Hnr Hes].
  rewrite forallb_forall in Hes.
  assert (Hfind : forall e, In e es -> find_entry (fst e) es = Some (snd e)).
  { intros [k c] He. now apply in_find_entry. }
  f_equal.
  - rewrite map_map. rewrite <- (entries_files_stats es es m Hfind).
    apply map_ext_in. intros f Hf.
    apply (stat_entry disk top names m es f); try assumption.
    unfold file_names in Hf. apply in_map_iff in Hf.
    destruct Hf as (e & <- & He). apply filter_In in He. destruct He as [He _].
    specialize (Hes e He). apply andb_prop in Hes. tauto.
  - rewrite flat_map_flat_map.
    assert (Hall : forall l, (forall e, In e l -> In e es) ->
              map (stat disk)
                (flat_map (fun x => flat_map item_files
                             (walk_node (join (path_str top names) (fst x)) (snd x))) l)
              = map inr (flat_map (fun e => tree_files (snd e)) l));
      [|apply Hall; auto].
    induction l as [|e l IHl]; intros Hsub; cbn; [reflexivity|].
    rewrite !map_app. f_equal.
    + assert (He : In e es) by (apply Hsub; now left).
      rewrite Forall_forall in IH.
      specialize (Hes e He). apply andb_prop in Hes. destruct Hes as [Hk Hc].
      replace (join (path_str top names) (fst e))
        with (path_str top (names ++ [fst e]))
        by (now rewrite path_str_app).
      apply (IH e He (names ++ [fst e])).
      * rewrite forallb_app. cbn. now rewrite Hnames, Hk.
      * assumption.
      * change (top :: names ++ [fst e]) with ((top :: names) ++ [fst e]).
        rewrite lookup_app, Hl. cbn. now rewrite (Hfind e He).
    + apply IHl. intros e' He'. apply Hsub. now right.
Qed.

Lemma walk_files_stats (disk : node) (top : string) (n : node) :
  valid_name top = true ->
  lookup disk [top] = inr n ->
  well_named valid_name n = true ->
  map (stat disk) (walk_files disk top) = map inr (tree_files n).
Proof.
  intros Htop Hl Hwn. unfold walk_files, os_walk.
  rewrite stat_plain by assumption. rewrite Hl.
  now apply (walk_node_stats disk top Htop n []).
Qed.

(** The hash loops, on paths that name regular files. *)
Lemma hash_files_outcome (w : world) (root : string) :
  forall files hash,
    Forall (fun p => exists c, stat (fs w) p = inr c /\ is_dir c = false)
           (map (join root) files) ->
    for_each files hash (hash_file root) w
    = if forallb (fun file => can_read (fs w) (join root file)) files
      then Done (hash ++ flat_map (fun file => file_bytes (fs w) (join root file)) files) w
      else Raised PermissionError w.
Proof.
  induction files as [|file files IH]; intros hash Hall; cbn.
  - unfold ret. now rewrite app_nil_r.
  - inversion Hall as [|p ps (c & Hc & Hfile) Hrest]; subst.
    unfold bind. destruct (can_read (fs w) (join root file)) eqn:Hread; cbn.
    + rewrite hash_file_readable by assumption.
      rewrite (IH _ Hrest).
      destruct (forallb _ files); [now rewrite app_assoc | reflexivity].
    + unfold can_read in Hread. unfold hash_file, open_rb. monad_unfold.
      rewrite Hc in *. cbn. destruct c as [r m d|m es]; [|discriminate].
      now destruct r.
Qed.

Lemma hash_items_outcome (w : world) :
  forall items hash,
    Forall (fun p => exists c, stat (fs w) p = inr c /\ is_dir c = false)
           (flat_map item_files items) ->
    for_each items hash hash_dir w
    = if forallb (item_readable (fs w)) items
      then Done (hash ++ flat_map (item_bytes (fs w)) items) w
      else Raised PermissionError w.
Proof.
  induction items as [|[[root dirs] files] items IH]; intros hash Hall; cbn.
  - unfold ret. now rewrite app_nil_r.
  - cbn in Hall. apply Forall_app in Hall. destruct Hall as [Hfiles Hrest].
    unfold bind.
    change (hash_dir hash (root, dirs, files))
      with (for_each files hash (hash_file root)).
    rewrite (hash_files_outcome w root files hash Hfiles).
    destruct (forallb _ files); cbn; [|reflexivity].
    rewrite (IH _ Hrest).
    destruct (forallb _ items); [now rewrite app_assoc | reflexivity].
Qed.

Lemma walk_stream_files (disk : node) (folder : string) :
  walk_stream disk folder = flat_map (file_bytes disk) (walk_files disk folder).
Proof.
  unfold walk_stream, walk_files. rewrite flat_map_flat_map.
  apply flat_map_ext. intros [[root dirs] files]. cbn.
  now rewrite flat_map_map.
Qed.

Lemma all_readable_files (disk : node) (folder : string) :
  all_readable disk folder = forallb (can_read disk) (walk_files disk folder).
Proof.
  unfold all_readable, walk_files.
  induction (os_walk disk folder) as [|[[root dirs] files] items IH]; cbn;
    [reflexivity|].
  rewrite forallb_app, IH. f_equal.
  induction files as [|file files IHf]; cbn; [reflexivity|]. now rewrite IHf.
Qed.

Lemma stats_bytes (disk : node) (paths : list string) (files : list node) :
  map (stat disk) paths = map inr files ->
  flat_map (file_bytes disk) paths = flat_map node_bytes files.
Proof.
  revert files. induction paths as [|p paths IH]; intros [|c files] E;
    try discriminate; [reflexivity|].
  cbn in *. inversion E as [[Hp Hrest]].
  unfold file_bytes at 1. rewrite Hp. rewrite (IH _ Hrest).
  now destruct c.
Qed.

Lemma stats_readable (disk : node) (paths : list string) (files : list node) :
  Forall (fun c => is_dir c = false) files ->
  map (stat disk) paths = map inr files ->
  forallb (can_read disk) paths = forallb node_readable files.
Proof.
  revert files. induction paths as [|p paths IH]; intros [|c files] Hf E;
    try discriminate; [reflexivity|].
  cbn in *. inversion E as [[Hp Hrest]]. inversion Hf; subst.
  unfold can_read at 1. rewrite Hp. rewrite (IH files) by assumption.
  destruct c as [[] m d|m es]; [reflexivity | reflexivity | discriminate].
Qed.

Lemma stats_are_files (disk : node) (paths : list string) (files : list node) :
  Forall (fun c => is_dir c = false) files ->
  map (stat disk) paths = map inr files ->
  Forall (fun p => exists c, stat disk p = inr c /\ is_dir c = false) paths.
Proof.
  revert files. induction paths as [|p paths IH]; intros [|c files] Hf E;
    try discriminate; constructor.
  - cbn in E. inversion E. inversion Hf; subst. now exists c.
  - cbn in E. inversion E. inversion Hf; subst. now apply (IH files).
Qed.

(** The digest of a folder, read off its tree. *)
Lemma get_folder_hash_tree (w : world) (folder : string) (n : node) :
  valid_name folder = true ->
  lookup (fs w) [folder] = inr n ->
  well_named valid_name n = true ->
  get_folder_hash folder w
  = if tree_readable n
    then Done (MD5.hexdigest (tree_bytes n)) w
    else Raised PermissionError w.
Proof.
  intros Htop Hl Hwn.
  pose proof (walk_files_stats (fs w) folder n Htop Hl Hwn) as Hstats.
  pose proof (tree_files_are_files n) as Hfiles.
  unfold get_folder_hash. monad_unfold. cbn.
  rewrite hash_items_outcome
    by (apply (stats_are_files _ _ (tree_files n)); assumption).
  fold (all_readable (fs w) folder). fold (walk_stream (fs w) folder).
  rewrite all_readable_files, walk_stream_files.
  rewrite (stats_readable _ _ _ Hfiles Hstats), (stats_bytes _ _ _ Hstats).
  fold (tree_readable n). fold (tree_bytes n).
  now destruct (tree_readable n).
Qed.

(** ** Roots that cannot be listed *)

Lemma listdir_raises (w : world) (p : string) (e : exn) :
  listdir_error (fs w) p = Some e -> listdir p w = Raised e w.
Proof.
  unfold listdir_error, listdir. monad_unfold.
  destruct (stat (fs w) p) as [e'|[r m d|m es]]; cbn; intros H;
    inversion H; reflexivity.
Qed.

Lemma listdir_returns (w : world) (p : string) :
  listdir_error (fs w) p = None ->
  exists names, listdir p w = Done names w.
Proof.
  unfold listdir_error, listdir. monad_unfold.
  destruct (stat (fs w) p) as [e'|[r m d|m es]]; cbn; intros H;
    try discriminate. now exists (map fst es).
Qed.

Lemma isfile_returns (w : world) (p : string) :
  exists b, isfile p w = Done b w.
Proof. unfold isfile. monad_unfold. eexists. reflexivity. Qed.

(** While the replica cannot be listed, the loop over the source entries
    finds nothing and writes nothing: it ends at the first regular file, in
    the exception of the listing. *)
Lemma source_scan_without_replica (source_path replica_path : string)
  (w : world) (e : exn) :
  listdir_error (fs w) replica_path = Some e ->
  forall names ev,
    for_each names ev (check_source_entry source_path replica_path) w = Done ev w \/
    for_each names ev (check_source_entry source_path replica_path) w = Raised e w.
Proof.
  intros Hr. induction names as [|filename names IH]; intros ev; cbn.
  - now left.
  - assert (H : check_source_entry source_path replica_path ev filename w = Done ev w \/
                check_source_entry source_path replica_path ev filename w = Raised e w).
    { unfold check_source_entry, bind.
      destruct (isfile_returns w (join source_path filename)) as [b ->].
      destruct b; [|now left].
      rewrite (listdir_raises _ _ _ Hr). now right. }
    unfold bind. destruct H as [-> | ->]; [apply IH | now right].
Qed.

(** ** Any number of passes *)

Lemma respects_main_loop (source_path replica_path : string)
  (interval : Z) (log_level : string) :
  plain_roots source_path replica_path = true ->
  forall n,
    respects (fun d => tidy_disk source_path replica_path d = true)
      (changed_below (tidy_name source_path replica_path) replica_path)
      (main_loop n source_path replica_path interval log_level).
Proof.
  intros Hroots. induction n as [|k IH]; cbn.
  - apply below_ret.
  - apply (below_bind _ _ Hroots); [now apply respects_sync_cycle|].
    intros _. apply (below_bind _ _ Hroots); [|intros _; exact IH].
    apply respects_reads, reads_time_sleep.
Qed.

Lemma kept_main_loop (source_path replica_path : string)
  (interval : Z) (log_level : string) :
  forall n,
    respects (fun _ => True) dirs_kept
      (main_loop n source_path replica_path interval log_level).
Proof.
  induction n as [|k IH]; cbn.
  - apply kept_ret.
  - apply kept_bind; [apply kept_sync_cycle|].
    intros _. apply kept_bind; [|intros _; exact IH].
    apply kept_reads, reads_time_sleep.
Qed.

(** ** Reasoning about what a call records *)

Section Always.

Variable T : world -> world -> Prop.
Hypothesis T_refl : forall w, T w w.
Hypothesis T_trans : forall w1 w2 w3, T w1 w2 -> T w2 w3 -> T w1 w3.

Lemma always_ret {A} (a : A) : always T (ret a).
Proof. intros w. apply T_refl. Qed.

Lemma always_raise {A} (e : exn) : always T (@raise A e).
Proof. intros w. apply T_refl. Qed.

Lemma always_bind {A B} (m : M A) (k : A -> M B) :
  always T m -> (forall a, always T (k a)) -> always T (bind m k).
Proof.
  intros Hm Hk w. unfold bind. specialize (Hm w).
  destruct (m w) as [a w1|e w1]; cbn in *; [|exact Hm].
  eapply T_trans; [exact Hm | apply Hk].
Qed.

Lemma always_for_each {X A} (body : A -> X -> M A) (xs : list X) :
  (forall acc x, always T (body acc x)) ->
  forall acc, always T (for_each xs acc body).
Proof.
  intros Hbody. induction xs as [|x xs IH]; intros acc; cbn.
  - apply always_ret.
  - apply always_bind; [apply Hbody | intros acc'; apply IH].
Qed.

End Always.

Lemma quiet_refl (w : world) : quiet w w.
Proof. now repeat split. Qed.

Lemma quiet_trans (w1 w2 w3 : world) : quiet w1 w2 -> quiet w2 w3 -> quiet w1 w3.
Proof.
  intros (H1 & H2 & H3 & H4) (K1 & K2 & K3 & K4).
  repeat split; congruence.
Qed.

Lemma told_refl (w : world) : told w w.
Proof.
  split; [reflexivity|]. exists [], []. now rewrite !app_nil_r.
Qed.

Lemma told_trans (w1 w2 w3 : world) : told w1 w2 -> told w2 w3 -> told w1 w3.
Proof.
  intros (Hc & la & lm & Ha & Hl & Hp & Hch) (Hc' & la' & lm' & Ha' & Hl' & Hp' & Hch').
  split; [congruence|].
  exists (la ++ la'), (lm ++ lm').
  rewrite Ha', Hl', Hp', Ha, Hl, Hp, !app_assoc.
  repeat split. unfold changes_told, changes_done in *.
  rewrite !flat_map_app. congruence.
Qed.

Lemma quiet_told (w w' : world) : quiet w w' -> told w w'.
Proof.
  intros (Hc & Hl & Hp & Ha). split; [assumption|].
  exists [], []. rewrite Ha, Hl, Hp, !app_nil_r. now repeat split.
Qed.

Lemma always_weaken (T T' : world -> world -> Prop) {A} (m : M A) :
  (forall w w', T w w' -> T' w w') -> always T m -> always T' m.
Proof. intros H Hm w. apply H, Hm. Qed.

(** The calls that record nothing. *)

Lemma quiet_get_fs : always quiet get_fs.
Proof. intros w. apply quiet_refl. Qed.

Lemma quiet_set_fs (n : node) : always quiet (set_fs n).
Proof. intros w. now repeat split. Qed.

Lemma quiet_time_now : always quiet time_now.
Proof. intros w. apply quiet_refl. Qed.

Lemma quiet_lift {A} (r : exn + A) : always quiet (lift r).
Proof. intros w. destruct r; apply quiet_refl. Qed.

Ltac quiet_tac :=
  repeat first
    [ progress intros
    | assumption
    | apply always_ret; [apply quiet_refl]
    | apply always_raise; [apply quiet_refl]
    | apply quiet_get_fs
    | apply quiet_set_fs
    | apply quiet_time_now
    | apply quiet_lift
    | apply always_bind; [apply quiet_trans | |]
    | match goal with
      | |- always _ (if ?b then _ else _) => destruct b
      | |- always _ (match ?x with _ => _ end) => destruct x
      end ].

Lemma quiet_path_exists (p : string) : always quiet (path_exists p).
Proof. unfold path_exists. quiet_tac. Qed.

Lemma quiet_isfile (p : string) : always quiet (isfile p).
Proof. unfold isfile. quiet_tac. Qed.

Lemma quiet_isdir (p : string) : always quiet (isdir p).
Proof. unfold isdir. quiet_tac. Qed.

Lemma quiet_st_mtime (p : string) : always quiet (st_mtime p).
Proof. unfold st_mtime. quiet_tac. Qed.

Lemma quiet_listdir (p : string) : always quiet (listdir p).
Proof. unfold listdir. quiet_tac. Qed.

Lemma quiet_open_rb (p : string) : always quiet (open_rb p).
Proof. unfold open_rb. quiet_tac. Qed.

Lemma quiet_open_wb (p : string) (data : list byte) : always quiet (open_wb p data).
Proof.
  unfold open_wb.
  apply always_bind; [apply quiet_trans | apply quiet_get_fs | intros root].
  apply always_bind; [apply quiet_trans | apply quiet_time_now | intros now].
  destruct (String.eqb p EmptyString); [quiet_tac|].
  destruct (ends_with_sep p); [quiet_tac|].
  destruct (resolve p) as [|c cs]; [quiet_tac|].
  cbv beta iota zeta. quiet_tac.
Qed.

Lemma quiet_samefile (src dst : string) : always quiet (samefile src dst).
Proof. unfold samefile. quiet_tac. Qed.

Lemma quiet_copy_contents (src dst : string) : always quiet (copy_contents src dst).
Proof.
  unfold copy_contents.
  apply always_bind; [apply quiet_trans | apply quiet_samefile | intros same].
  destruct same; [quiet_tac|].
  apply always_bind; [apply quiet_trans | apply quiet_open_rb | intros data].
  apply quiet_open_wb.
Qed.

Lemma quiet_copystat (src dst : string) : always quiet (copystat src dst).
Proof. unfold copystat. quiet_tac. Qed.

(** The calls that record. *)

Lemma shutil_copy2_records (src dst : string) (w : world) :
  match shutil_copy2 src dst w with
  | Done _ w' =>
      clock w' = clock w /\ logged w' = logged w /\ printed w' = printed w /\
      exists dst', actions w' = actions w ++ [Copy2 src dst']
  | Raised _ w' => quiet w w'
  end.
Proof.
  unfold shutil_copy2. unfold bind at 1.
  pose proof (quiet_isdir dst w) as H1.
  destruct (isdir dst w) as [d w1|e w1]; cbn in H1; [|exact H1].
  set (dst' := if d then join dst (basename src) else dst).
  unfold bind at 1.
  pose proof (quiet_copy_contents src dst' w1) as H2.
  destruct (copy_contents src dst' w1) as [[] w2|e w2]; cbn in H2;
    [|exact (quiet_trans _ _ _ H1 H2)].
  unfold bind at 1.
  pose proof (quiet_copystat src dst' w2) as H3.
  destruct (copystat src dst' w2) as [[] w3|e w3]; cbn in H3;
    [|exact (quiet_trans _ _ _ H1 (quiet_trans _ _ _ H2 H3))].
  destruct (quiet_trans _ _ _ H1 (quiet_trans _ _ _ H2 H3)) as (Hc & Hl & Hp & Ha).
  unfold record. cbn. repeat split; try assumption.
  exists dst'. now rewrite Ha.
Qed.

Lemma os_remove_records (p : string) (w : world) :
  match os_remove p w with
  | Done _ w' =>
      clock w' = clock w /\ logged w' = logged w /\ printed w' = printed w /\
      actions w' = actions w ++ [Remove p]
  | Raised _ w' => quiet w w'
  end.
Proof.
  unfold os_remove. monad_unfold.
  destruct (stat (fs w) p) as [e|[r m d|m es]]; cbn; try apply quiet_refl.
  destruct (resolve p) as [|c cs]; cbn; [apply quiet_refl|].
  now repeat split.
Qed.

Lemma os_makedirs_records (name : string) (w : world) :
  clock (final (os_makedirs name w)) = clock w /\
  logged (final (os_makedirs name w)) = logged w /\
  printed (final (os_makedirs name w)) = printed w /\
  exists la,
    actions (final (os_makedirs name w)) = actions w ++ la /\
    filter is_copy la = [] /\ changes_done la = [].
Proof.
  unfold os_makedirs, path_exists. monad_unfold.
  destruct (String.eqb name EmptyString); cbn.
  - repeat split. exists []. now rewrite app_nil_r.
  - destruct (makedirs_from (clock w) [] (resolve name) (fs w)) as [e|root']; cbn.
    + repeat split. exists []. now rewrite app_nil_r.
    + destruct (stat (fs w) name); cbn; repeat split.
      * now exists [Makedirs name].
      * exists []. now rewrite app_nil_r.
Qed.

Lemma told_os_makedirs (name : string) : always told (os_makedirs name).
Proof.
  intros w. destruct (os_makedirs_records name w) as (Hc & Hl & Hp & la & Ha & _ & Hch).
  split; [assumption|]. exists la, [].
  rewrite Ha, Hl, Hp, !app_nil_r. repeat split. now rewrite Hch.
Qed.

Lemma told_pair (msg : message) :
  change_of_message msg = [] ->
  always told (logging_info msg ;; print msg).
Proof.
  intros Hmsg w. cbn. split; [reflexivity|].
  exists [], [msg]. rewrite app_nil_r. repeat split.
  unfold changes_told. cbn. now rewrite Hmsg.
Qed.

(** A copy and its two lines; a removal and its two lines. *)
Lemma told_copy {A} (src dst replica_file : string) (a : A) :
  always told
    (shutil_copy2 src dst ;;
     logging_info (FileCopied src replica_file) ;;
     print (FileCopied src replica_file) ;;
     ret a).
Proof.
  intros w. unfold bind at 1.
  pose proof (shutil_copy2_records src dst w) as H.
  destruct (shutil_copy2 src dst w) as [[] w1|e w1]; [|now apply quiet_told].
  destruct H as (Hc & Hl & Hp & dst' & Ha). cbn.
  split; [assumption|].
  exists [Copy2 src dst'], [FileCopied src replica_file].
  rewrite Ha, Hl, Hp. now repeat split.
Qed.

Lemma told_remove (p : string) :
  always told (os_remove p ;; logging_info (FileRemoved p) ;; print (FileRemoved p)).
Proof.
  intros w. unfold bind at 1.
  pose proof (os_remove_records p w) as H.
  destruct (os_remove p w) as [[] w1|e w1]; [|now apply quiet_told].
  destruct H as (Hc & Hl & Hp & Ha). cbn.
  split; [assumption|].
  exists [Remove p], [FileRemoved p].
  rewrite Ha, Hl, Hp. now repeat split.
Qed.

Lemma told_quiet {A} (m : M A) : always quiet m -> always told m.
Proof. apply always_weaken. exact quiet_told. Qed.

Lemma told_bind {A B} (m : M A) (k : A -> M B) :
  always told m -> (forall a, always told (k a)) -> always told (bind m k).
Proof. apply always_bind. exact told_trans. Qed.

Lemma told_for_each {X A} (body : A -> X -> M A) (xs : list X) :
  (forall acc x, always told (body acc x)) ->
  forall acc, always told (for_each xs acc body).
Proof. apply always_for_each; [exact told_refl | exact told_trans]. Qed.

Lemma told_sync_file (root replica_root : string) (acc : bool) (file : string) :
  always told (sync_file root replica_root acc file).
Proof.
  unfold sync_file.
  apply told_bind; [apply told_quiet, quiet_path_exists | intros there].
  apply told_bind.
  - apply told_quiet. destruct there; cbn.
    + apply always_bind; [apply quiet_trans | apply quiet_st_mtime | intros s].
      apply always_bind; [apply quiet_trans | apply quiet_st_mtime | intros r].
      apply always_ret, quiet_refl.
    + apply always_ret, quiet_refl.
  - intros [|]; [apply told_copy | apply always_ret, told_refl].
Qed.

Lemma told_sync_dir (source_path replica_path : string) (acc : bool)
  (item : walk_item) :
  always told (sync_dir source_path replica_path acc item).
Proof.
  destruct item as [[root dirs] files]. unfold sync_dir.
  apply told_bind; [apply told_os_makedirs | intros _].
  apply told_for_each. intros acc' file. apply told_sync_file.
Qed.

Lemma told_prune_file (source_root replica_root : string) (u : unit)
  (file : string) :
  always told (prune_file source_root replica_root u file).
Proof.
  unfold prune_file.
  apply told_bind; [apply told_quiet, quiet_path_exists | intros there].
  destruct there; cbn; [apply always_ret, told_refl | apply told_remove].
Qed.

Lemma told_prune_dir (source_path replica_path : string) (u : unit)
  (item : walk_item) :
  always told (prune_dir source_path replica_path u item).
Proof.
  destruct item as [[root dirs] files]. unfold prune_dir.
  apply told_for_each. intros acc' file. apply told_prune_file.
Qed.

Lemma told_sync_folders (source_path replica_path : string) :
  always told (sync_folders source_path replica_path).
Proof.
  unfold sync_folders.
  apply told_bind; [apply told_quiet, quiet_get_fs | intros disk].
  apply told_bind; [apply told_for_each; intros; apply told_sync_dir | intros acc].
  apply told_bind; [apply told_quiet, quiet_get_fs | intros disk'].
  apply told_bind; [apply told_for_each; intros; apply told_prune_dir | intros _].
  destruct acc; [|apply always_ret, told_refl].
  apply told_bind; [apply told_quiet, quiet_time_now | intros now].
  now apply told_pair.
Qed.

(** *** Counting copies and [Sync complete] lines *)

Lemma always_done (T : world -> world -> Prop) {A} (m : M A) (w w' : world) (a : A) :
  always T m -> m w = Done a w' -> T w w'.
Proof. intros H E. specialize (H w). now rewrite E in H. Qed.

Lemma for_each_acc {X A} (body : A -> X -> M A) (P : A -> world -> Prop)
  (xs : list X) :
  (forall acc x w acc' w', P acc w -> body acc x w = Done acc' w' -> P acc' w') ->
  forall acc w acc' w',
    P acc w -> for_each xs acc body w = Done acc' w' -> P acc' w'.
Proof.
  intros Hbody. induction xs as [|x xs IH]; intros acc w acc' w' HP Hrun; cbn in Hrun.
  - unfold ret in Hrun. inversion Hrun; subst. exact HP.
  - apply bind_done in Hrun. destruct Hrun as (acc1 & w1 & H1 & H2).
    exact (IH _ _ _ _ (Hbody _ _ _ _ _ HP H1) H2).
Qed.

Lemma quiet_counts (w w' : world) :
  quiet w w' -> copies w' = copies w /\ sync_completes w' = sync_completes w.
Proof.
  intros (_ & Hl & _ & Ha). unfold copies, sync_completes. now rewrite Hl, Ha.
Qed.

Lemma sync_file_counts (root replica_root : string) (acc acc' : bool)
  (file : string) (w w' : world) :
  sync_file root replica_root acc file w = Done acc' w' ->
  sync_completes w' = sync_completes w /\
  ((acc' = true /\ copies w' = S (copies w)) \/
   (acc' = acc /\ copies w' = copies w)).
Proof.
  unfold sync_file. intros Hrun.
  apply bind_done in Hrun. destruct Hrun as (there & w1 & H1 & Hrun).
  apply (always_done quiet _ _ _ _ (quiet_path_exists _)) in H1.
  apply bind_done in Hrun. destruct Hrun as (stale & w2 & H2 & Hrun).
  assert (Hq2 : quiet w1 w2).
  { destruct there; cbn in H2.
    - apply bind_done in H2. destruct H2 as (s & wa & Ha & H2).
      apply (always_done quiet _ _ _ _ (quiet_st_mtime _)) in Ha.
      apply bind_done in H2. destruct H2 as (r & wb & Hb & H2).
      apply (always_done quiet _ _ _ _ (quiet_st_mtime _)) in Hb.
      unfold ret in H2. inversion H2; subst.
      exact (quiet_trans _ _ _ Ha Hb).
    - unfold ret in H2. inversion H2; subst. apply quiet_refl. }
  destruct (quiet_counts _ _ (quiet_trans _ _ _ H1 Hq2)) as [Hcop Hsc].
  destruct stale.
  - apply bind_done in Hrun. destruct Hrun as ([] & w3 & H3 & Hrun).
    pose proof (shutil_copy2_records (join root file) (join replica_root file) w2) as Hrec.
    rewrite H3 in Hrec. destruct Hrec as (_ & Hl & _ & dst' & Ha).
    cbn in Hrun. inversion Hrun; subst. clear Hrun.
    unfold copies, sync_completes in *. cbn.
    rewrite Hl, Ha, !filter_app, !length_app. cbn. split; [lia|]. left. split; [reflexivity|lia].
  - unfold ret in Hrun. inversion Hrun; subst. split; [assumption|]. now right.
Qed.

Lemma copy_files_counts (root replica_root : string) (files : list string)
  (w0 : world) :
  forall acc w acc' w',
    for_each files acc (sync_file root replica_root) w = Done acc' w' ->
    sync_completes w = sync_completes w0 /\ (copies w0 <= copies w)%nat /\
    acc = (copies w0 <? copies w)%nat ->
    sync_completes w' = sync_completes w0 /\ (copies w0 <= copies w')%nat /\
    acc' = (copies w0 <? copies w')%nat.
Proof.
  intros acc w acc' w' Hrun HP. revert acc w acc' w' HP Hrun.
  apply (for_each_acc (sync_file root replica_root)
           (fun acc w => sync_completes w = sync_completes w0 /\
                         (copies w0 <= copies w)%nat /\
                         acc = (copies w0 <? copies w)%nat)).
  intros acc file w acc' w' (Hsc & Hle & Hacc) Hstep.
  destruct (sync_file_counts _ _ _ _ _ _ _ Hstep) as (Hsc' & [[-> Hc]|[-> Hc]]).
  - repeat split; [congruence | lia |].
    symmetry. apply Nat.ltb_lt. lia.
  - rewrite Hc. repeat split; [congruence | assumption | assumption].
Qed.

Lemma copy_pass_counts (source_path replica_path : string)
  (items : list walk_item) (w0 : world) :
  forall acc w acc' w',
    for_each items acc (sync_dir source_path replica_path) w = Done acc' w' ->
    sync_completes w = sync_completes w0 /\ (copies w0 <= copies w)%nat /\
    acc = (copies w0 <? copies w)%nat ->
    sync_completes w' = sync_completes w0 /\ (copies w0 <= copies w')%nat /\
    acc' = (copies w0 <? copies w')%nat.
Proof.
  intros acc w acc' w' Hrun HP. revert acc w acc' w' HP Hrun.
  apply (for_each_acc (sync_dir source_path replica_path)
           (fun acc w => sync_completes w = sync_completes w0 /\
                         (copies w0 <= copies w)%nat /\
                         acc = (copies w0 <? copies w)%nat)).
  intros acc [[root dirs] files] w acc' w' (Hsc & Hle & Hacc) Hstep.
  unfold sync_dir in Hstep.
  apply bind_done in Hstep. destruct Hstep as ([] & w1 & Hmk & Hfiles).
  destruct (os_makedirs_records (replace root source_path replica_path) w)
    as (_ & Hl & _ & la & Ha & Hnone & _).
  rewrite Hmk in Hl, Ha. cbn in Hl, Ha.
  apply (copy_files_counts _ _ _ w0 _ _ _ _ Hfiles).
  unfold copies, sync_completes in *.
  rewrite Hl, Ha, filter_app, Hnone, app_nil_r. now repeat split.
Qed.

Lemma prune_file_counts (source_root replica_root : string) (u u' : unit)
  (file : string) (w w' : world) :
  prune_file source_root replica_root u file w = Done u' w' ->
  copies w' = copies w /\ sync_completes w' = sync_completes w.
Proof.
  unfold prune_file. intros Hrun.
  apply bind_done in Hrun. destruct Hrun as (there & w1 & H1 & Hrun).
  apply (always_done quiet _ _ _ _ (quiet_path_exists _)) in H1.
  destruct (quiet_counts _ _ H1) as [Hc Hs].
  destruct there; cbn in Hrun.
  - unfold ret in Hrun. inversion Hrun; subst. now split.
  - apply bind_done in Hrun. destruct Hrun as ([] & w2 & H2 & Hrun).
    pose proof (os_remove_records (join replica_root file) w1) as Hrec.
    rewrite H2 in Hrec. destruct Hrec as (_ & Hl & _ & Ha).
    cbn in Hrun. inversion Hrun; subst. clear Hrun.
    unfold copies, sync_completes in *. cbn.
    rewrite Hl, Ha, !filter_app, !length_app. cbn. lia.
Qed.

Lemma prune_pass_counts (source_path replica_path : string)
  (items : list walk_item) (u u' : unit) (w w' : world) :
  for_each items u (prune_dir source_path replica_path) w = Done u' w' ->
  copies w' = copies w /\ sync_completes w' = sync_completes w.
Proof.
  intros Hrun.
  apply (for_each_acc (prune_dir source_path replica_path)
           (fun _ w1 => copies w1 = copies w /\ sync_completes w1 = sync_completes w)
           items) with (acc := u) (w := w) (acc' := u'); [|now split|assumption].
  intros acc [[root dirs] files] w1 acc' w2 HP Hstep.
  unfold prune_dir in Hstep. revert HP Hstep.
  generalize tt at 1. intros u0 HP Hstep. revert u0 w1 acc' w2 HP Hstep.
  apply (for_each_acc (prune_file (replace root replica_path source_path) root)
           (fun _ w1 => copies w1 = copies w /\ sync_completes w1 = sync_completes w)).
  intros a file wa a' wb [Hc Hs] Hfile.
  destruct (prune_file_counts _ _ _ _ _ _ _ Hfile) as [Hc' Hs'].
  split; congruence.
Qed.

Lemma sync_folders_counts (source_path replica_path : string) (w w' : world) :
  sync_folders source_path replica_path w = Done tt w' ->
  sync_completes w'
  = (sync_completes w + if (copies w <? copies w')%nat then 1 else 0)%nat.
Proof.
  unfold sync_folders. intros Hrun.
  apply bind_done in Hrun. destruct Hrun as (disk & w0 & H0 & Hrun).
  unfold get_fs in H0. inversion H0; subst disk w0. clear H0.
  apply bind_done in Hrun. destruct Hrun as (acc & w1 & Hcopy & Hrun).
  apply bind_done in Hrun. destruct Hrun as (disk & w1' & H0 & Hrun).
  unfold get_fs in H0. inversion H0; subst disk w1'. clear H0.
  apply bind_done in Hrun. destruct Hrun as ([] & w2 & Hprune & Hrun).
  destruct (copy_pass_counts _ _ _ w _ _ _ _ Hcopy) as (Hs1 & Hle & Hacc).
  { repeat split; [lia|]. symmetry. apply Nat.ltb_irrefl. }
  destruct (prune_pass_counts _ _ _ _ _ _ _ Hprune) as [Hc2 Hs2].
  destruct acc.
  - cbn in Hrun. inversion Hrun; subst. clear Hrun.
    match goal with
    | |- context [copies ?x] => change (copies x) with (copies w2)
    end.
    rewrite Hc2, <- Hacc.
    unfold sync_completes in *. cbn.
    rewrite filter_app, length_app. cbn. lia.
  - unfold ret in Hrun. inversion Hrun; subst.
    rewrite Hc2, <- Hacc. lia.
Qed.

(** ** Checks of the library model against CPython *)

Example md5_empty :
  MD5.hexdigest [] = "d41d8cd98f00b204e9800998ecf8427e".
Proof. vm_compute. reflexivity. Qed.

Example md5_abc :
  MD5.hexdigest (list_byte_of_string "abc") = "900150983cd24fb0d6963f7d28e17f72".
Proof. vm_compute. reflexivity. Qed.

Example md5_two_blocks :
  MD5.hexdigest (repeat "a"%byte 70) = "0f5c6c4e740bfcc08c3c26ccb2673d46".
Proof. vm_compute. reflexivity. Qed.

Example join_plain : join "src" "a.txt" = "src/a.txt".
Proof. reflexivity. Qed.

Example join_trailing_sep : join "src/" "sub" = "src/sub".
Proof. reflexivity. Qed.

Example replace_prefix : replace "src/sub" "src" "dst" = "dst/sub".
Proof. reflexivity. Qed.

Example replace_every_occurrence : replace "s/s" "s" "r" = "r/r".
Proof. reflexivity. Qed.

Example replace_trailing_sep : replace "src/sub" "src/" "dst" = "dstsub".
Proof. reflexivity. Qed.

Example relpath_below : relpath "src/sub/a.txt" "src/" = "sub/a.txt".
Proof. reflexivity. Qed.

Example dirname_basename :
  dirname "dst/sub/a.txt" = "dst/sub" /\ basename "dst/sub/a.txt" = "a.txt".
Proof. split; reflexivity. Qed.

Example replace_left_to_right : replace "aaa" "aa" "b" = "ba".
Proof. reflexivity. Qed.

Example replace_empty_pattern : replace "abc" EmptyString "-" = "-a-b-c-".
Proof. reflexivity. Qed.

Example join_absolute : join "a" "/b" = "/b".
Proof. reflexivity. Qed.

Example dirname_doubled_sep : dirname "a//b" = "a" /\ dirname "a.txt" = EmptyString.
Proof. split; reflexivity. Qed.

Example relpath_same : relpath "src" "src" = ".".
Proof. reflexivity. Qed.

(** ** The scan of [check_for_events] *)

Lemma say_nil (w : world) : say [] w = w.
Proof. destruct w. unfold say. cbn. now rewrite !app_nil_r. Qed.

Lemma say_app (a b : list message) (w : world) : say b (say a w) = say (a ++ b) w.
Proof. unfold say. cbn. now rewrite !app_assoc. Qed.

Lemma stat_top_entry (disk : node) (top : string) (m : Z)
  (es : list (string * node)) (f : string) :
  valid_name top = true -> valid_name f = true ->
  lookup disk [top] = inr (Dir m es) ->
  stat disk (join top f)
  = match find_entry f es with
    | Some c => inr c
    | None => inl FileNotFoundError
    end.
Proof.
  intros Htop Hf Hl.
  pose proof (stat_entry disk top [] m es f Htop eq_refl Hf Hl) as H.
  cbn [path_str] in H. rewrite H. cbn.
  now destruct (find_entry f es).
Qed.

Lemma name_in_find (f : string) (es : list (string * node)) :
  name_in f (map fst es) = true -> exists c, find_entry f es = Some c.
Proof.
  intros H. apply name_in_iff in H.
  destruct (find_entry f es) as [c|] eqn:E; [now exists c|].
  now apply find_entry_none in E.
Qed.

Lemma isfile_eval (p : string) (w : world) :
  isfile p w
  = Done (match stat (fs w) p with inr (File _ _ _) => true | _ => false end) w.
Proof. reflexivity. Qed.

Lemma st_mtime_eval (p : string) (w : world) (n : node) :
  stat (fs w) p = inr n -> st_mtime p w = Done (node_mtime n) w.
Proof. intros H. unfold st_mtime. monad_unfold. now rewrite H. Qed.

Section Scan.

Variables source_path replica_path : string.
Variable disk : node.
Variables (ms mr : Z) (src rep : list (string * node)).
Hypothesis source_plain : valid_name source_path = true.
Hypothesis replica_plain : valid_name replica_path = true.
Hypothesis source_listing : lookup disk [source_path] = inr (Dir ms src).
Hypothesis replica_listing : lookup disk [replica_path] = inr (Dir mr rep).

Lemma listdir_source (w : world) :
  fs w = disk -> listdir source_path w = Done (map fst src) w.
Proof.
  intros Hw. unfold listdir. monad_unfold.
  rewrite Hw, stat_plain, source_listing by assumption. reflexivity.
Qed.

Lemma listdir_replica (w : world) :
  fs w = disk -> listdir replica_path w = Done (map fst rep) w.
Proof.
  intros Hw. unfold listdir. monad_unfold.
  rewrite Hw, stat_plain, replica_listing by assumption. reflexivity.
Qed.

Lemma check_source_entry_dir (ev : events) (f : string) (w : world)
  (m : Z) (es : list (string * node)) :
  fs w = disk -> valid_name f = true ->
  find_entry f src = Some (Dir m es) ->
  check_source_entry source_path replica_path ev f w = Done ev w.
Proof.
  intros Hw Hf Hfind. unfold check_source_entry, isfile. monad_unfold.
  rewrite Hw, (stat_top_entry disk source_path ms src f) by assumption.
  now rewrite Hfind.
Qed.

Lemma check_source_entry_file (ev : events) (f : string) (w : world)
  (r : bool) (m : Z) (d : list byte) :
  fs w = disk -> valid_name f = true ->
  find_entry f src = Some (File r m d) ->
  check_source_entry source_path replica_path ev f w
  = Done (Events (new_file ev ++ filter (is_new rep) [f])
                 (file_modified ev ++ filter (is_newer src rep) [f])
                 (file_removed ev))
         (say (event_line source_path src rep f) w).
Proof.
  intros Hw Hf Hfind. unfold check_source_entry. unfold bind at 1.
  rewrite isfile_eval, Hw.
  rewrite (stat_top_entry disk source_path ms src f) by assumption.
  rewrite Hfind. unfold bind at 1. rewrite listdir_replica by assumption.
  unfold event_line, is_newer, is_new. cbn [filter].
  destruct (name_in f (map fst rep)) eqn:Hin; cbn [negb andb].
  - destruct (name_in_find _ _ Hin) as [c Hc].
    unfold bind at 1.
    rewrite (st_mtime_eval _ w (File r m d))
      by (rewrite Hw, (stat_top_entry disk source_path ms src f), Hfind;
          trivial).
    unfold bind at 1.
    rewrite (st_mtime_eval _ w c)
      by (rewrite Hw, (stat_top_entry disk replica_path mr rep f), Hc;
          trivial).
    unfold entry_mtime. rewrite Hfind, Hc. cbn [node_mtime].
    destruct (m >? node_mtime c).
    + now rewrite app_nil_r.
    + unfold ret. rewrite !app_nil_r. rewrite say_nil. now destruct ev.
  - cbn. now rewrite app_nil_r.
Qed.

Lemma source_scan (w0 : world) :
  fs w0 = disk ->
  forall l ev w,
    fs w = disk ->
    (forall e, In e l ->
       find_entry (fst e) src = Some (snd e) /\ valid_name (fst e) = true) ->
    for_each (map fst l) ev (check_source_entry source_path replica_path) w
    = Done (Events (new_file ev ++ filter (is_new rep) (file_names l))
                   (file_modified ev ++ filter (is_newer src rep) (file_names l))
                   (file_removed ev))
           (say (flat_map (event_line source_path src rep) (file_names l)) w).
Proof.
  intros _. induction l as [|[f c] l IH]; intros ev w Hw Hl; cbn.
  - unfold ret. rewrite !app_nil_r, say_nil. now destruct ev.
  - destruct (Hl (f, c) (or_introl eq_refl)) as [Hfind Hf]. cbn in Hfind, Hf.
    unfold bind. unfold file_names. cbn [filter snd map].
    destruct c as [r m d|m es]; cbn [is_dir negb].
    + rewrite (check_source_entry_file ev f w r m d Hw Hf Hfind).
      rewrite IH; [|exact Hw|intros e He; apply Hl; now right].
      cbn [new_file file_modified file_removed].
      rewrite say_app. fold (file_names l). cbn [map fst flat_map].
      rewrite <- !app_assoc.
      f_equal. f_equal.
      * f_equal. cbn [filter]. now destruct (is_new rep f).
      * f_equal. cbn [filter]. now destruct (is_newer src rep f).
    + rewrite (check_source_entry_dir ev f w m es Hw Hf Hfind).
      apply IH; [assumption|intros e He; apply Hl; now right].
Qed.

Lemma check_replica_entry_dir (ev : events) (f : string) (w : world)
  (m : Z) (es : list (string * node)) :
  fs w = disk -> valid_name f = true ->
  find_entry f rep = Some (Dir m es) ->
  check_replica_entry source_path replica_path ev f w = Done ev w.
Proof.
  intros Hw Hf Hfind. unfold check_replica_entry, isfile. monad_unfold.
  rewrite Hw, (stat_top_entry disk replica_path mr rep f) by assumption.
  now rewrite Hfind.
Qed.

Lemma check_replica_entry_file (ev : events) (f : string) (w : world)
  (r : bool) (m : Z) (d : list byte) :
  fs w = disk -> valid_name f = true ->
  find_entry f rep = Some (File r m d) ->
  check_replica_entry source_path replica_path ev f w
  = Done (Events (new_file ev) (file_modified ev)
                 (file_removed ev ++ filter (is_new src) [f]))
         w.
Proof.
  intros Hw Hf Hfind. unfold check_replica_entry. unfold bind at 1.
  rewrite isfile_eval, Hw.
  rewrite (stat_top_entry disk replica_path mr rep f) by assumption.
  rewrite Hfind. unfold bind at 1. rewrite listdir_source by assumption.
  unfold is_new. cbn [filter].
  destruct (name_in f (map fst src)); cbn [negb]; unfold ret.
  - rewrite app_nil_r. now destruct ev.
  - reflexivity.
Qed.

Lemma replica_scan :
  forall l ev w,
    fs w = disk ->
    (forall e, In e l ->
       find_entry (fst e) rep = Some (snd e) /\ valid_name (fst e) = true) ->
    for_each (map fst l) ev (check_replica_entry source_path replica_path) w
    = Done (Events (new_file ev) (file_modified ev)
                   (file_removed ev ++ filter (is_new src) (file_names l)))
           w.
Proof.
  induction l as [|[f c] l IH]; intros ev w Hw Hl; cbn.
  - unfold ret. rewrite !app_nil_r. now destruct ev.
  - destruct (Hl (f, c) (or_introl eq_refl)) as [Hfind Hf]. cbn in Hfind, Hf.
    unfold bind. unfold file_names. cbn [filter snd map].
    destruct c as [r m d|m es]; cbn [is_dir negb].
    + rewrite (check_replica_entry_file ev f w r m d Hw Hf Hfind).
      rewrite IH; [|assumption|intros e He; apply Hl; now right].
      cbn [new_file file_modified file_removed].
      fold (file_names l). cbn [map fst].
      rewrite <- !app_assoc. do 2 f_equal.
      cbn [filter]. now destruct (is_new src f).
    + rewrite (check_replica_entry_dir ev f w m es Hw Hf Hfind).
      apply IH; [assumption|intros e He; apply Hl; now right].
Qed.

Hypothesis source_names : forallb valid_name (map fst src) = true.
Hypothesis replica_names : forallb valid_name (map fst rep) = true.
Hypothesis source_distinct : no_repeat (map fst src) = true.
Hypothesis replica_distinct : no_repeat (map fst rep) = true.

Lemma listing_entries (es : list (string * node)) :
  forallb valid_name (map fst es) = true -> no_repeat (map fst es) = true ->
  forall e, In e es -> find_entry (fst e) es = Some (snd e) /\ valid_name (fst e) = true.
Proof.
  intros Hvalid Hnr [k c] He. split.
  - now apply in_find_entry.
  - rewrite forallb_forall in Hvalid. apply Hvalid.
    apply in_map_iff. now exists (k, c).
Qed.

Lemma scan_events_found (w : world) :
  fs w = disk ->
  scan_events source_path replica_path w
  = Done (found_events src rep) (say (scan_report source_path src rep) w).
Proof.
  intros Hw. unfold scan_events. unfold bind at 1.
  rewrite listdir_source by assumption.
  unfold bind at 1.
  rewrite (source_scan w Hw src (Events [] [] []) w Hw
             (listing_entries src source_names source_distinct)).
  cbn [new_file file_modified file_removed app].
  unfold bind at 1. rewrite listdir_replica by (cbn; assumption).
  rewrite replica_scan;
    [reflexivity | cbn; assumption | apply listing_entries; assumption].
Qed.

End Scan.

(** ** A mirrored replica *)

Lemma bytes_eqb_eq (a b : list byte) : bytes_eqb a b = true -> a = b.
Proof.
  revert b. induction a as [|x a IH]; intros [|y b] H; cbn in H;
    try discriminate; [reflexivity|].
  apply andb_prop in H. destruct H as [Hx Hrest].
  apply Byte.byte_dec_bl in Hx. subst y. f_equal. now apply IH.
Qed.

Lemma mirrors_dir (m m' : Z) (es es' : list (string * node)) :
  mirrors (Dir m es) (Dir m' es') = true <-> Forall2 entry_mirrors es es'.
Proof.
  cbn [mirrors]. revert es'.
  induction es as [|[k c] es IH]; intros [|[k' c'] es']; split; intros H;
    try discriminate; try constructor; try (now inversion H).
  - rewrite !andb_true_iff in H. destruct H as [[Hk Hc] Hrest].
    apply String.eqb_eq in Hk. now split.
  - rewrite !andb_true_iff in H. destruct H as [_ Hrest]. now apply IH.
  - inversion H as [|? ? ? ? [Hk Hc] Hrest]; subst. cbn in Hk, Hc. subst k'.
    rewrite String.eqb_refl, Hc. cbn. now apply IH.
Qed.

Lemma mirrors_names (es es' : list (string * node)) :
  Forall2 entry_mirrors es es' -> map fst es = map fst es'.
Proof.
  induction 1 as [|e e' es es' [Hk _] _ IH]; cbn; [reflexivity|]. now f_equal.
Qed.

Lemma mirrors_kind (a b : node) : mirrors a b = true -> is_dir a = is_dir b.
Proof. destruct a, b; cbn; intros H; try discriminate; reflexivity. Qed.

Lemma mirrors_file_names (es es' : list (string * node)) :
  Forall2 entry_mirrors es es' -> file_names es = file_names es'.
Proof.
  unfold file_names.
  induction 1 as [|[k c] [k' c'] es es' [Hk Hc] _ IH]; cbn; [reflexivity|].
  cbn in Hk, Hc. subst k'. rewrite <- (mirrors_kind _ _ Hc).
  destruct (is_dir c); cbn; now rewrite IH.
Qed.

Lemma mirrors_find (es es' : list (string * node)) (f : string) (c : node) :
  Forall2 entry_mirrors es es' ->
  find_entry f es = Some c ->
  exists c', find_entry f es' = Some c' /\ mirrors c c' = true.
Proof.
  induction 1 as [|[k x] [k' x'] es es' [Hk Hx] _ IH]; cbn; [discriminate|].
  cbn in Hk, Hx. subst k'.
  destruct (String.eqb k f); [|exact IH].
  intros E. inversion E; subst. now exists x'.
Qed.

(** The bytes of a mirror are the bytes of its source. *)
Lemma mirrors_bytes (a : node) :
  forall b, mirrors a b = true -> tree_bytes a = tree_bytes b.
Proof.
  unfold tree_bytes.
  induction a as [r m d|m es IH] using node_induction; intros [r' m' d'|m' es'] H;
    try discriminate; [reflexivity|].
  apply mirrors_dir in H. rewrite !tree_files_dir, !flat_map_app.
  f_equal.
  - clear IH. induction H as [|[k c] [k' c'] es es' [_ Hc] _ IHes]; cbn;
      [reflexivity|].
    cbn in Hc. destruct c as [r x d|x l], c' as [r' x' d'|x' l']; cbn in *;
      try discriminate.
    + apply andb_prop in Hc. destruct Hc as [_ Hd].
      apply bytes_eqb_eq in Hd. subst d'. now rewrite IHes.
    + exact IHes.
  - rewrite !flat_map_flat_map.
    induction H as [|[k c] [k' c'] es es' [_ Hc] _ IHes]; cbn; [reflexivity|].
    inversion IH as [|? ? Hhead Htail]; subst. cbn in Hhead, Hc.
    rewrite (Hhead c' Hc). f_equal. now apply IHes.
Qed.

Lemma mirrors_well_named (ok : string -> bool) (a : node) :
  forall b, mirrors a b = true -> well_named ok a = true -> well_named ok b = true.
Proof.
  induction a as [r m d|m es IH] using node_induction; intros [r' m' d'|m' es'] H;
    try discriminate; [reflexivity|].
  apply mirrors_dir in H. rewrite !well_named_dir.
  rewrite <- (mirrors_names _ _ H).
  intros Hwn. apply andb_prop in Hwn. destruct Hwn as [Hnr Hes].
  rewrite Hnr. cbn. clear Hnr.
  induction H as [|[k c] [k' c'] es es' [Hk Hc] _ IHes]; cbn; [reflexivity|].
  cbn in Hk, Hc, Hes. subst k'.
  inversion IH as [|? ? Hhead Htail]; subst. cbn in Hhead.
  rewrite !andb_true_iff in Hes. destruct Hes as [[Hok Hwc] Hrest].
  rewrite Hok, (Hhead c' Hc Hwc). cbn. now apply IHes.
Qed.

(** Between a source listing and the listing of its mirror, the scan finds
    no event and writes no line. *)
Lemma mirrors_no_events (src rep : list (string * node)) :
  no_repeat (map fst src) = true ->
  Forall2 entry_mirrors src rep ->
  forall f, In f (file_names src) ->
    is_new rep f = false /\ is_newer src rep f = false.
Proof.
  intros Hnr Hm f Hf.
  assert (Hin : In f (map fst src)).
  { unfold file_names in Hf. apply in_map_iff in Hf.
    destruct Hf as (e & <- & He). apply filter_In in He.
    apply in_map. tauto. }
  unfold is_new, is_newer. rewrite <- (mirrors_names _ _ Hm).
  apply name_in_iff in Hin. rewrite Hin. split; [reflexivity|]. cbn.
  unfold file_names in Hf. apply in_map_iff in Hf.
  destruct Hf as ([k c] & Hk & He). cbn in Hk. subst k.
  apply filter_In in He. destruct He as [He Hfile]. cbn in Hfile.
  pose proof (in_find_entry f c src Hnr He) as Hfind.
  destruct (mirrors_find _ _ _ _ Hm Hfind) as (c' & Hfind' & Hc).
  unfold entry_mtime. rewrite Hfind, Hfind'.
  destruct c as [r m d|m es]; [|discriminate].
  destruct c' as [r' m' d'|m' es']; [|discriminate].
  cbn in *. apply andb_prop in Hc. destruct Hc as [Hle _].
  apply Z.leb_le in Hle. rewrite Z.gtb_ltb. apply Z.ltb_ge. exact Hle.
Qed.

Lemma filter_none {X} (p : X -> bool) (l : list X) :
  (forall x, In x l -> p x = false) -> filter p l = [].
Proof.
  induction l as [|x l IH]; intros H; cbn; [reflexivity|].
  rewrite (H x) by now left. apply IH. intros y Hy. apply H. now right.
Qed.

Lemma mirrors_found_nothing (source_path : string) (src rep : list (string * node)) :
  no_repeat (map fst src) = true ->
  Forall2 entry_mirrors src rep ->
  found_events src rep = Events [] [] [] /\ scan_report source_path src rep = [].
Proof.
  intros Hnr Hm. pose proof (mirrors_no_events src rep Hnr Hm) as Hnone.
  split.
  - unfold found_events. f_equal.
    + apply filter_none. intros f Hf. now destruct (Hnone f Hf).
    + apply filter_none. intros f Hf. now destruct (Hnone f Hf).
    + apply filter_none. intros f Hf. unfold is_new.
      rewrite (mirrors_names _ _ Hm).
      assert (Hin : In f (map fst rep)).
      { unfold file_names in Hf. apply in_map_iff in Hf.
        destruct Hf as (e & <- & He). apply filter_In in He.
        apply in_map. tauto. }
      apply name_in_iff in Hin. now rewrite Hin.
  - unfold scan_report.
    induction (file_names src) as [|f fs IH]; cbn; [reflexivity|].
    unfold event_line at 1.
    destruct (Hnone f (or_introl eq_refl)) as [-> ->]. cbn.
    apply IH. intros g Hg. apply Hnone. now right.
Qed.

Lemma well_named_top (ok : string -> bool) (m : Z) (es : list (string * node)) :
  well_named ok (Dir m es) = true ->
  forallb ok (map fst es) = true /\ no_repeat (map fst es) = true.
Proof.
  rewrite well_named_dir. intros H. apply andb_prop in H. destruct H as [Hnr Hes].
  split; [|assumption].
  rewrite forallb_forall in *. intros k Hk. apply in_map_iff in Hk.
  destruct Hk as (e & <- & He). specialize (Hes e He).
  apply andb_prop in Hes. tauto.
Qed.

(** A cycle on a mirrored replica. *)
Lemma mirrored_cycle (source_path replica_path log_level : string) (w : world)
  (ms mr : Z) (src rep : list (string * node)) :
  valid_name source_path = true -> valid_name replica_path = true ->
  lookup (fs w) [source_path] = inr (Dir ms src) ->
  lookup (fs w) [replica_path] = inr (Dir mr rep) ->
  well_named valid_name (Dir ms src) = true ->
  tree_readable (Dir ms src) = true ->
  tree_readable (Dir mr rep) = true ->
  mirrors (Dir ms src) (Dir mr rep) = true ->
  sync_cycle source_path replica_path log_level w
  = Done tt (if String.eqb log_level "DEBUG" then w
             else World (fs w) (clock w)
                        (logged w ++ [FoldersSynchronizedAt (clock w)])
                        (printed w) (actions w)).
Proof.
  intros Hs Hr Hls Hlr Hwn Hreads Hreadr Hm.
  pose proof (mirrors_well_named valid_name _ _ Hm Hwn) as Hwn'.
  pose proof (mirrors_bytes _ _ Hm) as Hbytes.
  destruct (well_named_top _ _ _ Hwn) as [Hvs Hnrs].
  destruct (well_named_top _ _ _ Hwn') as [Hvr Hnrr].
  destruct (mirrors_found_nothing source_path src rep Hnrs
              (proj1 (mirrors_dir _ _ _ _) Hm)) as [Hev Hrep].
  unfold sync_cycle, check_for_events. unfold bind at 1 2.
  rewrite (scan_events_found source_path replica_path (fs w) ms mr src rep
             Hs Hr Hls Hlr Hvs Hvr Hnrs Hnrr w eq_refl).
  rewrite Hev, Hrep, say_nil. cbn [has_events new_file file_modified file_removed
                                   nonempty orb].
  unfold ret at 1. unfold bind at 1.
  rewrite (get_folder_hash_tree w source_path _ Hs Hls Hwn), Hreads.
  unfold bind at 1.
  rewrite (get_folder_hash_tree w replica_path _ Hr Hlr Hwn'), Hreadr.
  rewrite Hbytes, String.eqb_refl. cbn [negb].
  unfold bind, ret, time_now, logging_debug, logging_info.
  now destruct (String.eqb log_level "DEBUG").
Qed.

(** Any number of passes on a mirrored replica. *)
Lemma mirrored_loop (source_path replica_path log_level : string) (interval : Z)
  (ms mr : Z) (src rep : list (string * node)) (disk : node) :
  valid_name source_path = true -> valid_name replica_path = true ->
  lookup disk [source_path] = inr (Dir ms src) ->
  lookup disk [replica_path] = inr (Dir mr rep) ->
  well_named valid_name (Dir ms src) = true ->
  tree_readable (Dir ms src) = true ->
  tree_readable (Dir mr rep) = true ->
  mirrors (Dir ms src) (Dir mr rep) = true ->
  forall n w,
    fs w = disk ->
    exists w',
      main_loop n source_path replica_path interval log_level w = Done tt w' /\
      fs w' = disk /\ actions w' = actions w /\ printed w' = printed w /\
      clock w' = clock w + Z.of_nat n * (interval * one_second).
Proof.
  intros Hs Hr Hls Hlr Hwn Hreads Hreadr Hm.
  induction n as [|k IH]; intros w Hw.
  - exists w. cbn. repeat split; try assumption. lia.
  - cbn [main_loop]. unfold bind at 1.
    rewrite (mirrored_cycle source_path replica_path log_level w ms mr src rep)
      by (try rewrite Hw; assumption).
    set (w1 := if String.eqb log_level "DEBUG" then w
               else World (fs w) (clock w)
                          (logged w ++ [FoldersSynchronizedAt (clock w)])
                          (printed w) (actions w)).
    assert (H1 : fs w1 = disk /\ actions w1 = actions w /\
                 printed w1 = printed w /\ clock w1 = clock w).
    { unfold w1. destruct (String.eqb log_level "DEBUG"); cbn; now repeat split. }
    destruct H1 as (Hf1 & Ha1 & Hp1 & Hc1).
    unfold bind at 1. unfold time_sleep at 1.
    match goal with
    | |- context [main_loop k _ _ _ _ ?x] =>
        destruct (IH x) as (w' & Hrun & Hf & Ha & Hp & Hc); [exact Hf1|]
    end.
    exists w'. rewrite Hrun. cbn in Ha, Hp, Hc.
    repeat split; try congruence.
    rewrite Hc, Hc1. lia.
Qed.

(** ** Lookups beside a change *)

Lemma is_prefix_app (a t : list string) : is_prefix a (a ++ t) = true.
Proof. induction a as [|x a IH]; cbn; [reflexivity|]. now rewrite String.eqb_refl. Qed.

Lemma is_prefix_inv (a b : list string) :
  is_prefix a b = true -> exists t, b = a ++ t.
Proof.
  revert b. induction a as [|x a IH]; intros b H; [now exists b|].
  destruct b as [|y b]; [discriminate|]. cbn in H.
  apply andb_prop in H. destruct H as [Hx Hrest].
  apply String.eqb_eq in Hx. subst y.
  destruct (IH _ Hrest) as [t ->]. now exists t.
Qed.

Lemma is_prefix_refl (a : list string) : is_prefix a a = true.
Proof. rewrite <- (app_nil_r a) at 2. apply is_prefix_app. Qed.

Lemma is_prefix_trans (a b c : list string) :
  is_prefix a b = true -> is_prefix b c = true -> is_prefix a c = true.
Proof.
  intros H1 H2. apply is_prefix_inv in H1. apply is_prefix_inv in H2.
  destruct H1 as [t ->]. destruct H2 as [t' ->].
  rewrite <- app_assoc. apply is_prefix_app.
Qed.

Lemma is_prefix_cons (c : string) (a b : list string) :
  is_prefix (c :: a) (c :: b) = is_prefix a b.
Proof. cbn. now rewrite String.eqb_refl. Qed.

(** Below a regular file there is nothing, and a path of a tree holds one
    entry. *)
Lemma file_has_no_entries (d : node) (a b : list string)
  (r : bool) (m : Z) (data : list byte) (x : node) :
  lookup d a = inr (File r m data) -> lookup d b = inr x ->
  is_prefix a b = true -> a = b.
Proof.
  intros Ha Hb Hp. apply is_prefix_inv in Hp. destruct Hp as [t ->].
  rewrite lookup_app, Ha in Hb.
  destruct t; [now rewrite app_nil_r | discriminate].
Qed.

Lemma lookup_alter_elsewhere (f : node -> node) (q : list string) :
  forall n p,
    is_prefix q p = false ->
    (forall m es, lookup n p <> inr (Dir m es)) ->
    lookup (alter f q n) p = lookup n p.
Proof.
  induction q as [|a q IH]; intros n p Hp Hnd; [discriminate|].
  cbn [alter]. destruct n as [r m d|m es]; [reflexivity|].
  destruct (find_entry a es) as [child|] eqn:Hfind; [|reflexivity].
  destruct p as [|c p]; [now destruct (Hnd m es)|].
  cbn [lookup]. cbn in Hp.
  destruct (String.eqb a c) eqn:Hac.
  - apply String.eqb_eq in Hac. subst c.
    rewrite find_entry_set_same, Hfind.
    apply IH; [assumption|].
    intros m' es' H. apply (Hnd m' es'). cbn. now rewrite Hfind.
  - apply String.eqb_neq in Hac. now rewrite find_entry_set_other.
Qed.

Lemma lookup_put_elsewhere (now : Z) (name : string) (v : node)
  (parent : list string) :
  forall n p,
    is_prefix (parent ++ [name]) p = false ->
    is_prefix p parent = false \/ (forall m es, lookup n p <> inr (Dir m es)) ->
    lookup (alter (put_entry now name v) parent n) p = lookup n p.
Proof.
  induction parent as [|a parent IH]; intros n p Hp Hside.
  - cbn [alter]. destruct n as [r m d|m es]; [reflexivity|].
    destruct p as [|c p].
    + destruct Hside as [H|H]; [discriminate | now destruct (H m es)].
    + cbn in Hp. rewrite andb_true_r in Hp. apply String.eqb_neq in Hp.
      unfold put_entry.
      destruct (find_entry name es); cbn [lookup];
        now rewrite find_entry_set_other.
  - cbn [alter]. destruct n as [r m d|m es]; [reflexivity|].
    destruct (find_entry a es) as [child|] eqn:Hfind; [|reflexivity].
    destruct p as [|c p].
    + destruct Hside as [H|H]; [discriminate | now destruct (H m es)].
    + cbn [lookup]. cbn in Hp.
      destruct (String.eqb a c) eqn:Hac.
      * apply String.eqb_eq in Hac. subst c.
        rewrite find_entry_set_same, Hfind. cbn in Hp.
        apply IH; [assumption|].
        destruct Hside as [H|H].
        -- left. cbn in H. now rewrite String.eqb_refl in H.
        -- right. intros m' es' E. apply (H m' es'). cbn. now rewrite Hfind.
      * apply String.eqb_neq in Hac. now rewrite find_entry_set_other.
Qed.

Lemma lookup_drop_elsewhere (now : Z) (name : string) (parent : list string) :
  forall n p,
    is_prefix (parent ++ [name]) p = false ->
    (forall m es, lookup n p <> inr (Dir m es)) ->
    lookup (alter (drop_entry now name) parent n) p = lookup n p.
Proof.
  induction parent as [|a parent IH]; intros n p Hp Hnd.
  - cbn [alter]. destruct n as [r m d|m es]; [reflexivity|].
    destruct p as [|c p]; [now destruct (Hnd m es)|].
    cbn in Hp. rewrite andb_true_r in Hp. apply String.eqb_neq in Hp.
    cbn [drop_entry lookup]. now rewrite find_entry_del_other.
  - cbn [alter]. destruct n as [r m d|m es]; [reflexivity|].
    destruct (find_entry a es) as [child|] eqn:Hfind; [|reflexivity].
    destruct p as [|c p]; [now destruct (Hnd m es)|].
    cbn [lookup]. cbn in Hp.
    destruct (String.eqb a c) eqn:Hac.
    + apply String.eqb_eq in Hac. subst c.
      rewrite find_entry_set_same, Hfind. cbn in Hp.
      apply IH; [assumption|].
      intros m' es' E. apply (Hnd m' es'). cbn. now rewrite Hfind.
    + apply String.eqb_neq in Hac. now rewrite find_entry_set_other.
Qed.

(** Below a directory that has just been made there is nothing. *)
Lemma lookup_put_below (now now' : Z) (name : string) (parent : list string) :
  forall n c tail,
    lookup n (parent ++ [name]) = inl FileNotFoundError ->
    lookup (alter (put_entry now name (Dir now' [])) parent n)
           (parent ++ name :: c :: tail)
    = inl FileNotFoundError.
Proof.
  induction parent as [|a parent IH]; intros n c tail Hmiss.
  - cbn [app] in *. cbn [alter]. destruct n as [r m d|m es]; [discriminate|].
    cbn in Hmiss. destruct (find_entry name es) eqn:Hfind; [discriminate|].
    unfold put_entry. rewrite Hfind. cbn [lookup].
    now rewrite find_entry_set_same.
  - cbn [app] in *. cbn [alter]. destruct n as [r m d|m es]; [discriminate|].
    cbn [lookup] in Hmiss.
    destruct (find_entry a es) as [child|] eqn:Hfind.
    + cbn [lookup]. rewrite find_entry_set_same. now apply IH.
    + cbn [lookup]. now rewrite Hfind.
Qed.

Lemma is_prefix_app_false (p a b : list string) :
  is_prefix p (a ++ b) = false -> is_prefix p a = false.
Proof.
  intros H. destruct (is_prefix p a) eqn:Hp; [|reflexivity].
  apply is_prefix_inv in Hp. destruct Hp as [t ->].
  now rewrite <- app_assoc, is_prefix_app in H.
Qed.

(** [os.makedirs] changes nothing at a path that is not on its way. *)
Lemma makedirs_from_elsewhere (now : Z) (rest : list string) :
  forall made root root' p,
    makedirs_from now made rest root = inr root' ->
    is_prefix p (made ++ rest) = false ->
    lookup root' p = lookup root p.
Proof.
  induction rest as [|c rest IH]; intros made root root' p Hmk Hp; cbn in Hmk.
  - now inversion Hmk.
  - replace (made ++ c :: rest) with ((made ++ [c]) ++ rest) in Hp
      by (now rewrite <- app_assoc).
    destruct (lookup root (made ++ [c])) as [e|[r m d|m es]] eqn:Hl.
    + destruct e; try discriminate.
      rewrite (IH _ _ _ p Hmk Hp).
      destruct (is_prefix (made ++ [c]) p) eqn:Hpre.
      * apply is_prefix_inv in Hpre. destruct Hpre as [t ->].
        destruct t as [|c' tail].
        { rewrite app_nil_r in Hp.
          now rewrite is_prefix_app in Hp. }
        rewrite <- app_assoc. cbn [app].
        rewrite lookup_put_below by assumption.
        replace (made ++ c :: c' :: tail) with ((made ++ [c]) ++ c' :: tail)
          by (now rewrite <- app_assoc).
        now rewrite lookup_app, Hl.
      * apply lookup_put_elsewhere; [assumption|].
        left. apply is_prefix_app_false in Hp.
        now apply is_prefix_app_false in Hp.
    + destruct rest; discriminate.
    + exact (IH _ _ _ p Hmk Hp).
Qed.

(** After [os.makedirs] the path is a directory. *)
Lemma makedirs_from_made (now : Z) (rest : list string) :
  forall made root root',
    makedirs_from now made rest root = inr root' ->
    (exists m es, lookup root made = inr (Dir m es)) ->
    exists m es, lookup root' (made ++ rest) = inr (Dir m es).
Proof.
  induction rest as [|c rest IH]; intros made root root' Hmk Hmade; cbn in Hmk.
  - inversion Hmk; subst. now rewrite app_nil_r.
  - replace (made ++ c :: rest) with ((made ++ [c]) ++ rest)
      by (now rewrite <- app_assoc).
    destruct (lookup root (made ++ [c])) as [e|[r m d|m es]] eqn:Hl.
    + destruct e; try discriminate.
      apply (IH _ _ _ Hmk).
      destruct Hmade as (pm & pes & Hpm).
      exists now, []. now apply (lookup_put_same now c _ made root pm pes).
    + destruct rest; discriminate.
    + apply (IH _ _ _ Hmk). now exists m, es.
Qed.

(** ** What the calls that return have done *)

Lemma path_exists_eval (p : string) (w : world) :
  path_exists p w
  = Done (match stat (fs w) p with inr _ => true | inl _ => false end) w.
Proof. reflexivity. Qed.

Lemma isdir_eval (p : string) (w : world) :
  isdir p w
  = Done (match stat (fs w) p with inr (Dir _ _) => true | _ => false end) w.
Proof. reflexivity. Qed.

Lemma open_wb_written (p : string) (data : list byte) (w w' : world) :
  open_wb p data w = Done tt w' ->
  exists pm es,
    resolve p <> [] /\
    lookup (fs w) (removelast (resolve p)) = inr (Dir pm es) /\
    fs w' = alter (put_entry (clock w) (last (resolve p) EmptyString)
                     (File (mode_of (find_entry (last (resolve p) EmptyString) es))
                           (clock w) data))
                  (removelast (resolve p)) (fs w) /\
    clock w' = clock w.
Proof.
  unfold open_wb. monad_unfold.
  destruct (String.eqb p EmptyString); [discriminate|].
  destruct (ends_with_sep p); [discriminate|].
  destruct (resolve p) as [|c cs]; [discriminate|]. cbv beta iota zeta.
  destruct (lookup (fs w) (removelast (c :: cs))) as [e|[r m d|m es]];
    cbn; try discriminate.
  destruct (find_entry (last (c :: cs) EmptyString) es) as [[r m' d|m' es']|] eqn:Hf;
    cbn; try discriminate; intros E; inversion E; cbn;
    exists m, es; rewrite Hf; repeat split; discriminate.
Qed.

Lemma copystat_done (src dst : string) (w w' : world) :
  copystat src dst w = Done tt w' ->
  exists s,
    stat (fs w) src = inr s /\
    fs w' = alter (stamp_with s) (resolve dst) (fs w) /\
    clock w' = clock w.
Proof.
  unfold copystat. monad_unfold.
  destruct (stat (fs w) src) as [e|s]; cbn; [discriminate|].
  destruct (stat (fs w) dst) as [e|t]; cbn; [discriminate|].
  intros E. inversion E. exists s. now repeat split.
Qed.

Lemma copy_contents_done (src dst : string) (w w' : world) :
  copy_contents src dst w = Done tt w' ->
  exists m data pm es,
    stat (fs w) src = inr (File true m data) /\
    resolve dst <> [] /\
    lookup (fs w) (removelast (resolve dst)) = inr (Dir pm es) /\
    fs w' = alter (put_entry (clock w) (last (resolve dst) EmptyString)
                     (File (mode_of (find_entry (last (resolve dst) EmptyString) es))
                           (clock w) data))
                  (removelast (resolve dst)) (fs w) /\
    clock w' = clock w.
Proof.
  unfold copy_contents. intros H.
  apply bind_done in H. destruct H as (same & w1 & Hsame & Hcopy).
  assert (w1 = w) by (unfold samefile in Hsame; monad_unfold; now inversion Hsame).
  subst w1. destruct same; [discriminate|].
  apply bind_done in Hcopy. destruct Hcopy as (data & w2 & Hread & Hwrite).
  destruct (open_rb_done _ _ _ _ Hread) as [-> [m Hm]].
  destruct (open_wb_written _ _ _ _ Hwrite) as (pm & es & Hne & Hparent & Hfs & Hclock).
  exists m, data, pm, es. now repeat split.
Qed.

Lemma stat_of_lookup (d d' : node) (p : string) :
  lookup d' (resolve p) = lookup d (resolve p) -> stat d' p = stat d p.
Proof. intros H. unfold stat. now rewrite H. Qed.

Lemma lookup_written (now : Z) (v : node) (comps : list string)
  (root : node) (pm : Z) (es : list (string * node)) :
  comps <> [] ->
  lookup root (removelast comps) = inr (Dir pm es) ->
  lookup (alter (put_entry now (last comps EmptyString) v) (removelast comps) root)
         comps
  = inr v.
Proof.
  intros Hne Hparent.
  rewrite (removelast_last_split comps EmptyString Hne) at 3.
  now apply (lookup_put_same now _ v _ root pm es).
Qed.

(** ** What [sync_folders] leaves below the replica root *)

Ltac keeps_dirs :=
  repeat first
    [ progress intros
    | assumption
    | solve [apply kept_reads; auto with reads]
    | apply kept_ret
    | apply kept_raise
    | apply kept_open_wb
    | apply kept_copystat
    | apply kept_os_remove
    | apply kept_os_makedirs
    | apply kept_reads_record
    | apply kept_bind
    | apply kept_for_each
    | match goal with
      | |- respects _ _ (if ?b then _ else _) => destruct b
      | |- respects _ _ (match ?x with _ => _ end) => destruct x
      end ].

Lemma kept_sync_file (root replica_root : string) (acc : bool) (file : string) :
  respects (fun _ => True) dirs_kept (sync_file root replica_root acc file).
Proof. unfold sync_file, shutil_copy2, copy_contents. keeps_dirs. Qed.

Lemma kept_prune_pass (source_path replica_path : string)
  (items : list walk_item) (u : unit) :
  respects (fun _ => True) dirs_kept
    (for_each items u (prune_dir source_path replica_path)).
Proof. unfold prune_dir, prune_file. keeps_dirs. Qed.

Lemma kept_recopy_file (source_path replica_path root : string) (u : unit)
  (file : string) :
  respects (fun _ => True) dirs_kept
    (recopy_file source_path replica_path root u file).
Proof. unfold recopy_file, shutil_copyfile, copy_contents. keeps_dirs. Qed.

Lemma respects_done (good : node -> Prop) (R : node -> node -> Prop)
  {A} (m : M A) (w w' : world) (a : A) :
  respects good R m -> good (fs w) -> m w = Done a w' -> R (fs w) (fs w').
Proof. intros H Hg E. specialize (H w Hg). now rewrite E in H. Qed.

Lemma is_prefix_last (a : list string) (x : string) (b : list string) (y : string) :
  is_prefix (a ++ [x]) (b ++ [y]) = true ->
  a ++ [x] = b ++ [y] \/ is_prefix (a ++ [x]) b = true.
Proof.
  intros H. apply is_prefix_inv in H. destruct H as [t Ht].
  destruct t as [|c t] using rev_ind.
  - left. now rewrite app_nil_r in Ht.
  - right. rewrite app_assoc in Ht. apply app_inj_tail in Ht.
    destruct Ht as [-> _]. apply is_prefix_app.
Qed.

Section Mirror.

Variables source_path replica_path : string.
Hypothesis roots : plain_roots source_path replica_path = true.

Let ok := tidy_name source_path replica_path.
Let good := fun d : node => tidy_disk source_path replica_path d = true.
Let R := changed_below ok replica_path.

(** At no path beside [B] that holds a file or nothing has anything
    changed. *)
Let beside (B : list string) (w w' : world) : Prop :=
  forall p,
    is_prefix B p = false ->
    (forall m es, lookup (fs w) p <> inr (Dir m es)) ->
    lookup (fs w') p = lookup (fs w) p.

Lemma copy2_result (src dst : string) (ps q : list string) (w w' : world) :
  resolve src = source_path :: ps ->
  String.eqb dst EmptyString = false -> ends_with_sep dst = false ->
  resolve dst = replica_path :: q -> q <> [] ->
  valid_name (basename src) = true ->
  shutil_copy2 src dst w = Done tt w' ->
  exists sm data,
    lookup (fs w) (source_path :: ps) = inr (File true sm data) /\
    beside (replica_path :: q) w w' /\
    (is_dir_at (lookup (fs w) (replica_path :: q)) = false ->
     lookup (fs w') (replica_path :: q) = inr (File true sm data)).
Proof.
  intros Hsrc Hne Hsep Hdst Hq Hbase Hrun.
  destruct (roots_inv _ _ roots) as (_ & _ & Hdiff).
  unfold shutil_copy2 in Hrun.
  apply bind_done in Hrun. destruct Hrun as (d & w1 & Hd & Hrun).
  rewrite isdir_eval in Hd. inversion Hd as [[Hdval Hw1]]. subst w1. clear Hd.
  rewrite (stat_no_trailing _ _ Hne Hsep), Hdst in Hdval.
  cbv beta zeta in Hrun.
  set (dst' := if d then join dst (basename src) else dst) in Hrun.
  assert (Hres : exists q', resolve dst' = replica_path :: q' /\ q' <> [] /\
                            is_prefix q q' = true /\ (d = false -> q' = q)).
  { unfold dst'. destruct d.
    - exists (q ++ [basename src]). rewrite resolve_join, Hdst by assumption.
      repeat split; [now destruct q | apply is_prefix_app | discriminate].
    - exists q. repeat split; [assumption | assumption | apply is_prefix_refl]. }
  destruct Hres as (q' & Hres & Hq' & Hpre & Hsame).
  apply bind_done in Hrun. destruct Hrun as ([] & w2 & Hcopy & Hrun).
  apply bind_done in Hrun. destruct Hrun as ([] & w3 & Hstat & Hrec).
  unfold record in Hrec. inversion Hrec; subst w'. clear Hrec. cbn [fs].
  destruct (copy_contents_done _ _ _ _ Hcopy)
    as (sm & data & pm & es & Hsfile & _ & Hparent & Hfs2 & Hclock2).
  destruct (copystat_done _ _ _ _ Hstat) as (s' & Hs' & Hfs3 & _).
  rewrite Hres in *.
  assert (Hs2 : stat (fs w2) src = stat (fs w) src).
  { apply stat_of_lookup. rewrite Hsrc, Hfs2.
    rewrite (removelast_cons _ _ Hq').
    apply lookup_alter_apart. congruence. }
  rewrite Hs2, Hsfile in Hs'. inversion Hs'; subst s'. clear Hs'.
  destruct (stat_file_inv _ _ _ _ _ Hsfile) as (_ & _ & Hsl). rewrite Hsrc in Hsl.
  exists sm, data. split; [exact Hsl|].
  assert (Hbeside : forall p,
             is_prefix (replica_path :: q') p = false ->
             (forall m es, lookup (fs w) p <> inr (Dir m es)) ->
             lookup (fs w3) p = lookup (fs w) p).
  { intros p Hp Hnd.
    assert (H2 : lookup (fs w2) p = lookup (fs w) p).
    { rewrite Hfs2. apply lookup_put_elsewhere; [|now right].
      now rewrite <- (removelast_last_split (replica_path :: q') EmptyString). }
    rewrite Hfs3, <- H2.
    apply lookup_alter_elsewhere; [assumption|].
    intros m0 es0. rewrite H2. apply Hnd. }
  split.
  - intros p Hp Hnd. apply Hbeside; [|assumption].
    destruct (is_prefix (replica_path :: q') p) eqn:Hp'; [|reflexivity].
    rewrite <- Hp. symmetry.
    apply (is_prefix_trans _ (replica_path :: q')); [|assumption].
    now rewrite is_prefix_cons.
  - intros Hdir. unfold is_dir_at in Hdir. rewrite Hdir in Hdval.
    symmetry in Hdval. rewrite (Hsame Hdval) in *.
    rewrite Hfs3.
    assert (H2 : lookup (fs w2) (replica_path :: q)
                 = inr (File (mode_of (find_entry (last (replica_path :: q) EmptyString) es))
                             (clock w) data)).
    { rewrite Hfs2. now apply (lookup_written _ _ (replica_path :: q) (fs w) pm es). }
    now rewrite (lookup_alter_same _ _ _ _ H2).
Qed.

Lemma slot_paths (top : string) (names : list string) (file : string) :
  valid_name top = true -> forallb valid_name names = true ->
  valid_name file = true ->
  resolve (join (path_str top names) file) = top :: names ++ [file].
Proof.
  intros Ht Hn Hf.
  now rewrite resolve_join, resolve_path_str, resolve_valid by assumption.
Qed.

(** One round of the file loop of [sync_folders]: beside the replica file
    nothing changes, and the replica file is copied if it was missing or
    stale. *)
Lemma sync_file_result (names : list string) (file : string) (acc acc' : bool)
  (w w' : world) :
  forallb ok names = true -> ok file = true ->
  sync_file (path_str source_path names) (path_str replica_path names) acc file w
  = Done acc' w' ->
  beside (replica_path :: names ++ [file]) w w' /\
  forall sr sm sd,
    lookup (fs w) (source_path :: names ++ [file]) = inr (File sr sm sd) ->
    match lookup (fs w) (replica_path :: names ++ [file]) with
    | inr (File rr rm rd) =>
        lookup (fs w') (replica_path :: names ++ [file])
        = inr (if sm - rm >? one_second then File true sm sd else File rr rm rd)
    | inr (Dir _ _) => True
    | inl _ => lookup (fs w') (replica_path :: names ++ [file]) = inr (File true sm sd)
    end.
Proof.
  intros Hnames Hfile Hrun.
  destruct (roots_inv _ _ roots) as (Hs & Hr & Hdiff).
  destruct (ok_all_inv _ _ names Hnames) as (Hvalid & _ & _).
  destruct (ok_inv _ _ file Hfile) as (Hfv & _ & _).
  unfold sync_file in Hrun.
  apply bind_done in Hrun. destruct Hrun as (there & w1 & Hthere & Hrun).
  rewrite path_exists_eval in Hthere. inversion Hthere as [[Hval Hw1]].
  subst w1. clear Hthere.
  rewrite stat_join in Hval by assumption.
  apply bind_done in Hrun. destruct Hrun as (stale & w2 & Hstale & Hrun).
  assert (Hsame : forall p, lookup (fs w) p = lookup (fs w) p) by reflexivity.
  destruct (lookup (fs w) (replica_path :: names ++ [file])) as [e|target] eqn:Htarget.
  - subst there. cbn in Hstale. unfold ret in Hstale.
    inversion Hstale; subst stale w2. clear Hstale.
    apply bind_done in Hrun. destruct Hrun as ([] & w3 & Hcopy & Hrun).
    cbn in Hrun. inversion Hrun; subst acc' w'. clear Hrun. cbn [fs].
    destruct (copy2_result _ _ (names ++ [file]) (names ++ [file]) w w3
                (slot_paths _ _ _ Hs Hvalid Hfv)
                (join_nonempty _ _ Hfv) (join_no_trailing_sep _ _ Hfv)
                (slot_paths _ _ _ Hr Hvalid Hfv))
      as (sm & data & Hsl & Hbeside & Hown);
      [now destruct names | now rewrite basename_join | exact Hcopy |].
    split; [exact Hbeside|].
    intros sr sm' sd Hsrc. rewrite Hsl in Hsrc. inversion Hsrc; subst.
    apply Hown. now rewrite Htarget.
  - subst there. cbn in Hstale.
    apply bind_done in Hstale. destruct Hstale as (s & wa & Hsm & Hstale).
    apply bind_done in Hstale. destruct Hstale as (rmt & wb & Hrm & Hstale).
    unfold ret in Hstale. inversion Hstale; subst stale w2. clear Hstale.
    assert (wa = w /\ wb = w /\
            (forall x, lookup (fs w) (source_path :: names ++ [file]) = inr x ->
                       s = node_mtime x) /\
            rmt = node_mtime target)
      as (-> & -> & Hsval & ->).
    { unfold st_mtime in Hsm, Hrm. monad_unfold.
      rewrite stat_join in Hsm, Hrm by assumption.
      destruct (lookup (fs w) (source_path :: names ++ [file])) as [e|x];
        cbn in Hsm; [discriminate|].
      inversion Hsm; subst. rewrite Htarget in Hrm. cbn in Hrm.
      inversion Hrm; subst.
      repeat split. intros x0 E. now inversion E. }
    destruct (s - node_mtime target >? one_second) eqn:Hcmp.
    + apply bind_done in Hrun. destruct Hrun as ([] & w3 & Hcopy & Hrun).
      cbn in Hrun. inversion Hrun; subst acc' w'. clear Hrun. cbn [fs].
      destruct (copy2_result _ _ (names ++ [file]) (names ++ [file]) w w3
                  (slot_paths _ _ _ Hs Hvalid Hfv)
                  (join_nonempty _ _ Hfv) (join_no_trailing_sep _ _ Hfv)
                  (slot_paths _ _ _ Hr Hvalid Hfv))
        as (sm & data & Hsl & Hbeside & Hown);
        [now destruct names | now rewrite basename_join | exact Hcopy |].
      split; [exact Hbeside|].
      intros sr sm' sd Hsrc. rewrite Hsl in Hsrc. inversion Hsrc; subst.
      destruct target as [rr rm rd|m es]; [|exact I].
      rewrite (Hsval _ Hsl) in Hcmp. cbn in Hcmp. rewrite Hcmp.
      apply Hown. now rewrite Htarget.
    + unfold ret in Hrun. inversion Hrun; subst acc' w'. clear Hrun.
      split; [intros p _ _; reflexivity|].
      intros sr sm sd Hsrc.
      destruct target as [rr rm rd|m es]; [|exact I].
      rewrite (Hsval _ Hsrc) in Hcmp. cbn in Hcmp. now rewrite Hcmp.
Qed.

(** [os.makedirs] on a directory path below the replica root. *)
Lemma makedirs_result (names : list string) (w w' : world) :
  forallb ok names = true ->
  os_makedirs (path_str replica_path names) w = Done tt w' ->
  (forall p, is_prefix p (replica_path :: names) = false ->
             lookup (fs w') p = lookup (fs w) p) /\
  ((exists m es, fs w = Dir m es) ->
   exists m es, lookup (fs w') (replica_path :: names) = inr (Dir m es)).
Proof.
  intros Hnames Hrun.
  destruct (roots_inv _ _ roots) as (Hs & Hr & Hdiff).
  destruct (ok_all_inv _ _ names Hnames) as (Hvalid & _ & _).
  apply os_makedirs_done in Hrun.
  rewrite resolve_path_str, resolve_valid in Hrun by assumption.
  cbn [app] in Hrun. split.
  - intros p Hp. now apply (makedirs_from_elsewhere _ _ _ _ _ p Hrun).
  - intros (m & es & Hroot). apply (makedirs_from_made _ _ _ _ _ Hrun).
    exists m, es. cbn. now rewrite Hroot.
Qed.

End Mirror.

Lemma walk_item_files (name_ok : string -> bool) (disk : node) (top : string)
  (names : list string) (m : Z) (es : list (string * node)) (f : string) :
  subtree_ok name_ok disk top = true ->
  lookup disk (top :: names) = inr (Dir m es) ->
  In f (file_names es) ->
  name_ok f = true /\
  exists r mt d, lookup disk (top :: names ++ [f]) = inr (File r mt d).
Proof.
  intros Hsub Hl Hf. unfold subtree_ok in Hsub.
  destruct (lookup disk [top]) as [e|n] eqn:Hn.
  { change (top :: names) with ([top] ++ names) in Hl.
    rewrite lookup_app, Hn in Hl. discriminate. }
  pose proof Hl as Hl'. rewrite (lookup_head disk n) in Hl' by assumption.
  destruct (well_named_lookup name_ok names n (Dir m es) Hsub Hl') as [_ Hdir].
  destruct (file_names_in name_ok m es f Hdir Hf) as (Hok & r & mt & d & Hfind).
  split; [assumption|]. exists r, mt, d.
  change (top :: names ++ [f]) with ((top :: names) ++ [f]).
  rewrite lookup_app, Hl. cbn. now rewrite Hfind.
Qed.

Lemma source_file_names (name_ok : string -> bool) (disk : node) (top : string)
  (names : list string) (file : string) (r : bool) (m : Z) (d : list byte) :
  subtree_ok name_ok disk top = true ->
  lookup disk (top :: names ++ [file]) = inr (File r m d) ->
  forallb name_ok names = true /\ name_ok file = true.
Proof.
  intros Hsub Hl. unfold subtree_ok in Hsub.
  destruct (lookup disk [top]) as [e|n] eqn:Hn.
  { change (top :: names ++ [file]) with ([top] ++ (names ++ [file])) in Hl.
    rewrite lookup_app, Hn in Hl. discriminate. }
  rewrite (lookup_head disk n) in Hl by assumption.
  destruct (well_named_lookup name_ok _ n _ Hsub Hl) as [Hall _].
  rewrite forallb_app in Hall. apply andb_prop in Hall.
  destruct Hall as [Hnames Hfile]. cbn in Hfile. rewrite andb_true_r in Hfile.
  now split.
Qed.

Lemma same_entry_refl (a : exn + node) : same_entry a a.
Proof. now destruct a. Qed.

Lemma same_entry_inr (x : node) (b : exn + node) : same_entry (inr x) b -> b = inr x.
Proof. destruct b; cbn [same_entry]; intros H; now inversion H. Qed.

Lemma same_entry_inl (e : exn) (b : exn + node) :
  same_entry (inl e) b -> exists e', b = inl e'.
Proof. destruct b as [e'|x]; cbn [same_entry]; intros H; [now exists e' | discriminate]. Qed.

Lemma same_entry_trans (a b c : exn + node) :
  same_entry a b -> same_entry b c -> same_entry a c.
Proof.
  destruct a as [e|x].
  - intros H. destruct (same_entry_inl _ _ H) as [e' ->].
    intros H'. destruct (same_entry_inl _ _ H') as [e'' ->]. exact I.
  - intros H. rewrite (same_entry_inr _ _ H). trivial.
Qed.

Lemma same_entry_kind (sm : Z) (a b : exn + node) :
  same_entry a b -> settled sm a = settled sm b /\ is_dir_at a = is_dir_at b.
Proof.
  destruct a as [e|x].
  - intros H. destruct (same_entry_inl _ _ H) as [e' ->]. now split.
  - intros H. rewrite (same_entry_inr _ _ H). now split.
Qed.

Lemma dir_settled (sm : Z) (a : exn + node) :
  is_dir_at a = true -> settled sm a = true.
Proof. now destruct a as [e|[r m d|m es]]. Qed.

Section MirrorFile.

Variables source_path replica_path : string.
Hypothesis roots : plain_roots source_path replica_path = true.

Variables (names : list string) (file : string).
Variables (sr : bool) (sm : Z) (sd : list byte).

Let ok := tidy_name source_path replica_path.
Let good := fun d : node => tidy_disk source_path replica_path d = true.
Let R := changed_below ok replica_path.
Let A := replica_path :: names ++ [file].
Let S := source_path :: names ++ [file].

Let inv (w : world) : Prop :=
  good (fs w) /\ lookup (fs w) S = inr (File sr sm sd).

Let step_ok (a b : exn + node) : Prop :=
  same_entry a b \/
  (settled sm a = false /\ b = inr (File true sm sd)) \/
  (is_dir_at a = true /\ is_dir_at b = true).

Let T (w w' : world) : Prop :=
  R (fs w) (fs w') /\ dirs_kept (fs w) (fs w') /\
  step_ok (lookup (fs w) A) (lookup (fs w') A).

Lemma settled_copy : settled sm (inr (File true sm sd)) = true.
Proof. cbn [settled]. now rewrite Z.sub_diag. Qed.

Lemma step_ok_trans (a b c : exn + node) : step_ok a b -> step_ok b c -> step_ok a c.
Proof.
  pose proof settled_copy as Hcopy.
  intros [Hab|[[Hna Hb]|[Hda Hdb]]] [Hbc|[[Hnb Hc]|[Hdb' Hdc]]].
  - left. exact (same_entry_trans _ _ _ Hab Hbc).
  - right. left. split; [|assumption].
    destruct (same_entry_kind sm _ _ Hab) as [-> _]. assumption.
  - right. right. split; [|assumption].
    destruct (same_entry_kind sm _ _ Hab) as [_ ->]. assumption.
  - right. left. split; [assumption|]. subst b. exact (same_entry_inr _ _ Hbc).
  - subst b. congruence.
  - subst b. discriminate.
  - right. right. split; [assumption|].
    destruct (same_entry_kind sm _ _ Hbc) as [_ <-]. assumption.
  - rewrite (dir_settled sm _ Hdb) in Hnb. discriminate.
  - right. right. now split.
Qed.

Lemma mirror_refl (w : world) : T w w.
Proof.
  split; [apply changed_below_refl|]. split; [apply dirs_kept_refl|].
  left. apply same_entry_refl.
Qed.

Lemma mirror_trans (w1 w2 w3 : world) : T w1 w2 -> T w2 w3 -> T w1 w3.
Proof.
  intros (H1 & H2 & H3) (K1 & K2 & K3). split; [|split].
  - exact (below_trans _ _ _ _ _ H1 K1).
  - exact (dirs_kept_trans _ _ _ H2 K2).
  - exact (step_ok_trans _ _ _ H3 K3).
Qed.

Lemma mirror_inv (w w' : world) : inv w -> T w w' -> inv w'.
Proof.
  destruct (roots_inv _ _ roots) as (_ & _ & Hdiff).
  intros [Hgood Hsrc] (HR & _ & _). split.
  - exact (tidy_step _ _ roots _ _ Hgood HR).
  - destruct HR as [Hframe _]. unfold S. now rewrite Hframe.
Qed.

Lemma settled_stable (a b : exn + node) :
  step_ok a b -> settled sm a = true -> settled sm b = true.
Proof.
  intros [Hab|[[Hna Hb]|[Hda Hdb]]] Ha.
  - destruct (same_entry_kind sm _ _ Hab) as [<- _]. assumption.
  - congruence.
  - now apply dir_settled.
Qed.

Lemma dir_stays (w w' : world) :
  dirs_kept (fs w) (fs w') ->
  is_dir_at (lookup (fs w) A) = true -> is_dir_at (lookup (fs w') A) = true.
Proof.
  intros Hkept Hdir.
  destruct (lookup (fs w) A) as [e|[r m d|m es]] eqn:Hl; try discriminate.
  destruct (Hkept A m es Hl) as (m' & es' & ->). reflexivity.
Qed.

(** A round of the file loop. *)
Lemma file_round (names' : list string) (file' : string) (acc acc' : bool)
  (w w' : world) :
  forallb ok names' = true -> ok file' = true ->
  (names' ++ [file'] <> names ++ [file] ->
   is_prefix (replica_path :: names' ++ [file']) A = false) ->
  inv w ->
  sync_file (path_str source_path names') (path_str replica_path names')
            acc file' w = Done acc' w' ->
  T w w' /\
  (names' ++ [file'] = names ++ [file] -> settled sm (lookup (fs w') A) = true).
Proof.
  intros Hnames Hfile Hapart [Hgood Hsrc] Hrun.
  pose proof (respects_done _ _ _ _ _ _
                (respects_sync_file _ _ roots names' file' acc Hnames Hfile)
                Hgood Hrun) as HR.
  pose proof (respects_done _ _ _ _ _ _
                (kept_sync_file _ _ acc file') I Hrun) as Hkept.
  destruct (sync_file_result _ _ roots _ _ _ _ _ _ Hnames Hfile Hrun)
    as [Hbeside Hown].
  destruct (list_eq_dec string_dec (names' ++ [file']) (names ++ [file])) as [E|E].
  - apply app_inj_tail in E. destruct E as [-> ->].
    specialize (Hown sr sm sd Hsrc). fold A in Hown.
    assert (Hstep : step_ok (lookup (fs w) A) (lookup (fs w') A) /\
                    settled sm (lookup (fs w') A) = true).
    { destruct (lookup (fs w) A) as [e|[rr rm rd|m es]] eqn:Ha.
      - rewrite Hown. split; [|apply settled_copy]. right. left. now split.
      - rewrite Hown. destruct (sm - rm >? one_second) eqn:Hcmp.
        + split; [|apply settled_copy]. right. left.
          cbn [settled]. now rewrite Hcmp.
        + split; [left; apply same_entry_refl|]. cbn [settled]. now rewrite Hcmp.
      - assert (Hd : is_dir_at (lookup (fs w') A) = true).
        { apply (dir_stays w w' Hkept). now rewrite Ha. }
        split; [right; right; now split|].
        now apply dir_settled. }
    destruct Hstep as [Hstep Hset].
    split; [split; [exact HR | split; [exact Hkept | exact Hstep]]|].
    intros _. exact Hset.
  - split; [|intros E'; contradiction].
    split; [exact HR | split; [exact Hkept|]].
    destruct (is_dir_at (lookup (fs w) A)) eqn:Hd.
    + right. right. split; [exact Hd|]. now apply (dir_stays w w' Hkept).
    + left. rewrite Hbeside.
      * apply same_entry_refl.
      * now apply Hapart.
      * intros m es Hl. now rewrite Hl in Hd.
Qed.

(** The directory of a round is made first. *)
Lemma dir_round (names' : list string) (w w' : world) :
  forallb ok names' = true ->
  is_prefix A (replica_path :: names') = false ->
  inv w ->
  os_makedirs (path_str replica_path names') w = Done tt w' ->
  T w w'.
Proof.
  intros Hnames Hapart [Hgood Hsrc] Hrun.
  destruct (roots_inv _ _ roots) as (Hs & Hr & Hdiff).
  destruct (ok_all_inv _ _ names' Hnames) as (Hvalid & _ & _).
  assert (HR : R (fs w) (fs w')).
  { refine (respects_done _ _ _ _ _ _
              (respects_os_makedirs source_path replica_path _ names' _ Hnames)
              Hgood Hrun).
    now rewrite resolve_path_str, resolve_valid. }
  pose proof (respects_done _ _ _ _ _ _ (kept_os_makedirs _) I Hrun) as Hkept.
  destruct (makedirs_result _ _ roots _ _ _ Hnames Hrun) as [Hother _].
  split; [exact HR | split; [exact Hkept|]].
  left. rewrite (Hother A Hapart). apply same_entry_refl.
Qed.

Lemma item_round (names' : list string) (dirs files : list string)
  (acc acc' : bool) (w w' : world) :
  forallb ok names' = true -> forallb ok files = true ->
  is_prefix A (replica_path :: names') = false ->
  (forall file', In file' files ->
     names' ++ [file'] <> names ++ [file] ->
     is_prefix (replica_path :: names' ++ [file']) A = false) ->
  inv w ->
  sync_dir source_path replica_path acc (path_str source_path names', dirs, files) w
  = Done acc' w' ->
  T w w' /\
  (names' = names -> In file files -> settled sm (lookup (fs w') A) = true).
Proof.
  intros Hnames Hfiles Hdir Hapart Hinv Hrun.
  destruct (roots_inv _ _ roots) as (Hs & Hr & Hdiff).
  destruct (ok_all_inv _ _ names' Hnames) as (Hvalid & Hnos & _).
  unfold sync_dir in Hrun.
  rewrite replace_path_str in Hrun by assumption.
  apply bind_done in Hrun. destruct Hrun as ([] & w1 & Hmk & Hloop).
  pose proof (dir_round names' w w1 Hnames Hdir Hinv Hmk) as HT1.
  pose proof (mirror_inv _ _ Hinv HT1) as Hinv1.
  destruct (for_each_post (sync_file (path_str source_path names')
                                     (path_str replica_path names'))
              inv T
              (fun f w0 => names' ++ [f] = names ++ [file] ->
                           settled sm (lookup (fs w0) A) = true)
              files mirror_refl mirror_trans mirror_inv) with
    (acc := acc) (w := w1) (acc' := acc') (w' := w') as [HT2 HQ];
    try assumption.
  - intros f w0 w0' (_ & _ & Hstep) HQ E. exact (settled_stable _ _ Hstep (HQ E)).
  - intros a f w0 a' w0' Hf Hinv0 Hbody.
    rewrite forallb_forall in Hfiles.
    exact (file_round names' f a a' w0 w0' Hnames (Hfiles f Hf)
             (Hapart f Hf) Hinv0 Hbody).
  - split; [exact (mirror_trans _ _ _ HT1 HT2)|].
    intros -> Hin. now apply (HQ file Hin).
Qed.

(** The copy loop, over the walk of a tidy source that holds the file. *)
Lemma copy_pass_result (disk : node) (acc acc' : bool) (w w' : world) :
  good disk -> lookup disk S = inr (File sr sm sd) ->
  inv w ->
  for_each (os_walk disk source_path) acc (sync_dir source_path replica_path) w
  = Done acc' w' ->
  T w w' /\ settled sm (lookup (fs w') A) = true.
Proof.
  intros Hdisk Hfile Hinv Hrun.
  destruct (roots_inv _ _ roots) as (Hs & Hr & Hdiff).
  pose proof Hdisk as Hdisk'. unfold good, tidy_disk in Hdisk'.
  apply andb_prop in Hdisk'. destruct Hdisk' as [Hsub _].
  destruct (source_file_names ok disk source_path names file sr sm sd Hsub Hfile)
    as [Hnames Hfok].
  destruct (ok_all_inv _ _ names Hnames) as (Hvalid & _ & _).
  destruct (lookup_file_parent disk S sr sm sd) as (pm & es & Hparent & Hfind);
    [discriminate | exact Hfile |].
  unfold S in Hparent, Hfind.
  destruct (removelast_snoc source_path names file) as [Hrl Hla].
  rewrite Hrl in Hparent. rewrite Hla in Hfind.
  set (itemA := (path_str source_path names, dir_names es, file_names es)).
  assert (HinA : In itemA (os_walk disk source_path)).
  { unfold os_walk. rewrite stat_plain by assumption.
    destruct (lookup disk [source_path]) as [e|n] eqn:Hn.
    - change (source_path :: names) with ([source_path] ++ names) in Hparent.
      rewrite lookup_app, Hn in Hparent. discriminate.
    - rewrite (lookup_head disk n) in Hparent by assumption.
      exact (walk_node_complete names n source_path pm es Hparent). }
  destruct (for_each_post (sync_dir source_path replica_path) inv T
              (fun item w0 => item = itemA -> settled sm (lookup (fs w0) A) = true)
              (os_walk disk source_path) mirror_refl mirror_trans mirror_inv) with
    (acc := acc) (w := w) (acc' := acc') (w' := w') as [HT HQ];
    try assumption.
  - intros item w0 w0' (_ & _ & Hstep) HQ E. exact (settled_stable _ _ Hstep (HQ E)).
  - intros a item w0 a' w0' Hitem Hinv0 Hbody.
    destruct (walk_items_ok ok disk source_path item Hs Hsub Hitem)
      as (names' & m' & es' & Hl' & -> & Hnames' & Hfiles').
    destruct (ok_all_inv _ _ names' Hnames') as (Hvalid' & _ & _).
    destruct (item_round names' (dir_names es') (file_names es') a a' w0 w0'
                Hnames' Hfiles') as [HT0 HQ0]; try assumption.
    + unfold A. rewrite is_prefix_cons.
      destruct (is_prefix (names ++ [file]) names') eqn:Hp; [|reflexivity].
      assert (E : S = source_path :: names').
      { apply (file_has_no_entries disk S (source_path :: names') sr sm sd (Dir m' es'));
          try assumption.
        unfold S. now rewrite is_prefix_cons. }
      rewrite <- E, Hfile in Hl'. discriminate.
    + intros file' Hf' Hne. unfold A. rewrite is_prefix_cons.
      destruct (is_prefix (names' ++ [file']) (names ++ [file])) eqn:Hp;
        [|reflexivity].
      destruct (walk_item_files ok disk source_path names' m' es' file' Hsub Hl' Hf')
        as (_ & r' & mt' & d' & Hl'').
      assert (E : source_path :: names' ++ [file'] = S).
      { apply (file_has_no_entries disk _ S r' mt' d' (File sr sm sd));
          try assumption.
        unfold S. now rewrite is_prefix_cons. }
      unfold S in E. inversion E. contradiction.
    + split; [exact HT0|]. intros E. unfold itemA in E. inversion E as [[Hp Hd Hf]].
      apply (path_str_inj source_path names' names Hvalid' Hvalid) in Hp.
      apply HQ0; [assumption|]. rewrite Hf.
      now apply (find_entry_file_names file es sr sm sd).
  - split; [exact HT|]. exact (HQ itemA HinA eq_refl).
Qed.

(** The deletion loop leaves the copy of a source file where it is. *)
Lemma prune_round (names' : list string) (file' : string) (u u' : unit)
  (x : node) (w w' : world) :
  forallb ok names' = true -> ok file' = true ->
  inv w /\ lookup (fs w) A = inr x /\ is_dir x = false ->
  prune_file (path_str source_path names') (path_str replica_path names')
             u file' w = Done u' w' ->
  inv w' /\ lookup (fs w') A = inr x /\ is_dir x = false.
Proof.
  intros Hnames Hfile ([Hgood Hsrc] & Ha & Hx) Hrun.
  destruct (roots_inv _ _ roots) as (Hs & Hr & Hdiff).
  destruct (ok_all_inv _ _ names' Hnames) as (Hvalid & _ & _).
  destruct (ok_inv _ _ file' Hfile) as (Hfv & _ & _).
  pose proof (respects_done _ _ _ _ _ _
                (respects_prune_file _ _ roots (path_str source_path names')
                   names' file' u Hnames Hfile) Hgood Hrun) as HR.
  assert (Hinv' : inv w').
  { split; [exact (tidy_step _ _ roots _ _ Hgood HR)|].
    destruct HR as [Hframe _]. unfold S. now rewrite Hframe. }
  split; [exact Hinv'|]. split; [|assumption].
  unfold prune_file in Hrun.
  apply bind_done in Hrun. destruct Hrun as (there & w1 & Hthere & Hrun).
  rewrite path_exists_eval in Hthere. inversion Hthere as [[Hval Hw1]].
  subst w1. clear Hthere. rewrite stat_join in Hval by assumption.
  destruct (lookup (fs w) (source_path :: names' ++ [file'])) as [e|y] eqn:Hsrc';
    subst there; cbn in Hrun.
  2:{ unfold ret in Hrun. now inversion Hrun; subst. }
  apply bind_done in Hrun. destruct Hrun as ([] & w2 & Hrm & Hrun).
  cbn in Hrun. inversion Hrun; subst w'. clear Hrun. cbn [fs].
  destruct (os_remove_done _ _ _ Hrm) as (r0 & m0 & d0 & c & cs & Hstat & Hres & Hfs).
  rewrite stat_join in Hstat by assumption.
  rewrite slot_paths in Hres by assumption.
  inversion Hres. subst c cs. clear Hres.
  rewrite Hfs, <- Ha.
  apply lookup_drop_elsewhere.
  - rewrite <- (removelast_last_split (replica_path :: names' ++ [file']) EmptyString)
      by discriminate.
    destruct (is_prefix (replica_path :: names' ++ [file']) A) eqn:Hp; [|reflexivity].
    assert (E : replica_path :: names' ++ [file'] = A).
    { now apply (file_has_no_entries (fs w) _ A r0 m0 d0 x). }
    unfold A in E. inversion E as [E'].
    apply app_inj_tail in E'. destruct E' as [-> ->].
    fold S in Hsrc'. rewrite Hsrc in Hsrc'. discriminate.
  - intros m es E. rewrite Ha in E. inversion E. subst x. discriminate.
Qed.

Lemma prune_pass_result (disk : node) (u u' : unit) (x : node) (w w' : world) :
  good disk ->
  inv w /\ lookup (fs w) A = inr x /\ is_dir x = false ->
  for_each (os_walk disk replica_path) u (prune_dir source_path replica_path) w
  = Done u' w' ->
  inv w' /\ lookup (fs w') A = inr x /\ is_dir x = false.
Proof.
  intros Hdisk HJ Hrun.
  destruct (roots_inv _ _ roots) as (Hs & Hr & Hdiff).
  unfold good, tidy_disk in Hdisk. apply andb_prop in Hdisk.
  destruct Hdisk as [_ Hsub].
  refine (for_each_keeps (prune_dir source_path replica_path)
            (fun w0 => inv w0 /\ lookup (fs w0) A = inr x /\ is_dir x = false)
            (os_walk disk replica_path) _ u w u' w' HJ Hrun).
  intros a item w0 a' w0' Hitem HJ0 Hbody.
  destruct (walk_items_ok ok disk replica_path item Hr Hsub Hitem)
    as (names' & m' & es' & _ & -> & Hnames' & Hfiles').
  destruct (ok_all_inv _ _ names' Hnames') as (Hvalid' & _ & Hnor').
  unfold prune_dir in Hbody.
  rewrite replace_path_str in Hbody by assumption.
  refine (for_each_keeps (prune_file (path_str source_path names')
                                     (path_str replica_path names'))
            (fun w1 => inv w1 /\ lookup (fs w1) A = inr x /\ is_dir x = false)
            (file_names es') _ tt w0 a' w0' HJ0 Hbody).
  intros b f w1 b' w1' Hf HJ1 Hstep.
  rewrite forallb_forall in Hfiles'.
  exact (prune_round names' f b b' x w1 w1' Hnames' (Hfiles' f Hf) HJ1 Hstep).
Qed.

Lemma sync_folders_file (w w' : world) :
  good (fs w) -> lookup (fs w) S = inr (File sr sm sd) ->
  sync_folders source_path replica_path w = Done tt w' ->
  match lookup (fs w) A with
  | inr (File rr rm rd) =>
      lookup (fs w') A
      = inr (if sm - rm >? one_second then File true sm sd else File rr rm rd)
  | inr (Dir _ _) => exists m es, lookup (fs w') A = inr (Dir m es)
  | inl _ => lookup (fs w') A = inr (File true sm sd)
  end.
Proof.
  intros Hgood Hsrc Hrun.
  assert (Hinv : inv w) by now split.
  unfold sync_folders in Hrun.
  apply bind_done in Hrun. destruct Hrun as (disk & w0 & H0 & Hrun).
  unfold get_fs in H0. inversion H0; subst disk w0. clear H0.
  apply bind_done in Hrun. destruct Hrun as (acc & w1 & Hcopy & Hrun).
  apply bind_done in Hrun. destruct Hrun as (disk & w1' & H0 & Hrun).
  unfold get_fs in H0. inversion H0; subst disk w1'. clear H0.
  apply bind_done in Hrun. destruct Hrun as ([] & w2 & Hprune & Hrun).
  assert (Hfs : fs w' = fs w2).
  { destruct acc; cbn in Hrun; unfold ret in Hrun; now inversion Hrun. }
  rewrite Hfs. clear Hrun Hfs.
  destruct (copy_pass_result (fs w) false acc w w1 Hgood Hsrc Hinv Hcopy)
    as [(HR & Hkept & Hstep) Hset].
  pose proof (mirror_inv _ _ Hinv (conj HR (conj Hkept Hstep))) as Hinv1.
  pose proof (respects_done _ _ _ _ _ _
                (kept_prune_pass source_path replica_path _ tt) I Hprune) as Hkept2.
  assert (Hfinal : forall x, lookup (fs w1) A = inr x -> is_dir x = false ->
                             lookup (fs w2) A = inr x).
  { intros x Hx Hfile.
    now destruct (prune_pass_result (fs w1) tt tt x w1 w2 (proj1 Hinv1)
                    (conj Hinv1 (conj Hx Hfile)) Hprune) as (_ & H & _). }
  destruct (lookup (fs w) A) as [e|[rr rm rd|m es]] eqn:Ha.
  - destruct Hstep as [Hs|[[_ Hb]|[Hd _]]]; [| |discriminate].
    + destruct (same_entry_inl _ _ Hs) as [e' He']. rewrite He' in Hset.
      discriminate.
    + now apply Hfinal.
  - destruct Hstep as [Hs|[[Hn Hb]|[Hd _]]]; [| |discriminate].
    + apply same_entry_inr in Hs. rewrite Hs in Hset. cbn [settled] in Hset.
      apply negb_true_iff in Hset. rewrite Hset.
      now apply Hfinal.
    + cbn [settled] in Hn. apply negb_false_iff in Hn. rewrite Hn.
      now apply Hfinal.
  - assert (Hd : is_dir_at (lookup (fs w2) A) = true).
    { apply (dir_stays w1 w2 Hkept2). apply (dir_stays w w1 Hkept). now rewrite Ha. }
    destruct (lookup (fs w2) A) as [e|[r m0 d|m0 es0]]; try discriminate.
    now exists m0, es0.
Qed.

End MirrorFile.

(** ** The directories [sync_folders] makes *)

Lemma kept_sync_dir (source_path replica_path : string) (acc : bool)
  (item : walk_item) :
  respects (fun _ => True) dirs_kept (sync_dir source_path replica_path acc item).
Proof.
  destruct item as [[root dirs] files]. unfold sync_dir.
  apply kept_bind; [apply kept_os_makedirs|]. intros _.
  apply kept_for_each. intros a f. apply kept_sync_file.
Qed.

Lemma dir_kept_at (d d' : node) (p : list string) :
  dirs_kept d d' ->
  is_dir_at (lookup d p) = true -> is_dir_at (lookup d' p) = true.
Proof.
  intros Hkept Hdir.
  destruct (lookup d p) as [e|[r m x|m es]] eqn:Hl; try discriminate.
  destruct (Hkept p m es Hl) as (m' & es' & ->). reflexivity.
Qed.

Section MirrorDir.

Variables source_path replica_path : string.
Hypothesis roots : plain_roots source_path replica_path = true.

Variable names : list string.

Let ok := tidy_name source_path replica_path.
Let good := fun d : node => tidy_disk source_path replica_path d = true.
Let R := changed_below ok replica_path.
Let D := replica_path :: names.

Let inv (w : world) : Prop := good (fs w) /\ is_dir_at (lookup (fs w) []) = true.
Let T (w w' : world) : Prop := R (fs w) (fs w') /\ dirs_kept (fs w) (fs w').

Lemma made_refl (w : world) : T w w.
Proof. split; [apply changed_below_refl | apply dirs_kept_refl]. Qed.

Lemma made_trans (w1 w2 w3 : world) : T w1 w2 -> T w2 w3 -> T w1 w3.
Proof.
  intros (H1 & H2) (K1 & K2). split.
  - exact (below_trans _ _ _ _ _ H1 K1).
  - exact (dirs_kept_trans _ _ _ H2 K2).
Qed.

Lemma made_inv (w w' : world) : inv w -> T w w' -> inv w'.
Proof.
  intros [Hgood Hroot] (HR & Hkept). split.
  - exact (tidy_step _ _ roots _ _ Hgood HR).
  - exact (dir_kept_at _ _ [] Hkept Hroot).
Qed.

Lemma copy_pass_dirs (disk : node) (m : Z) (es : list (string * node))
  (acc acc' : bool) (w w' : world) :
  good disk -> lookup disk (source_path :: names) = inr (Dir m es) ->
  inv w ->
  for_each (os_walk disk source_path) acc (sync_dir source_path replica_path) w
  = Done acc' w' ->
  T w w' /\ is_dir_at (lookup (fs w') D) = true.
Proof.
  intros Hdisk Hdir Hinv Hrun.
  destruct (roots_inv _ _ roots) as (Hs & Hr & Hdiff).
  pose proof Hdisk as Hdisk'. unfold good, tidy_disk in Hdisk'.
  apply andb_prop in Hdisk'. destruct Hdisk' as [Hsub _].
  set (itemD := (path_str source_path names, dir_names es, file_names es)).
  assert (HinD : In itemD (os_walk disk source_path) /\
                 forallb valid_name names = true).
  { unfold os_walk. rewrite stat_plain by assumption.
    unfold subtree_ok in Hsub.
    destruct (lookup disk [source_path]) as [e|n] eqn:Hn.
    - change (source_path :: names) with ([source_path] ++ names) in Hdir.
      rewrite lookup_app, Hn in Hdir. discriminate.
    - rewrite (lookup_head disk n) in Hdir by assumption. split.
      + exact (walk_node_complete names n source_path m es Hdir).
      + destruct (well_named_lookup ok names n _ Hsub Hdir) as [Hall _].
        now destruct (ok_all_inv _ _ names Hall). }
  destruct HinD as [HinD Hvalid].
  destruct (for_each_post (sync_dir source_path replica_path) inv T
              (fun item w0 => item = itemD -> is_dir_at (lookup (fs w0) D) = true)
              (os_walk disk source_path) made_refl made_trans made_inv) with
    (acc := acc) (w := w) (acc' := acc') (w' := w') as [HT HQ];
    try assumption.
  - intros item w0 w0' (_ & Hkept) HQ E. exact (dir_kept_at _ _ D Hkept (HQ E)).
  - intros a item w0 a' w0' Hitem [Hgood0 Hroot0] Hbody.
    pose proof (respects_done _ _ _ _ _ _
                  (respects_sync_dir _ _ roots disk item a Hdisk Hitem)
                  Hgood0 Hbody) as HR.
    pose proof (respects_done _ _ _ _ _ _
                  (kept_sync_dir _ _ a item) I Hbody) as Hkept.
    split; [now split|]. intros ->.
    destruct (walk_items_ok ok disk source_path itemD Hs Hsub Hitem)
      as (names' & m' & es' & _ & E & Hnames' & _).
    unfold itemD in E. inversion E as [[Hp Hd Hf]].
    destruct (ok_all_inv _ _ names' Hnames') as (Hvalid' & Hnos' & _).
    apply (path_str_inj source_path names names' Hvalid Hvalid') in Hp.
    subst names'.
    unfold itemD, sync_dir in Hbody.
    rewrite replace_path_str in Hbody by assumption.
    apply bind_done in Hbody. destruct Hbody as ([] & w1 & Hmk & Hloop).
    destruct (makedirs_result _ _ roots _ _ _ Hnames' Hmk) as [_ Hmade].
    assert (Hd1 : is_dir_at (lookup (fs w1) D) = true).
    { unfold D. destruct Hmade as (m1 & es1 & ->); [|reflexivity].
      cbn [lookup] in Hroot0.
      destruct (fs w0) as [r0 m0 d0|m0 es0]; [discriminate|]. now exists m0, es0. }
    refine (dir_kept_at _ _ D _ Hd1).
    refine (respects_done (fun _ => True) dirs_kept _ _ _ _ _ I Hloop).
    apply kept_for_each. intros a0 f. apply kept_sync_file.
  - split; [exact HT|]. exact (HQ itemD HinD eq_refl).
Qed.

Lemma sync_folders_dir (m : Z) (es : list (string * node)) (w w' : world) :
  good (fs w) -> lookup (fs w) (source_path :: names) = inr (Dir m es) ->
  sync_folders source_path replica_path w = Done tt w' ->
  exists m' es', lookup (fs w') D = inr (Dir m' es').
Proof.
  intros Hgood Hdir Hrun.
  assert (Hinv : inv w).
  { split; [assumption|]. cbn [lookup].
    destruct (fs w) as [r0 m0 d0|m0 es0]; [discriminate | reflexivity]. }
  unfold sync_folders in Hrun.
  apply bind_done in Hrun. destruct Hrun as (disk & w0 & H0 & Hrun).
  unfold get_fs in H0. inversion H0; subst disk w0. clear H0.
  apply bind_done in Hrun. destruct Hrun as (acc & w1 & Hcopy & Hrun).
  apply bind_done in Hrun. destruct Hrun as (disk & w1' & H0 & Hrun).
  unfold get_fs in H0. inversion H0; subst disk w1'. clear H0.
  apply bind_done in Hrun. destruct Hrun as ([] & w2 & Hprune & Hrun).
  assert (Hfs : fs w' = fs w2).
  { destruct acc; cbn in Hrun; unfold ret in Hrun; now inversion Hrun. }
  rewrite Hfs. clear Hrun Hfs.
  destruct (copy_pass_dirs (fs w) m es false acc w w1 Hgood Hdir Hinv Hcopy)
    as [_ Hd1].
  pose proof (respects_done _ _ _ _ _ _
                (kept_prune_pass source_path replica_path _ tt) I Hprune) as Hkept2.
  pose proof (dir_kept_at _ _ D Hkept2 Hd1) as Hd2.
  destruct (lookup (fs w2) D) as [e|[r0 m0 d0|m0 es0]]; try discriminate.
  now exists m0, es0.
Qed.

End MirrorDir.

(** ** What the recopy pass leaves below the replica root *)

Lemma is_prefix_longer (a : list string) (x : string) :
  is_prefix (a ++ [x]) a = false.
Proof.
  destruct (is_prefix (a ++ [x]) a) eqn:H; [|reflexivity].
  apply is_prefix_inv in H. destruct H as [t Ht].
  apply (f_equal (@List.length string)) in Ht.
  rewrite !length_app in Ht. cbn in Ht. lia.
Qed.

Lemma lookup_entry_absent (d : node) (parent : list string) (name : string)
  (pm : Z) (es : list (string * node)) (e : exn) :
  lookup d parent = inr (Dir pm es) ->
  lookup d (parent ++ [name]) = inl e ->
  find_entry name es = None.
Proof.
  intros Hp Hl. rewrite lookup_app, Hp in Hl. cbn in Hl.
  now destruct (find_entry name es).
Qed.

Section RecopyFile.

Variables source_path replica_path : string.
Hypothesis roots : plain_roots source_path replica_path = true.

Let ok := tidy_name source_path replica_path.
Let good := fun d : node => tidy_disk source_path replica_path d = true.
Let R := changed_below ok replica_path.

(** One round of the recopy pass: the replica file is removed if it was
    there, its directory is made, and the source file is written anew. *)
Lemma recopy_file_result (names : list string) (file : string) (u : unit)
  (w w' : world) :
  forallb ok names = true -> ok file = true -> good (fs w) ->
  recopy_file source_path replica_path (path_str source_path names) u file w
  = Done tt w' ->
  clock w' = clock w /\
  (forall p,
     is_prefix (replica_path :: names ++ [file]) p = false ->
     is_prefix p (replica_path :: names) = false ->
     (forall m es, lookup (fs w) p <> inr (Dir m es)) ->
     lookup (fs w') p = lookup (fs w) p) /\
  forall sr sm sd,
    lookup (fs w) (source_path :: names ++ [file]) = inr (File sr sm sd) ->
    lookup (fs w') (replica_path :: names ++ [file])
    = inr (File true (clock w) sd).
Proof.
  intros Hnames Hfile Hgood Hrun.
  destruct (roots_inv _ _ roots) as (Hs & Hr & Hdiff).
  destruct (ok_all_inv _ _ names Hnames) as (Hvalid & _ & _).
  destruct (ok_inv _ _ file Hfile) as (Hfv & _ & _).
  destruct (valid_name_inv _ Hr) as (Hrne & _ & _ & Hrsep).
  destruct (path_str_shape names replica_path Hrne
              (ends_with_sep_no_sep _ Hrsep) Hvalid) as [Hpne Hpsep].
  destruct (removelast_snoc replica_path names file) as [Hrl Hla].
  set (B := replica_path :: names ++ [file]) in *.
  unfold recopy_file in Hrun.
  rewrite recopy_target in Hrun by assumption.
  rewrite dirname_join in Hrun by assumption.
  apply bind_done in Hrun. destruct Hrun as (there & w1 & Hthere & Hrun).
  rewrite path_exists_eval in Hthere. inversion Hthere as [[Hval Hw1]].
  subst w1. clear Hthere. rewrite stat_join in Hval by assumption. fold B in Hval.
  apply bind_done in Hrun. destruct Hrun as ([] & w2 & Hrm & Hrun).
  apply bind_done in Hrun. destruct Hrun as ([] & w3 & Hmk & Hcopy).
  (* the removal *)
  assert (H2 : clock w2 = clock w /\
               (forall p, is_prefix B p = false ->
                          (forall m es, lookup (fs w) p <> inr (Dir m es)) ->
                          lookup (fs w2) p = lookup (fs w) p) /\
               (forall c p, c <> replica_path ->
                            lookup (fs w2) (c :: p) = lookup (fs w) (c :: p)) /\
               exists e, lookup (fs w2) B = inl e).
  { destruct (lookup (fs w) B) as [e|x] eqn:HB; subst there.
    - unfold ret in Hrm. inversion Hrm; subst w2.
      repeat split; try reflexivity. now exists e.
    - pose proof (os_remove_records (join (path_str replica_path names) file) w) as Hrec.
      rewrite Hrm in Hrec. destruct Hrec as (Hc & _).
      destruct (os_remove_done _ _ _ Hrm)
        as (r0 & m0 & d0 & c & cs & Hstat & Hres & Hfs).
      rewrite slot_paths in Hres by assumption.
      inversion Hres. subst c cs. clear Hres. fold B in Hfs.
      rewrite Hrl, Hla in Hfs.
      split; [exact Hc|]. split; [|split].
      + intros p Hp Hnd. rewrite Hfs. apply lookup_drop_elsewhere; [|assumption].
        exact Hp.
      + intros c p Hc'. rewrite Hfs. apply lookup_alter_apart. congruence.
      + exists FileNotFoundError. rewrite Hfs.
        unfold good, tidy_disk in Hgood. apply andb_prop in Hgood.
        destruct Hgood as [_ Hrep]. unfold subtree_ok in Hrep.
        destruct (lookup (fs w) [replica_path]) as [e0|Rn] eqn:HR.
        { change B with ([replica_path] ++ (names ++ [file])) in HB.
          rewrite lookup_app, HR in HB. discriminate. }
        unfold B. rewrite (lookup_alter_head _ _ Rn) by assumption.
        rewrite stat_join in Hstat by assumption.
        rewrite (lookup_head _ Rn) in Hstat by assumption.
        destruct (lookup_file_parent Rn (names ++ [file]) r0 m0 d0)
          as (pm & es & Hparent & _); [now destruct names | exact Hstat |].
        rewrite removelast_last in Hparent.
        exact (drop_removes ok _ file names Rn pm es Hrep Hparent). }
  destruct H2 as (Hc2 & Hbeside2 & Hframe2 & e2 & HB2).
  (* the directory *)
  destruct (makedirs_result _ _ roots _ _ _ Hnames Hmk) as [Hother3 _].
  assert (Hc3 : clock w3 = clock w2).
  { destruct (os_makedirs_records (path_str replica_path names) w2) as (Hc & _).
    now rewrite Hmk in Hc. }
  (* the copy *)
  unfold shutil_copyfile in Hcopy.
  apply bind_done in Hcopy. destruct Hcopy as ([] & w4 & Hcopy & Hrec).
  unfold record in Hrec. inversion Hrec; subst w'. clear Hrec. cbn [fs clock].
  destruct (copy_contents_done _ _ _ _ Hcopy)
    as (m & data & pm & es & Hsfile & _ & Hparent & Hfs4 & Hc4).
  rewrite slot_paths in Hparent, Hfs4 by assumption. fold B in Hparent, Hfs4.
  rewrite Hrl in Hparent. rewrite Hrl, Hla in Hfs4.
  split; [congruence|]. split.
  - intros p Hp Hup Hnd. rewrite Hfs4.
    rewrite lookup_put_elsewhere; [| exact Hp | now left].
    rewrite (Hother3 p Hup). now apply Hbeside2.
  - intros sr sm sd Hsrc.
    assert (HB3 : lookup (fs w3) B = inl e2).
    { rewrite (Hother3 B); [assumption|]. unfold B.
      rewrite is_prefix_cons. apply is_prefix_longer. }
    rewrite (lookup_entry_absent (fs w3) (replica_path :: names) file pm es e2
               Hparent HB3) in Hfs4.
    cbn [mode_of] in Hfs4.
    assert (Hs3 : lookup (fs w3) (source_path :: names ++ [file])
                  = inr (File sr sm sd)).
    { rewrite (Hother3 (source_path :: names ++ [file])).
      - rewrite Hframe2; [assumption | congruence].
      - cbn. apply String.eqb_neq in Hdiff. now rewrite Hdiff. }
    rewrite stat_join, Hs3 in Hsfile by assumption.
    assert (Hdata : data = sd) by congruence.
    rewrite Hdata in Hfs4. rewrite Hfs4.
    replace (clock w3) with (clock w) by congruence.
    change B with ((replica_path :: names) ++ [file]).
    now apply (lookup_put_same _ _ _ _ (fs w3) pm es).
Qed.

Variables (names : list string) (file : string).
Variables (sr : bool) (sm : Z) (sd : list byte) (now : Z).

Let A := replica_path :: names ++ [file].
Let S := source_path :: names ++ [file].

Let inv (w : world) : Prop :=
  good (fs w) /\ lookup (fs w) S = inr (File sr sm sd) /\ clock w = now.

Let step_ok (a b : exn + node) : Prop :=
  same_entry a b \/ b = inr (File true now sd) \/
  (is_dir_at a = true /\ is_dir_at b = true).

Let T (w w' : world) : Prop :=
  R (fs w) (fs w') /\ dirs_kept (fs w) (fs w') /\ clock w' = clock w /\
  step_ok (lookup (fs w) A) (lookup (fs w') A).

Lemma rewrite_trans (a b c : exn + node) : step_ok a b -> step_ok b c -> step_ok a c.
Proof.
  intros [Hab|[Hb|[Hda Hdb]]] [Hbc|[Hc|[Hdb' Hdc]]].
  - left. exact (same_entry_trans _ _ _ Hab Hbc).
  - right. now left.
  - right. right. split; [|assumption].
    destruct (same_entry_kind 0 _ _ Hab) as [_ ->]. assumption.
  - right. left. subst b. exact (same_entry_inr _ _ Hbc).
  - right. now left.
  - subst b. discriminate.
  - right. right. split; [assumption|].
    destruct (same_entry_kind 0 _ _ Hbc) as [_ <-]. assumption.
  - right. now left.
  - right. right. now split.
Qed.

Lemma recopy_refl (w : world) : T w w.
Proof.
  split; [apply changed_below_refl|]. split; [apply dirs_kept_refl|].
  split; [reflexivity|]. left. apply same_entry_refl.
Qed.

Lemma recopy_trans (w1 w2 w3 : world) : T w1 w2 -> T w2 w3 -> T w1 w3.
Proof.
  intros (H1 & H2 & H3 & H4) (K1 & K2 & K3 & K4). split; [|split; [|split]].
  - exact (below_trans _ _ _ _ _ H1 K1).
  - exact (dirs_kept_trans _ _ _ H2 K2).
  - congruence.
  - exact (rewrite_trans _ _ _ H4 K4).
Qed.

Lemma recopy_inv (w w' : world) : inv w -> T w w' -> inv w'.
Proof.
  destruct (roots_inv _ _ roots) as (_ & _ & Hdiff).
  intros (Hgood & Hsrc & Hclock) (HR & _ & Hc & _). split; [|split].
  - exact (tidy_step _ _ roots _ _ Hgood HR).
  - destruct HR as [Hframe _]. unfold S. now rewrite Hframe.
  - congruence.
Qed.

Lemma written_stable (a b : exn + node) :
  step_ok a b -> a = inr (File true now sd) -> b = inr (File true now sd).
Proof.
  intros [Hab|[Hb|[Hda _]]] Ha; subst a.
  - exact (same_entry_inr _ _ Hab).
  - assumption.
  - discriminate.
Qed.

Lemma recopy_round (names' : list string) (file' : string) (u u' : unit)
  (w w' : world) :
  forallb ok names' = true -> ok file' = true ->
  is_prefix A (replica_path :: names') = false ->
  (names' ++ [file'] <> names ++ [file] ->
   is_prefix (replica_path :: names' ++ [file']) A = false) ->
  inv w ->
  recopy_file source_path replica_path (path_str source_path names') u file' w
  = Done u' w' ->
  T w w' /\
  (names' ++ [file'] = names ++ [file] ->
   lookup (fs w') A = inr (File true now sd)).
Proof.
  intros Hnames Hfile Hup Hapart (Hgood & Hsrc & Hclock) Hrun. destruct u'.
  pose proof (respects_done _ _ _ _ _ _
                (respects_recopy_file _ _ roots names' file' u Hnames Hfile)
                Hgood Hrun) as HR.
  pose proof (respects_done _ _ _ _ _ _
                (kept_recopy_file _ _ _ u file') I Hrun) as Hkept.
  destruct (recopy_file_result names' file' u w w' Hnames Hfile Hgood Hrun)
    as (Hc & Hbeside & Hown).
  destruct (list_eq_dec string_dec (names' ++ [file']) (names ++ [file])) as [E|E].
  - apply app_inj_tail in E. destruct E as [-> ->].
    specialize (Hown sr sm sd Hsrc). fold A in Hown. rewrite Hclock in Hown.
    split; [|intros _; exact Hown].
    split; [exact HR | split; [exact Hkept | split; [exact Hc|]]].
    right. now left.
  - split; [|intros E'; contradiction].
    split; [exact HR | split; [exact Hkept | split; [exact Hc|]]].
    destruct (is_dir_at (lookup (fs w) A)) eqn:Hd.
    + right. right. split; [exact Hd|]. exact (dir_kept_at _ _ A Hkept Hd).
    + left. rewrite Hbeside.
      * apply same_entry_refl.
      * now apply Hapart.
      * exact Hup.
      * intros m es Hl. now rewrite Hl in Hd.
Qed.

Lemma recopy_pass_file (disk : node) (u u' : unit) (w w' : world) :
  good disk -> lookup disk S = inr (File sr sm sd) ->
  inv w ->
  for_each (os_walk disk source_path) u (recopy_dir source_path replica_path) w
  = Done u' w' ->
  lookup (fs w') A = inr (File true now sd).
Proof.
  intros Hdisk Hfile Hinv Hrun.
  destruct (roots_inv _ _ roots) as (Hs & Hr & Hdiff).
  pose proof Hdisk as Hdisk'. unfold good, tidy_disk in Hdisk'.
  apply andb_prop in Hdisk'. destruct Hdisk' as [Hsub _].
  destruct (source_file_names ok disk source_path names file sr sm sd Hsub Hfile)
    as [Hnames Hfok].
  destruct (ok_all_inv _ _ names Hnames) as (Hvalid & _ & _).
  destruct (lookup_file_parent disk S sr sm sd) as (pm & es & Hparent & Hfind);
    [discriminate | exact Hfile |].
  unfold S in Hparent, Hfind.
  destruct (removelast_snoc source_path names file) as [Hrl Hla].
  rewrite Hrl in Hparent. rewrite Hla in Hfind.
  set (itemA := (path_str source_path names, dir_names es, file_names es)).
  assert (HinA : In itemA (os_walk disk source_path)).
  { unfold os_walk. rewrite stat_plain by assumption.
    destruct (lookup disk [source_path]) as [e|n] eqn:Hn.
    - change (source_path :: names) with ([source_path] ++ names) in Hparent.
      rewrite lookup_app, Hn in Hparent. discriminate.
    - rewrite (lookup_head disk n) in Hparent by assumption.
      exact (walk_node_complete names n source_path pm es Hparent). }
  destruct (for_each_post (recopy_dir source_path replica_path) inv T
              (fun item w0 => item = itemA ->
                              lookup (fs w0) A = inr (File true now sd))
              (os_walk disk source_path) recopy_refl recopy_trans recopy_inv) with
    (acc := u) (w := w) (acc' := u') (w' := w') as [HT HQ];
    try assumption.
  - intros item w0 w0' (_ & _ & _ & Hstep) HQ E.
    exact (written_stable _ _ Hstep (HQ E)).
  - intros a item w0 a' w0' Hitem Hinv0 Hbody.
    destruct (walk_items_ok ok disk source_path item Hs Hsub Hitem)
      as (names' & m' & es' & Hl' & -> & Hnames' & Hfiles').
    destruct (ok_all_inv _ _ names' Hnames') as (Hvalid' & _ & _).
    unfold recopy_dir in Hbody.
    assert (Hup : is_prefix A (replica_path :: names') = false).
    { unfold A. rewrite is_prefix_cons.
      destruct (is_prefix (names ++ [file]) names') eqn:Hp; [|reflexivity].
      assert (E : S = source_path :: names').
      { apply (file_has_no_entries disk S (source_path :: names') sr sm sd (Dir m' es'));
          try assumption.
        unfold S. now rewrite is_prefix_cons. }
      rewrite <- E, Hfile in Hl'. discriminate. }
    destruct (for_each_post (recopy_file source_path replica_path
                               (path_str source_path names'))
                inv T
                (fun f w1 => names' ++ [f] = names ++ [file] ->
                             lookup (fs w1) A = inr (File true now sd))
                (file_names es') recopy_refl recopy_trans recopy_inv) with
      (acc := tt) (w := w0) (acc' := a') (w' := w0') as [HT0 HQ0];
      try assumption.
    + intros f w1 w1' (_ & _ & _ & Hstep) HQ E.
      exact (written_stable _ _ Hstep (HQ E)).
    + intros b f w1 b' w1' Hf Hinv1 Hstep.
      rewrite forallb_forall in Hfiles'.
      apply (recopy_round names' f b b' w1 w1' Hnames' (Hfiles' f Hf) Hup);
        try assumption.
      intros Hne. unfold A. rewrite is_prefix_cons.
      destruct (is_prefix (names' ++ [f]) (names ++ [file])) eqn:Hp; [|reflexivity].
      destruct (walk_item_files ok disk source_path names' m' es' f Hsub Hl' Hf)
        as (_ & r' & mt' & d' & Hl'').
      assert (E : source_path :: names' ++ [f] = S).
      { apply (file_has_no_entries disk _ S r' mt' d' (File sr sm sd));
          try assumption.
        unfold S. now rewrite is_prefix_cons. }
      unfold S in E. inversion E. contradiction.
    + split; [exact HT0|]. intros E. unfold itemA in E. inversion E as [[Hp Hd Hf]].
      apply (path_str_inj source_path names' names Hvalid' Hvalid) in Hp.
      subst names'. apply (HQ0 file); [|reflexivity]. rewrite Hf.
      now apply (find_entry_file_names file es sr sm sd).
  - exact (HQ itemA HinA eq_refl).
Qed.

End RecopyFile.

(** ** A regular file where [sync_folders] needs a directory *)

Lemma makedirs_from_blocked (now : Z) (rest : list string) :
  forall made root t u r m d,
    rest = t ++ u -> t <> [] ->
    lookup root (made ++ t) = inr (File r m d) ->
    exists e, makedirs_from now made rest root = inl e.
Proof.
  induction rest as [|c rest IH]; intros made root t u r m d Hrest Ht Hfile.
  - destruct t; [contradiction | discriminate].
  - destruct t as [|c' t]; [contradiction|]. cbn in Hrest.
    inversion Hrest; subst c' rest. clear Hrest. cbn [makedirs_from].
    replace (made ++ c :: t) with ((made ++ [c]) ++ t) in Hfile
      by (now rewrite <- app_assoc).
    pose proof Hfile as Hfile'. rewrite lookup_app in Hfile'.
    destruct (lookup root (made ++ [c])) as [e|[r0 m0 d0|m0 es0]] eqn:Hl;
      [discriminate | eauto |].
    destruct t as [|c'' t].
    + rewrite app_nil_r, Hl in Hfile. discriminate.
    + apply (IH (made ++ [c]) root (c'' :: t) u r m d);
        [reflexivity | discriminate | assumption].
Qed.

Lemma os_makedirs_blocked (name : string) (w : world) (t u : list string)
  (r : bool) (m : Z) (d : list byte) :
  resolve name = t ++ u -> t <> [] ->
  lookup (fs w) t = inr (File r m d) ->
  raised (os_makedirs name w) = true.
Proof.
  intros Hres Ht Hfile. unfold os_makedirs, path_exists. monad_unfold.
  destruct (String.eqb name EmptyString); [reflexivity|]. cbn.
  destruct (makedirs_from_blocked (clock w) (resolve name) [] (fs w) t u r m d
              Hres Ht Hfile) as [e ->].
  reflexivity.
Qed.

Section Conflict.

Variables source_path replica_path : string.
Hypothesis roots : plain_roots source_path replica_path = true.

Variable names : list string.
Variables (fr : bool) (fm : Z) (fd : list byte).

Let ok := tidy_name source_path replica_path.
Let good := fun d : node => tidy_disk source_path replica_path d = true.
Let R := changed_below ok replica_path.
Let D := replica_path :: names.

Let inv (w : world) : Prop :=
  good (fs w) /\ lookup (fs w) D = inr (File fr fm fd).

Let T (w w' : world) : Prop :=
  R (fs w) (fs w') /\ lookup (fs w') D = lookup (fs w) D.

Lemma conflict_refl (w : world) : T w w.
Proof. split; [apply changed_below_refl | reflexivity]. Qed.

Lemma conflict_trans (w1 w2 w3 : world) : T w1 w2 -> T w2 w3 -> T w1 w3.
Proof.
  intros (H1 & H2) (K1 & K2). split; [|congruence].
  exact (below_trans _ _ _ _ _ H1 K1).
Qed.

Lemma conflict_inv (w w' : world) : inv w -> T w w' -> inv w'.
Proof.
  intros [Hgood Hfile] (HR & Hsame). split; [|congruence].
  exact (tidy_step _ _ roots _ _ Hgood HR).
Qed.

Lemma copy_pass_blocked (disk : node) (m : Z) (es : list (string * node))
  (acc : bool) (w : world) :
  good disk -> lookup disk (source_path :: names) = inr (Dir m es) ->
  inv w ->
  raised (for_each (os_walk disk source_path) acc
            (sync_dir source_path replica_path) w) = true.
Proof.
  intros Hdisk Hdir Hinv.
  destruct (for_each (os_walk disk source_path) acc
              (sync_dir source_path replica_path) w) as [acc' w'|e w'] eqn:Hrun;
    [exfalso | reflexivity].
  destruct (roots_inv _ _ roots) as (Hs & Hr & Hdiff).
  pose proof Hdisk as Hdisk'. unfold good, tidy_disk in Hdisk'.
  apply andb_prop in Hdisk'. destruct Hdisk' as [Hsub _].
  set (itemD := (path_str source_path names, dir_names es, file_names es)).
  assert (HinD : In itemD (os_walk disk source_path)).
  { unfold os_walk. rewrite stat_plain by assumption.
    destruct (lookup disk [source_path]) as [e|n] eqn:Hn.
    - change (source_path :: names) with ([source_path] ++ names) in Hdir.
      rewrite lookup_app, Hn in Hdir. discriminate.
    - rewrite (lookup_head disk n) in Hdir by assumption.
      exact (walk_node_complete names n source_path m es Hdir). }
  destruct (for_each_post (sync_dir source_path replica_path) inv T
              (fun item w0 => item = itemD -> False)
              (os_walk disk source_path) conflict_refl conflict_trans conflict_inv) with
    (acc := acc) (w := w) (acc' := acc') (w' := w') as [_ HQ];
    try assumption.
  - intros item w0 w0' _ HQ E. exact (HQ E).
  - intros a item w0 a' w0' Hitem [Hgood0 Hfile0] Hbody.
    pose proof (respects_done _ _ _ _ _ _
                  (respects_sync_dir _ _ roots disk item a Hdisk Hitem)
                  Hgood0 Hbody) as HR.
    destruct (walk_items_ok ok disk source_path item Hs Hsub Hitem)
      as (names' & m' & es' & Hl' & -> & Hnames' & Hfiles').
    destruct (ok_all_inv _ _ names' Hnames') as (Hvalid' & Hnos' & _).
    unfold sync_dir in Hbody.
    rewrite replace_path_str in Hbody by assumption.
    apply bind_done in Hbody. destruct Hbody as ([] & w1 & Hmk & Hloop).
    destruct (is_prefix D (replica_path :: names')) eqn:Hpre.
    + exfalso. apply is_prefix_inv in Hpre. destruct Hpre as [u Hu].
      assert (Hraise : raised (os_makedirs (path_str replica_path names') w0) = true).
      { apply (os_makedirs_blocked _ w0 D u fr fm fd);
          [|discriminate | exact Hfile0].
        now rewrite resolve_path_str, resolve_valid. }
      now rewrite Hmk in Hraise.
    + destruct (makedirs_result _ _ roots _ _ _ Hnames' Hmk) as [Hother _].
      assert (H1 : lookup (fs w1) D = inr (File fr fm fd)).
      { now rewrite (Hother D Hpre). }
      assert (Hloop' : lookup (fs w0') D = lookup (fs w1) D).
      { refine (for_each_keeps (sync_file (path_str source_path names')
                                          (path_str replica_path names'))
                  (fun w2 => lookup (fs w2) D = lookup (fs w1) D)
                  (file_names es') _ a w1 a' w0' eq_refl Hloop).
        intros b f w2 b' w2' Hf Hsame Hstep.
        rewrite forallb_forall in Hfiles'.
        destruct (sync_file_result _ _ roots _ _ _ _ _ _ Hnames' (Hfiles' f Hf) Hstep)
          as [Hbeside _].
        rewrite <- Hsame. apply Hbeside.
        - destruct (is_prefix (replica_path :: names' ++ [f]) D) eqn:Hp;
            [|reflexivity].
          exfalso. unfold D in Hp. rewrite is_prefix_cons in Hp.
          destruct (walk_item_files ok disk source_path names' m' es' f Hsub Hl' Hf)
            as (_ & r' & mt' & d' & Hl'').
          assert (E : source_path :: names' ++ [f] = source_path :: names).
          { apply (file_has_no_entries disk _ _ r' mt' d' (Dir m es));
              try assumption.
            now rewrite is_prefix_cons. }
          rewrite E, Hdir in Hl''. discriminate.
        - intros m0 es0 E. rewrite Hsame, H1 in E. discriminate. }
      split; [split; [exact HR | congruence]|].
      intros E. unfold itemD in E. inversion E as [[Hp Hd Hf]].
      assert (Hvalid : forallb valid_name names = true).
      { unfold subtree_ok in Hsub.
        destruct (lookup disk [source_path]) as [e|n] eqn:Hn.
        - change (source_path :: names) with ([source_path] ++ names) in Hdir.
          rewrite lookup_app, Hn in Hdir. discriminate.
        - rewrite (lookup_head disk n) in Hdir by assumption.
          destruct (well_named_lookup ok names n _ Hsub Hdir) as [Hall _].
          now destruct (ok_all_inv _ _ names Hall). }
      apply (path_str_inj source_path names' names Hvalid' Hvalid) in Hp.
      subst names'. unfold D in Hpre. now rewrite is_prefix_refl in Hpre.
  - exact (HQ itemD HinD eq_refl).
Qed.

Lemma sync_folders_blocked (m : Z) (es : list (string * node)) (w : world) :
  good (fs w) ->
  lookup (fs w) (source_path :: names) = inr (Dir m es) ->
  lookup (fs w) D = inr (File fr fm fd) ->
  raised (sync_folders source_path replica_path w) = true.
Proof.
  intros Hgood Hdir Hfile. unfold sync_folders. unfold bind at 1. unfold get_fs at 1.
  unfold bind at 1.
  pose proof (copy_pass_blocked (fs w) m es false w Hgood Hdir (conj Hgood Hfile))
    as Hraised.
  destruct (for_each (os_walk (fs w) source_path) false
              (sync_dir source_path replica_path) w); [discriminate | reflexivity].
Qed.

End Conflict.

(** ** [sync_folders] on a replica that is in step *)

Lemma world_eta (w : world) :
  World (fs w) (clock w) (logged w) (printed w) (actions w) = w.
Proof. now destruct w. Qed.

Lemma for_each_idle {X A} (body : A -> X -> M A) (xs : list X) (acc : A)
  (w : world) :
  (forall x, In x xs -> body acc x w = Done acc w) ->
  for_each xs acc body w = Done acc w.
Proof.
  induction xs as [|x xs IH]; intros H; cbn; [reflexivity|].
  unfold bind. rewrite H by now left. apply IH. intros y Hy. apply H. now right.
Qed.

Lemma makedirs_from_present (now : Z) (rest : list string) :
  forall made root m es,
    lookup root (made ++ rest) = inr (Dir m es) ->
    makedirs_from now made rest root = inr root.
Proof.
  induction rest as [|c rest IH]; intros made root m es Hl; cbn; [reflexivity|].
  replace (made ++ c :: rest) with ((made ++ [c]) ++ rest) in Hl
    by (now rewrite <- app_assoc).
  pose proof Hl as Hl'. rewrite lookup_app in Hl'.
  destruct (lookup root (made ++ [c])) as [e|[r0 m0 d0|m0 es0]] eqn:Hc;
    [discriminate | | now apply (IH _ _ m es)].
  destruct rest; discriminate.
Qed.

Lemma os_makedirs_present (name : string) (w : world) (m : Z)
  (es : list (string * node)) :
  String.eqb name EmptyString = false -> ends_with_sep name = false ->
  lookup (fs w) (resolve name) = inr (Dir m es) ->
  os_makedirs name w = Done tt w.
Proof.
  intros Hne Hsep Hl. unfold os_makedirs, path_exists. monad_unfold.
  rewrite Hne. cbn.
  rewrite (stat_no_trailing _ _ Hne Hsep), Hl.
  rewrite (makedirs_from_present (clock w) (resolve name) [] (fs w) m es Hl).
  cbn. now rewrite world_eta.
Qed.

Lemma sync_file_idle (root replica_root : string) (acc : bool) (file : string)
  (w : world) (sn : node) (rr : bool) (rm : Z) (rd : list byte) :
  stat (fs w) (join root file) = inr sn ->
  stat (fs w) (join replica_root file) = inr (File rr rm rd) ->
  (node_mtime sn - rm >? one_second) = false ->
  sync_file root replica_root acc file w = Done acc w.
Proof.
  intros Hs Hr Hfresh. unfold sync_file, path_exists, st_mtime. monad_unfold.
  cbn. rewrite Hr. cbn. rewrite Hs. cbn. rewrite Hr. cbn. now rewrite Hfresh.
Qed.

Lemma prune_file_idle (source_root replica_root : string) (u : unit)
  (file : string) (w : world) (n : node) :
  stat (fs w) (join source_root file) = inr n ->
  prune_file source_root replica_root u file w = Done tt w.
Proof.
  intros Hs. unfold prune_file, path_exists. monad_unfold. cbn. now rewrite Hs.
Qed.

Section InStep.

Variables source_path replica_path : string.
Hypothesis roots : plain_roots source_path replica_path = true.

Let ok := tidy_name source_path replica_path.

(** When the replica has the directories of the source, a file that is not
    stale for each file of the source, and no regular file that the source
    lacks, [sync_folders] returns and leaves everything as it is. *)
Lemma sync_folders_idle (w : world) :
  tidy_disk source_path replica_path (fs w) = true ->
  (forall names m es,
     lookup (fs w) (source_path :: names) = inr (Dir m es) ->
     exists m' es', lookup (fs w) (replica_path :: names) = inr (Dir m' es')) ->
  (forall names file sr sm sd,
     lookup (fs w) (source_path :: names ++ [file]) = inr (File sr sm sd) ->
     exists rr rm rd,
       lookup (fs w) (replica_path :: names ++ [file]) = inr (File rr rm rd) /\
       (sm - rm >? one_second) = false) ->
  no_orphans source_path replica_path (fs w) ->
  sync_folders source_path replica_path w = Done tt w.
Proof.
  intros Htidy Hdirs Hfiles Hclean.
  destruct (roots_inv _ _ roots) as (Hs & Hr & Hdiff).
  destruct (valid_name_inv _ Hr) as (Hrne & _ & _ & Hrsep).
  pose proof Htidy as Htidy'. unfold tidy_disk in Htidy'.
  apply andb_prop in Htidy'. destruct Htidy' as [Hsub Hrep].
  unfold sync_folders. unfold bind at 1. unfold get_fs at 1.
  unfold bind at 1.
  rewrite (for_each_idle (sync_dir source_path replica_path)
             (os_walk (fs w) source_path) false w).
  2:{ intros item Hitem.
      destruct (walk_items_ok ok (fs w) source_path item Hs Hsub Hitem)
        as (names & m & es & Hl & -> & Hnames & Hfnames).
      destruct (ok_all_inv _ _ names Hnames) as (Hvalid & Hnos & _).
      destruct (path_str_shape names replica_path Hrne
                  (ends_with_sep_no_sep _ Hrsep) Hvalid) as [Hpne Hpsep].
      unfold sync_dir. rewrite replace_path_str by assumption.
      unfold bind.
      destruct (Hdirs names m es Hl) as (m' & es' & Hd).
      rewrite (os_makedirs_present (path_str replica_path names) w m' es').
      - apply for_each_idle. intros f Hf.
        destruct (walk_item_files ok (fs w) source_path names m es f Hsub Hl Hf)
          as (Hfok & r0 & mt0 & d0 & Hsf).
        destruct (ok_inv _ _ f Hfok) as (Hfv & _ & _).
        destruct (Hfiles names f r0 mt0 d0 Hsf) as (rr & rm & rd & Hrf & Hfresh).
        apply (sync_file_idle _ _ false f w (File r0 mt0 d0) rr rm rd);
          [now rewrite stat_join | now rewrite stat_join | exact Hfresh].
      - now apply String.eqb_neq.
      - assumption.
      - now rewrite resolve_path_str, resolve_valid. }
  unfold bind at 1. unfold get_fs at 1. unfold bind at 1.
  rewrite (for_each_idle (prune_dir source_path replica_path)
             (os_walk (fs w) replica_path) tt w); [reflexivity|].
  intros item Hitem.
  destruct (walk_items_ok ok (fs w) replica_path item Hr Hrep Hitem)
    as (names & m & es & Hl & -> & Hnames & Hfnames).
  destruct (ok_all_inv _ _ names Hnames) as (Hvalid & _ & Hnor).
  unfold prune_dir. rewrite replace_path_str by assumption.
  apply for_each_idle. intros f Hf.
  destruct (walk_item_files ok (fs w) replica_path names m es f Hrep Hl Hf)
    as (Hfok & r0 & mt0 & d0 & Hrf).
  destruct (ok_inv _ _ f Hfok) as (Hfv & _ & _).
  destruct (Hclean names f) as [n Hn]; [now exists r0, mt0, d0|].
  apply (prune_file_idle _ _ tt f w n). now rewrite stat_join.
Qed.

End InStep.

(** What [sync_folders] returns on is in step, unless a directory of the
    replica stood where the source has a file. *)
Lemma sync_folders_settles (source_path replica_path : string)
  (w w' : world) :
  plain_roots source_path replica_path = true ->
  tidy_disk source_path replica_path (fs w) = true ->
  (forall names file sr sm sd,
     lookup (fs w) (source_path :: names ++ [file]) = inr (File sr sm sd) ->
     is_dir_at (lookup (fs w) (replica_path :: names ++ [file])) = false) ->
  sync_folders source_path replica_path w = Done tt w' ->
  sync_folders source_path replica_path w' = Done tt w'.
Proof.
  intros roots Htidy Hfree Hrun.
  destruct (roots_inv _ _ roots) as (_ & _ & Hdiff).
  pose proof (respects_done _ _ _ _ _ _
                (respects_sync_folders _ _ roots) Htidy Hrun) as Hstep.
  pose proof Hstep as [Hframe _].
  assert (Hsrc : forall p,
             lookup (fs w') (source_path :: p) = lookup (fs w) (source_path :: p))
    by (intros p; now apply Hframe).
  apply (sync_folders_idle _ _ roots).
  - exact (tidy_step _ _ roots _ _ Htidy Hstep).
  - intros names m es Hl. rewrite Hsrc in Hl.
    exact (sync_folders_dir _ _ roots names m es w w' Htidy Hl Hrun).
  - intros names file sr sm sd Hl. rewrite Hsrc in Hl.
    pose proof (sync_folders_file _ _ roots names file sr sm sd w w'
                  Htidy Hl Hrun) as Hres.
    pose proof (Hfree names file sr sm sd Hl) as Hnodir.
    destruct (lookup (fs w) (replica_path :: names ++ [file]))
      as [e|[rr rm rd|m es]].
    + exists true, sm, sd. split; [exact Hres|].
      rewrite Z.sub_diag. reflexivity.
    + destruct (sm - rm >? one_second) eqn:Hstale.
      * exists true, sm, sd. split; [exact Hres|].
        rewrite Z.sub_diag. reflexivity.
      * exists rr, rm, rd. now split.
    + discriminate.
  - exact (sync_folders_no_orphans _ _ roots w w' Htidy Hrun).
Qed.


(** Evaluate the lookups of a goal on a disk that is written out: names
    that are given are compared, the comparisons with a name that is not
    are left for a case analysis. *)
Ltac eval_names :=
  cbn -[String.eqb];
  repeat match goal with
  | |- context [String.eqb ?a ?b] =>
      let v := eval vm_compute in (String.eqb a b) in
      match v with
      | true => change (String.eqb a b) with true
      | false => change (String.eqb a b) with false
      end; cbn -[String.eqb]
  end.

(** ** Properties of the specification *)

(** C1. Convergence fails on [stray_file_disk]: no top-level file differs,
    so [check_for_events] does not call [sync_folders]; the digests differ,
    the recopy pass rewrites [dst/a.txt] and leaves [dst/sub/b.txt] where it
    is; the cycle returns and the two digests still differ. *)
Theorem stray_file_digests_differ :
  exists w',
    sync_cycle "src" "dst" "INFO" (boot stray_file_disk) = Done tt w' /\
    get_folder_hash "src" w' = Done "9dd4e461268c8034f5c8564e155c67a6" w' /\
    get_folder_hash "dst" w' = Done "3e44107170a520582ade522fa73c1d15" w'.
Proof.
  eexists. split; [vm_compute; reflexivity|].
  split; vm_compute; reflexivity.
Qed.

(** C2, as stated, fails by design on [stray_dir_disk]: [sync_folders] runs
    (the source has a new top-level file) and the cycle returns, yet the
    directory [dst/old], which the source does not have, is still there. *)
Lemma stray_directory_survives :
  exists w',
    sync_cycle "src" "dst" "INFO" (boot stray_dir_disk) = Done tt w' /\
    actions w' = [Copy2 "src/a.txt" "dst/a.txt"] /\
    stat (fs w') "src/old" = inl FileNotFoundError /\
    stat (fs w') "dst/old" = inr (Dir 0 []).
Proof.
  eexists. split; [vm_compute; reflexivity|].
  repeat split; vm_compute; reflexivity.
Qed.

(** C2, amended.  With the roots given as plain, different names over tidy
    trees, after a cycle that returns: if [check_for_events] found a new,
    modified or removed top-level file (so that [sync_folders] ran), every
    regular file below the replica root has an entry at the same relative
    path below the source root, so the regular files that were in the
    replica and not in the source have been removed; if the replica held no
    such file before the cycle, it holds none after it (they do not
    reappear).  Directories are never removed: every directory of the disk,
    those that only the replica has among them, is still a directory after
    the cycle. *)
Theorem sync_cycle_prunes_files_keeps_dirs
  (source_path replica_path log_level : string) (w : world) :
  plain_roots source_path replica_path = true ->
  tidy_disk source_path replica_path (fs w) = true ->
  raised (sync_cycle source_path replica_path log_level w) = false ->
  events_found source_path replica_path w = true \/
  no_orphans source_path replica_path (fs w) ->
  no_orphans source_path replica_path
    (fs (final (sync_cycle source_path replica_path log_level w))) /\
  dirs_kept (fs w) (fs (final (sync_cycle source_path replica_path log_level w))).
Proof.
  intros Hroots Htidy Hdone Hcase. split; [|now apply kept_sync_cycle].
  destruct (sync_cycle source_path replica_path log_level w) as [[] w'|e w'] eqn:Hrun;
    [|discriminate].
  cbn. now apply (sync_cycle_no_orphans source_path replica_path Hroots log_level w w').
Qed.

(** On [orphans_disk] the source has a new top-level file and the cycle
    returns; afterwards [dst/old.txt] and [dst/olddir/deep.txt] are gone,
    [dst/olddir] is still a directory and the replica holds no orphan
    file. *)
Lemma sync_cycle_prunes_files_keeps_dirs_witness :
  (stat (fs (final (sync_cycle "src" "dst" "INFO" (boot orphans_disk)))) "dst/old.txt"
   = inl FileNotFoundError /\
   stat (fs (final (sync_cycle "src" "dst" "INFO" (boot orphans_disk)))) "dst/olddir"
   = inr (Dir (seconds 100) [])) /\
  no_orphans "src" "dst"
    (fs (final (sync_cycle "src" "dst" "INFO" (boot orphans_disk)))) /\
  dirs_kept (fs (boot orphans_disk))
            (fs (final (sync_cycle "src" "dst" "INFO" (boot orphans_disk)))).
Proof.
  split.
  - split; vm_compute; reflexivity.
  - apply (sync_cycle_prunes_files_keeps_dirs "src" "dst" "INFO" (boot orphans_disk));
      [vm_compute; reflexivity | vm_compute; reflexivity | vm_compute; reflexivity |].
    left. vm_compute. reflexivity.
Defined.

(** C3. Idempotence fails on [stray_file_disk]: the second cycle, run after
    the sleep and with nothing else touching the disk, removes and rewrites
    [dst/a.txt] again. *)
Theorem second_cycle_recopies :
  exists w1 w2,
    (sync_cycle "src" "dst" "INFO" ;; time_sleep 5) (boot stray_file_disk)
    = Done tt w1 /\
    sync_cycle "src" "dst" "INFO" w1 = Done tt w2 /\
    actions w2
    = actions w1 ++ [Remove "dst/a.txt"; Copyfile "src/a.txt" "dst/a.txt"] /\
    fs w2 <> fs w1.
Proof.
  eexists. eexists. split; [vm_compute; reflexivity|].
  split; [vm_compute; reflexivity|].
  split; [vm_compute; reflexivity|].
  vm_compute. discriminate.
Qed.

(** C4. Without a replica directory the cycle raises [FileNotFoundError]
    (from [os.listdir(replica_path)] in [check_for_events]) and creates
    nothing. *)
Theorem missing_replica_raises :
  sync_cycle "src" "dst" "INFO" (boot no_replica_disk)
  = Raised FileNotFoundError (boot no_replica_disk).
Proof. vm_compute. reflexivity. Qed.



(** C6. The recopy pass does not keep modification times: on
    [changed_bytes_disk] the replica file ends with the source's bytes and
    the time of the copy. *)
Theorem recopy_stamps_copy_time :
  exists w',
    sync_cycle "src" "dst" "INFO" (boot changed_bytes_disk) = Done tt w' /\
    actions w' = [Remove "dst/a.txt"; Copyfile "src/a.txt" "dst/a.txt"] /\
    stat (fs w') "src/a.txt" = inr (File true (seconds 10) (text "new")) /\
    stat (fs w') "dst/a.txt" = inr (File true (seconds 100) (text "new")).
Proof.
  eexists. split; [vm_compute; reflexivity|].
  repeat split; vm_compute; reflexivity.
Qed.

(** C7, as stated, fails on [unreadable_disk]: copying [src/a.txt] raises
    [PermissionError]; the cycle ends there, [src/b.txt] is never copied and
    no record of the failure is made. *)
Lemma unreadable_file_aborts_cycle :
  exists w',
    sync_cycle "src" "dst" "INFO" (boot unreadable_disk)
    = Raised PermissionError w' /\
    stat (fs w') "dst/b.txt" = inl FileNotFoundError /\
    logged w' = [NewFileCreated "src/a.txt"; NewFileCreated "src/b.txt"] /\
    actions w' = [].
Proof.
  eexists. split; [vm_compute; reflexivity|].
  repeat split; vm_compute; reflexivity.
Qed.

(** C7, amended.  Nothing in the script catches an exception.  With the
    roots given as plain, different names over tidy trees, a source file that
    cannot be read (permission denied) ends the cycle with an exception,
    raised by the copy in [sync_folders] or by the hash walk, whichever meets
    the file first: the file is not skipped, the cycle does not go on to its
    end, and what it did before the failure is confined to the replica. *)
Theorem unreadable_source_file_ends_cycle
  (source_path replica_path log_level : string) (w : world)
  (names : list string) (file : string) (m : Z) (d : list byte) :
  plain_roots source_path replica_path = true ->
  tidy_disk source_path replica_path (fs w) = true ->
  lookup (fs w) (source_path :: names ++ [file]) = inr (File false m d) ->
  raised (sync_cycle source_path replica_path log_level w) = true /\
  forall c p,
    c <> replica_path ->
    lookup (fs (final (sync_cycle source_path replica_path log_level w))) (c :: p)
    = lookup (fs w) (c :: p).
Proof.
  intros Hroots Htidy Hfile.
  split; [|now apply sync_cycle_changes_replica_only].
  destruct (roots_inv _ _ Hroots) as (Hs & Hr & Hne).
  pose proof (respects_check_for_events source_path replica_path Hroots w Htidy)
    as Hcheck.
  unfold sync_cycle. unfold bind at 1.
  destruct (check_for_events source_path replica_path w) as [[] w1|e w1];
    [|reflexivity].
  cbn in Hcheck.
  pose proof (tidy_step source_path replica_path Hroots _ _ Htidy Hcheck) as Htidy1.
  destruct Hcheck as [Hframe _].
  rewrite <- (Hframe source_path (names ++ [file]) Hne) in Hfile.
  assert (Hall : all_readable (fs w1) source_path = false).
  { apply (unreadable_in_walk (fs w1) source_path names file m d);
      [assumption | | assumption].
    unfold tidy_disk in Htidy1. apply andb_prop in Htidy1.
    destruct Htidy1 as [Hsub _]. unfold subtree_ok in *.
    destruct (lookup (fs w1) [source_path]); [reflexivity|].
    apply (well_named_weaken (tidy_name source_path replica_path)); [|assumption].
    intros c Hc. now apply (ok_inv source_path replica_path) in Hc. }
  destruct (get_folder_hash_unreadable w1 source_path Hall) as [e He].
  unfold bind. now rewrite He.
Qed.

(** On [unreadable_disk], [src/a.txt] cannot be read and the cycle ends in
    the exception. *)
Lemma unreadable_source_file_ends_cycle_witness :
  raised (sync_cycle "src" "dst" "INFO" (boot unreadable_disk)) = true /\
  forall c p,
    c <> "dst" ->
    lookup (fs (final (sync_cycle "src" "dst" "INFO" (boot unreadable_disk)))) (c :: p)
    = lookup (fs (boot unreadable_disk)) (c :: p).
Proof.
  apply (unreadable_source_file_ends_cycle "src" "dst" "INFO" (boot unreadable_disk)
           [] "a.txt" (seconds 10) (text "x"));
    vm_compute; reflexivity.
Defined.

(** C8. The recopy pass logs nothing: on [changed_bytes_disk] a file is
    removed and a file is copied, and the only record of the cycle is its
    closing line. *)
Theorem recopy_logs_nothing :
  exists w',
    sync_cycle "src" "dst" "INFO" (boot changed_bytes_disk) = Done tt w' /\
    actions w' = [Remove "dst/a.txt"; Copyfile "src/a.txt" "dst/a.txt"] /\
    logged w' = [FoldersSynchronizedAt (seconds 100)] /\
    printed w' = [].
Proof.
  eexists. split; [vm_compute; reflexivity|].
  repeat split; vm_compute; reflexivity.
Qed.

(** C9. With the source given as [ab/] and the replica as [a], the
    directory [ab/b] is mapped to ["ab/b".replace("ab/", "a")], which is
    [ab]: [sync_folders] copies [ab/b/f] to [ab/f], a new file in the source
    tree. *)
Theorem trailing_separator_writes_source :
  exists w',
    sync_cycle "ab/" "a" "INFO" (boot sibling_disk) = Done tt w' /\
    In (Copy2 "ab/b/f" "ab/f") (actions w') /\
    lookup sibling_disk ["ab"; "f"] = inl FileNotFoundError /\
    lookup (fs w') ["ab"; "f"] = inr (File true (seconds 10) (text "y")).
Proof.
  eexists. split; [vm_compute; reflexivity|].
  split; [vm_compute; tauto|].
  split; vm_compute; reflexivity.
Qed.

(** C10. The digest of [get_folder_hash] is a function of the bytes of the
    files in walk order and of nothing else: two folders (on any two disks)
    whose walks yield the same byte stream get the same digest, whatever the
    names of their files, the directories the files sit in, or the empty
    directories around them. *)
Theorem get_folder_hash_stream_only (w1 w2 : world) (folder1 folder2 : string) :
  all_readable (fs w1) folder1 = true ->
  all_readable (fs w2) folder2 = true ->
  walk_stream (fs w1) folder1 = walk_stream (fs w2) folder2 ->
  exists digest,
    get_folder_hash folder1 w1 = Done digest w1 /\
    get_folder_hash folder2 w2 = Done digest w2.
Proof.
  intros Hread1 Hread2 Hsame.
  exists (MD5.hexdigest (walk_stream (fs w1) folder1)). split.
  - now apply get_folder_hash_stream.
  - rewrite Hsame. now apply get_folder_hash_stream.
Qed.

(** A one-file tree and a tree of two files, a subdirectory and an empty
    directory have the same digest: equal digests do not make equal trees. *)
Lemma get_folder_hash_stream_only_witness :
  lookup flat_disk ["one"] <> lookup deep_disk ["two"] /\
  exists digest,
    get_folder_hash "one" (boot flat_disk) = Done digest (boot flat_disk) /\
    get_folder_hash "two" (boot deep_disk) = Done digest (boot deep_disk).
Proof.
  split.
  - vm_compute. discriminate.
  - apply (get_folder_hash_stream_only (boot flat_disk) (boot deep_disk) "one" "two");
      vm_compute; reflexivity.
Defined.

(** ** Further properties of the script *)

(** *** [get_folder_hash] *)

(** X1. The read loop of [get_folder_hash] feeds the hash every byte of the
    file, in order, as soon as it is given one round for each 4096 bytes:
    the size of the chunks does not show in what is hashed. *)
Theorem read_chunks_feeds_every_byte (rounds : nat) (hash f : list byte) :
  (List.length f <= rounds * chunk_size)%nat ->
  read_chunks rounds hash f = hash ++ f.
Proof.
  revert hash f. induction rounds as [|k IH]; intros hash f Hlen.
  - destruct f; [now rewrite app_nil_r | cbn in Hlen; lia].
  - unfold read_chunks; fold read_chunks.
    destruct (firstn chunk_size f) as [|b data] eqn:Hfirst.
    + apply firstn_nil_inv in Hfirst; [|apply chunk_size_pos].
      subst f. now rewrite app_nil_r.
    + rewrite IH.
      * rewrite <- app_assoc, <- Hfirst. now rewrite firstn_skipn.
      * rewrite length_skipn. cbn [Nat.mul] in Hlen. lia.
Qed.

(** A file of 5000 bytes is read in two rounds. *)
Lemma read_chunks_feeds_every_byte_witness :
  read_chunks 2 (text "head") (repeat "x"%byte 5000)
  = text "head" ++ repeat "x"%byte 5000.
Proof.
  apply (read_chunks_feeds_every_byte 2 (text "head") (repeat "x"%byte 5000)).
  apply Nat.leb_le. vm_compute. reflexivity.
Defined.

(** X2. The digest of a folder that is not there, or that is a regular
    file, is the MD5 of the empty input: [os.walk] yields nothing for it and
    [get_folder_hash] returns without an error. *)
Theorem get_folder_hash_of_no_directory (w : world) (folder : string) :
  (forall m es, stat (fs w) folder <> inr (Dir m es)) ->
  get_folder_hash folder w = Done "d41d8cd98f00b204e9800998ecf8427e" w.
Proof.
  intros Hno. unfold get_folder_hash, os_walk. monad_unfold.
  destruct (stat (fs w) folder) as [e|[r m d|m es]]; cbn;
    [reflexivity | reflexivity | now destruct (Hno m es)].
Qed.

(** There is no [dst] on [no_replica_disk], and [src/a.txt] is a file. *)
Lemma get_folder_hash_of_no_directory_witness :
  get_folder_hash "dst" (boot no_replica_disk)
  = Done "d41d8cd98f00b204e9800998ecf8427e" (boot no_replica_disk) /\
  get_folder_hash "src/a.txt" (boot no_replica_disk)
  = Done "d41d8cd98f00b204e9800998ecf8427e" (boot no_replica_disk).
Proof.
  split.
  - apply (get_folder_hash_of_no_directory (boot no_replica_disk) "dst").
    intros m es. vm_compute. discriminate.
  - apply (get_folder_hash_of_no_directory (boot no_replica_disk) "src/a.txt").
    intros m es. vm_compute. discriminate.
Defined.

(** X3. For a folder given by a plain name over a well-named tree, the
    outcome of [get_folder_hash] is a function of the tree alone: when every
    file of the tree can be read, the MD5 of the bytes of its files, those of
    a directory first and then those of its subdirectories, in listing
    order; otherwise [PermissionError].  Either way the world is left as it
    was; names, times and the place of the folder on the disk do not enter
    the digest. *)
Theorem get_folder_hash_of_tree (w : world) (folder : string) (n : node) :
  valid_name folder = true ->
  lookup (fs w) [folder] = inr n ->
  well_named valid_name n = true ->
  get_folder_hash folder w
  = if tree_readable n
    then Done (MD5.hexdigest (tree_bytes n)) w
    else Raised PermissionError w.
Proof. apply get_folder_hash_tree. Qed.

(** The tree [two] of [deep_disk] holds the bytes [x] and [y]; the source
    of [unreadable_disk] has a file that cannot be read. *)
Lemma get_folder_hash_of_tree_witness :
  get_folder_hash "two" (boot deep_disk)
  = Done (MD5.hexdigest (text "xy")) (boot deep_disk) /\
  get_folder_hash "src" (boot unreadable_disk)
  = Raised PermissionError (boot unreadable_disk).
Proof.
  split.
  - apply (get_folder_hash_of_tree (boot deep_disk) "two"
             (Dir 0 [ ("p.txt", File true (seconds 20) (text "x"));
                      ("empty", Dir 0 []);
                      ("d", Dir 0 [ ("q.txt", File true (seconds 30) (text "y")) ]) ]));
      reflexivity.
  - apply (get_folder_hash_of_tree (boot unreadable_disk) "src"
             (Dir 0 [ ("a.txt", File false (seconds 10) (text "x"));
                      ("b.txt", File true (seconds 10) (text "y")) ]));
      reflexivity.
Defined.

(** *** [check_for_events] *)

(** X4. A cycle on a root that cannot be listed (the source or the replica
    is missing, or is a regular file) ends in the exception of [os.listdir],
    that of the source first, with the world as it was: nothing is created,
    copied or logged, whatever the source holds, and [sync_folders], which
    would create a missing replica root, is not reached. *)
Theorem unlistable_root_ends_cycle
  (source_path replica_path log_level : string) (w : world) (e : exn) :
  roots_error (fs w) source_path replica_path = Some e ->
  sync_cycle source_path replica_path log_level w = Raised e w.
Proof.
  unfold roots_error. intros Hroots.
  unfold sync_cycle, check_for_events, scan_events.
  destruct (listdir_error (fs w) source_path) as [e'|] eqn:Hs.
  - inversion Hroots; subst e'.
    unfold bind. now rewrite (listdir_raises _ _ _ Hs).
  - destruct (listdir_returns _ _ Hs) as [names Hnames].
    unfold bind at 1 2 3 4. rewrite Hnames.
    destruct (source_scan_without_replica source_path replica_path w e Hroots
                names (Events [] [] [])) as [-> | ->]; [|reflexivity].
    unfold bind. now rewrite (listdir_raises _ _ _ Hroots).
Qed.

(** A source that is missing, a source that is a regular file, a replica
    that is missing beside a source that holds a file. *)
Lemma unlistable_root_ends_cycle_witness :
  sync_cycle "nowhere" "dst" "INFO" (boot stray_dir_disk)
  = Raised FileNotFoundError (boot stray_dir_disk) /\
  sync_cycle "src/a.txt" "dst" "INFO" (boot stray_dir_disk)
  = Raised NotADirectoryError (boot stray_dir_disk) /\
  sync_cycle "src" "dst" "INFO" (boot no_replica_disk)
  = Raised FileNotFoundError (boot no_replica_disk).
Proof.
  split; [|split].
  - apply (unlistable_root_ends_cycle "nowhere" "dst" "INFO" (boot stray_dir_disk)).
    reflexivity.
  - apply (unlistable_root_ends_cycle "src/a.txt" "dst" "INFO" (boot stray_dir_disk)).
    reflexivity.
  - apply (unlistable_root_ends_cycle "src" "dst" "INFO" (boot no_replica_disk)).
    reflexivity.
Defined.



(** X6. Over tidy trees with plain roots, a call of [check_for_events]
    that found an event and returns ends with the record
    [Source hash: ...] in the log, and the digest in it is the digest of the
    source tree as it was before the call: [sync_folders] has not touched
    the source. *)
Theorem check_for_events_logs_source_digest
  (source_path replica_path : string) (w w' : world) (n : node) :
  plain_roots source_path replica_path = true ->
  tidy_disk source_path replica_path (fs w) = true ->
  lookup (fs w) [source_path] = inr n ->
  events_found source_path replica_path w = true ->
  check_for_events source_path replica_path w = Done tt w' ->
  exists lm, logged w' = lm ++ [SourceHash (MD5.hexdigest (tree_bytes n))].
Proof.
  intros Hroots Htidy Hn Hev Hrun.
  destruct (roots_inv _ _ Hroots) as (Hs & Hr & Hdiff).
  unfold events_found in Hev. unfold check_for_events in Hrun.
  unfold bind at 1 in Hrun.
  pose proof (reads_scan_events source_path replica_path w) as [Hfs1 _].
  destruct (scan_events source_path replica_path w) as [ev w1|e w1];
    [|discriminate].
  cbn [final] in *. rewrite Hev in Hrun.
  apply bind_done in Hrun. destruct Hrun as ([] & w2 & Hsync & Hrun).
  apply bind_done in Hrun. destruct Hrun as (h & w3 & Hhash & Hlog).
  assert (Htidy1 : tidy_disk source_path replica_path (fs w1) = true)
    by now rewrite Hfs1.
  pose proof (respects_done _ _ _ _ _ _
                (respects_sync_folders _ _ Hroots) Htidy1 Hsync) as [Hframe _].
  assert (Hn2 : lookup (fs w2) [source_path] = inr n).
  { rewrite Hframe by assumption. now rewrite Hfs1. }
  assert (Hwn : well_named valid_name n = true).
  { unfold tidy_disk in Htidy. apply andb_prop in Htidy. destruct Htidy as [Hsub _].
    unfold subtree_ok in Hsub. rewrite Hn in Hsub.
    apply (well_named_weaken (tidy_name source_path replica_path)); [|assumption].
    intros c Hc. now apply (ok_inv source_path replica_path) in Hc. }
  rewrite (get_folder_hash_tree w2 source_path n Hs Hn2 Hwn) in Hhash.
  destruct (tree_readable n); [|discriminate].
  inversion Hhash; subst h w3. clear Hhash.
  unfold logging_info in Hlog. inversion Hlog; subst w'. cbn.
  now exists (logged w2).
Qed.

(** On [orphans_disk] the source has a new file; its tree holds the one
    byte [x]. *)
Lemma check_for_events_logs_source_digest_witness :
  exists lm,
    logged (final (check_for_events "src" "dst" (boot orphans_disk)))
    = lm ++ [SourceHash (MD5.hexdigest (text "x"))].
Proof.
  apply (check_for_events_logs_source_digest "src" "dst" (boot orphans_disk)
           (final (check_for_events "src" "dst" (boot orphans_disk)))
           (Dir 0 [ ("a.txt", File true (seconds 10) (text "x")) ]));
    vm_compute; reflexivity.
Defined.

(** *** The two maps from source paths to replica paths *)

(** X7. Over tidy trees with plain roots, the substitution
    [root.replace(source_path, replica_path)] of [sync_folders] sends every
    directory path of the source walk to the path with the same components
    below the replica root, and the substitution of the deletion pass sends
    it back. *)
Theorem replace_maps_walk_roots (source_path replica_path : string)
  (disk : node) (root : string) (dirs files : list string) :
  plain_roots source_path replica_path = true ->
  tidy_disk source_path replica_path disk = true ->
  In (root, dirs, files) (os_walk disk source_path) ->
  exists names,
    resolve root = source_path :: names /\
    resolve (replace root source_path replica_path) = replica_path :: names /\
    replace (replace root source_path replica_path) replica_path source_path = root.
Proof.
  intros Hroots Htidy Hin.
  destruct (roots_inv _ _ Hroots) as (Hs & Hr & _).
  unfold tidy_disk in Htidy. apply andb_prop in Htidy. destruct Htidy as [Hsub _].
  destruct (walk_items_ok _ disk source_path _ Hs Hsub Hin)
    as (names & m & es & _ & Hitem & Hnames & _).
  inversion Hitem; subst. clear Hitem.
  destruct (ok_all_inv _ _ _ Hnames) as (Hvalid & Hnos & Hnor).
  exists names.
  rewrite (replace_path_str source_path replica_path names) by assumption.
  rewrite (replace_path_str replica_path source_path names) by assumption.
  rewrite !resolve_path_str by assumption.
  rewrite !resolve_valid by assumption.
  repeat split.
Qed.

(** The directory [two/d] of [deep_disk], with [dst] as replica root. *)
Lemma replace_maps_walk_roots_witness :
  exists names,
    resolve "two/d" = "two" :: names /\
    resolve (replace "two/d" "two" "dst") = "dst" :: names /\
    replace (replace "two/d" "two" "dst") "dst" "two" = "two/d".
Proof.
  apply (replace_maps_walk_roots "two" "dst" deep_disk "two/d" [] ["q.txt"]).
  - reflexivity.
  - reflexivity.
  - vm_compute. right. right. left. reflexivity.
Defined.

(** X8. Over tidy trees with plain roots, the two passes name the same
    replica file for a source file: the path [sync_folders] builds with
    [str.replace] and the path the recopy pass builds with
    [os.path.relpath] are the same string. *)
Theorem both_passes_name_one_replica_file (source_path replica_path : string)
  (disk : node) (root : string) (dirs files : list string) (file : string) :
  plain_roots source_path replica_path = true ->
  tidy_disk source_path replica_path disk = true ->
  In (root, dirs, files) (os_walk disk source_path) ->
  In file files ->
  join replica_path (relpath (join root file) source_path)
  = join (replace root source_path replica_path) file.
Proof.
  intros Hroots Htidy Hin Hfile.
  destruct (roots_inv _ _ Hroots) as (Hs & Hr & _).
  unfold tidy_disk in Htidy. apply andb_prop in Htidy. destruct Htidy as [Hsub _].
  destruct (walk_items_ok _ disk source_path _ Hs Hsub Hin)
    as (names & m & es & _ & Hitem & Hnames & Hfiles).
  inversion Hitem; subst. clear Hitem.
  destruct (ok_all_inv _ _ _ Hnames) as (Hvalid & Hnos & Hnor).
  rewrite forallb_forall in Hfiles.
  destruct (ok_inv _ _ _ (Hfiles file Hfile)) as (Hf & _).
  rewrite (replace_path_str source_path replica_path names) by assumption.
  now apply recopy_target.
Qed.

(** The file [d/q.txt] of a source [two], mirrored under [dst]. *)
Lemma both_passes_name_one_replica_file_witness :
  join "dst" (relpath (join "two/d" "q.txt") "two")
  = join (replace "two/d" "two" "dst") "q.txt".
Proof.
  apply (both_passes_name_one_replica_file "two" "dst" deep_disk "two/d" [] ["q.txt"]).
  - reflexivity.
  - reflexivity.
  - vm_compute. right. right. left. reflexivity.
  - now left.
Defined.

(** *** [sync_folders] *)

(** X9. Whatever [sync_folders] did before it returned or raised, the log
    and the console got the same lines, and these lines tell every copy and
    every removal the call performed, in the order it performed them, and
    none that it did not perform.  (The directories it creates are not
    told.) *)
Theorem sync_folders_tells_what_it_does (source_path replica_path : string)
  (w : world) :
  exists la lm,
    actions (final (sync_folders source_path replica_path w)) = actions w ++ la /\
    logged (final (sync_folders source_path replica_path w)) = logged w ++ lm /\
    printed (final (sync_folders source_path replica_path w)) = printed w ++ lm /\
    changes_told lm = changes_done la.
Proof.
  destruct (told_sync_folders source_path replica_path w) as (_ & H). exact H.
Qed.

(** X10. A call of [sync_folders] that returns has written one
    [Sync complete at ...] line if it copied at least one file, and none
    otherwise: removals alone do not produce the line. *)
Theorem sync_complete_iff_copied (source_path replica_path : string)
  (w w' : world) :
  sync_folders source_path replica_path w = Done tt w' ->
  sync_completes w'
  = (sync_completes w + if (copies w <? copies w')%nat then 1 else 0)%nat.
Proof. apply sync_folders_counts. Qed.

(** On [orphans_disk] a file is copied (and two are removed); on
    [leftover_disk] a file is removed and none is copied. *)
Lemma sync_complete_iff_copied_witness :
  sync_completes (final (sync_folders "src" "dst" (boot orphans_disk))) = 1%nat /\
  copies (final (sync_folders "src" "dst" (boot leftover_disk))) = 0%nat /\
  actions (final (sync_folders "src" "dst" (boot leftover_disk)))
  = [Remove "dst/old.txt"] /\
  sync_completes (final (sync_folders "src" "dst" (boot leftover_disk))) = 0%nat.
Proof.
  split; [|split; [|split]].
  - rewrite (sync_complete_iff_copied "src" "dst" (boot orphans_disk)
               (final (sync_folders "src" "dst" (boot orphans_disk))));
      vm_compute; reflexivity.
  - vm_compute. reflexivity.
  - vm_compute. reflexivity.
  - rewrite (sync_complete_iff_copied "src" "dst" (boot leftover_disk)
               (final (sync_folders "src" "dst" (boot leftover_disk))));
      vm_compute; reflexivity.
Defined.

(** X11. Over tidy trees with plain roots, a call of [sync_folders] that
    returns has made every directory of the source tree, the empty ones
    among them, a directory at the same relative path below the replica
    root (which the digest of [get_folder_hash] does not see). *)
Theorem sync_folders_makes_source_directories
  (source_path replica_path : string) (w w' : world)
  (names : list string) (m : Z) (es : list (string * node)) :
  plain_roots source_path replica_path = true ->
  tidy_disk source_path replica_path (fs w) = true ->
  sync_folders source_path replica_path w = Done tt w' ->
  lookup (fs w) (source_path :: names) = inr (Dir m es) ->
  exists m' es', lookup (fs w') (replica_path :: names) = inr (Dir m' es').
Proof.
  intros Hroots Htidy Hrun Hdir.
  exact (sync_folders_dir source_path replica_path Hroots names m es w w'
           Htidy Hdir Hrun).
Qed.

(** The source [two] of [deep_disk] holds an empty directory; there is no
    [dst] yet. *)
Lemma sync_folders_makes_source_directories_witness :
  exists m' es',
    lookup (fs (final (sync_folders "two" "dst" (boot deep_disk)))) ["dst"; "empty"]
    = inr (Dir m' es').
Proof.
  apply (sync_folders_makes_source_directories "two" "dst" (boot deep_disk)
           (final (sync_folders "two" "dst" (boot deep_disk)))
           ["empty"] 0 []);
    vm_compute; reflexivity.
Defined.



(** X13. Over tidy trees with plain roots, when the replica holds a regular
    file at the relative path of a directory of the source, [sync_folders]
    does not return: [os.makedirs(..., exist_ok=True)] accepts a directory
    that is there, not a file, and its exception ends the call (and, nothing
    catching it, the script). *)
Theorem file_in_place_of_directory_ends_sync_folders
  (source_path replica_path : string) (w : world) (names : list string)
  (m : Z) (es : list (string * node)) (fr : bool) (fm : Z) (fd : list byte) :
  plain_roots source_path replica_path = true ->
  tidy_disk source_path replica_path (fs w) = true ->
  lookup (fs w) (source_path :: names) = inr (Dir m es) ->
  lookup (fs w) (replica_path :: names) = inr (File fr fm fd) ->
  raised (sync_folders source_path replica_path w) = true.
Proof.
  intros Hroots Htidy Hdir Hfile.
  exact (sync_folders_blocked source_path replica_path Hroots names fr fm fd
           m es w Htidy Hdir Hfile).
Qed.

(** On [conflict_disk], [src/sub] is a directory and [dst/sub] a file: the
    call ends in [FileExistsError], after it has copied [a.txt]. *)
Lemma file_in_place_of_directory_ends_sync_folders_witness :
  raised (sync_folders "src" "dst" (boot conflict_disk)) = true /\
  exists w',
    sync_folders "src" "dst" (boot conflict_disk) = Raised FileExistsError w' /\
    actions w' = [Copy2 "src/a.txt" "dst/a.txt"].
Proof.
  split.
  - apply (file_in_place_of_directory_ends_sync_folders "src" "dst"
             (boot conflict_disk) ["sub"] 0
             [ ("b.txt", File true (seconds 10) (text "y")) ]
             true (seconds 10) (text "z"));
      reflexivity.
  - eexists. split; vm_compute; reflexivity.
Defined.





(** X16. Over tidy trees with plain roots, when no directory of the replica
    stands at the path of a regular file of the source, a call of
    [sync_folders] that returns leaves a state on which the next call
    returns with nothing changed and nothing recorded. *)
Theorem sync_folders_again_changes_nothing
  (source_path replica_path : string) (w w' : world) :
  plain_roots source_path replica_path = true ->
  tidy_disk source_path replica_path (fs w) = true ->
  (forall names file sr sm sd m es,
     lookup (fs w) (source_path :: names ++ [file]) = inr (File sr sm sd) ->
     lookup (fs w) (replica_path :: names ++ [file]) <> inr (Dir m es)) ->
  sync_folders source_path replica_path w = Done tt w' ->
  sync_folders source_path replica_path w' = Done tt w'.
Proof.
  intros Hroots Htidy Hfree Hrun.
  apply (sync_folders_settles source_path replica_path w w' Hroots Htidy);
    [|exact Hrun].
  intros names file sr sm sd Hl.
  pose proof (fun m es => Hfree names file sr sm sd m es Hl) as Hno.
  destruct (lookup (fs w) (replica_path :: names ++ [file]))
    as [e|[rr rm rd|m es]]; [reflexivity | reflexivity |].
  now destruct (Hno m es).
Qed.

(** On [orphans_disk] the first call copies one file and removes two; the
    second finds nothing to do. *)
Lemma sync_folders_again_changes_nothing_witness :
  sync_folders "src" "dst" (final (sync_folders "src" "dst" (boot orphans_disk)))
  = Done tt (final (sync_folders "src" "dst" (boot orphans_disk))) /\
  actions (final (sync_folders "src" "dst" (boot orphans_disk)))
  = [Copy2 "src/a.txt" "dst/a.txt"; Remove "dst/old.txt";
     Remove "dst/olddir/deep.txt"].
Proof.
  split; [|vm_compute; reflexivity].
  apply (sync_folders_again_changes_nothing "src" "dst" (boot orphans_disk));
    try (vm_compute; reflexivity).
  unfold boot, orphans_disk; cbn [fs].
  intros [|c rest] file sr sm sd m es; eval_names.
  - destruct (String.eqb "a.txt" file) eqn:Ha; [|discriminate].
    apply String.eqb_eq in Ha. subst file. intros _. vm_compute. discriminate.
  - destruct (String.eqb "a.txt" c); [|discriminate].
    destruct rest; discriminate.
Defined.

(** *** The recopy pass *)

(** X17. Over tidy trees with plain roots, a recopy pass (the loop that
    follows a digest mismatch) that returns has written, for every regular
    file of the source tree, a regular file with the source's bytes at the
    same relative path below the replica root; the file is new (the old one
    was removed first), so it carries the time of the pass, not the time of
    the source file. *)
Theorem recopy_pass_rewrites_every_file
  (source_path replica_path : string) (w w' : world)
  (names : list string) (file : string) (sr : bool) (sm : Z) (sd : list byte) :
  plain_roots source_path replica_path = true ->
  tidy_disk source_path replica_path (fs w) = true ->
  for_each (os_walk (fs w) source_path) tt (recopy_dir source_path replica_path) w
  = Done tt w' ->
  lookup (fs w) (source_path :: names ++ [file]) = inr (File sr sm sd) ->
  lookup (fs w') (replica_path :: names ++ [file]) = inr (File true (clock w) sd).
Proof.
  intros Hroots Htidy Hrun Hfile.
  apply (recopy_pass_file source_path replica_path Hroots names file sr sm sd
           (clock w) (fs w) tt tt w w'); try assumption.
  now repeat split.
Qed.

(** The recopy pass on [deep_disk], with [dst] as replica root. *)
Lemma recopy_pass_rewrites_every_file_witness :
  lookup (fs (final (for_each (os_walk deep_disk "two") tt (recopy_dir "two" "dst")
                       (boot deep_disk))))
         ["dst"; "d"; "q.txt"]
  = inr (File true (seconds 100) (text "y")).
Proof.
  apply (recopy_pass_rewrites_every_file "two" "dst" (boot deep_disk)
           (final (for_each (os_walk deep_disk "two") tt (recopy_dir "two" "dst")
                     (boot deep_disk)))
           ["d"] "q.txt" true (seconds 30) (text "y"));
    vm_compute; reflexivity.
Defined.

(** *** The cycle and the polling loop *)

(** X18. With [--log_level DEBUG] a cycle does what it does at any other
    level, except that it writes no closing record: the logger is always
    configured at level INFO, so the [logging.debug] call is dropped, where
    every other level ends the cycle with [Folders synchronized at ...]. *)
Theorem debug_level_drops_closing_record
  (source_path replica_path log_level : string) (w w' : world) :
  log_level <> "DEBUG" ->
  sync_cycle source_path replica_path "DEBUG" w = Done tt w' ->
  sync_cycle source_path replica_path log_level w
  = Done tt (World (fs w') (clock w')
                   (logged w' ++ [FoldersSynchronizedAt (clock w')])
                   (printed w') (actions w')).
Proof.
  intros Hlevel. apply String.eqb_neq in Hlevel.
  unfold sync_cycle. unfold bind.
  destruct (check_for_events source_path replica_path w) as [[] w1|e w1];
    [|discriminate].
  destruct (get_folder_hash source_path w1) as [source_hash w2|e w2];
    [|discriminate].
  destruct (get_folder_hash replica_path w2) as [replica_hash w3|e w3];
    [|discriminate].
  match goal with
  | |- match ?m with _ => _ end = _ -> _ => destruct m as [[] w4|e w4]
  end; [|discriminate].
  rewrite Hlevel. cbn. unfold time_now, logging_debug, logging_info, ret.
  intros H. inversion H; subst. reflexivity.
Qed.

(** A cycle on [changed_bytes_disk] at level DEBUG and at level INFO. *)
Lemma debug_level_drops_closing_record_witness :
  logged (final (sync_cycle "src" "dst" "DEBUG" (boot changed_bytes_disk))) = [] /\
  logged (final (sync_cycle "src" "dst" "INFO" (boot changed_bytes_disk)))
  = [FoldersSynchronizedAt (seconds 100)].
Proof.
  split; [vm_compute; reflexivity|].
  rewrite (debug_level_drops_closing_record "src" "dst" "INFO"
             (boot changed_bytes_disk)
             (final (sync_cycle "src" "dst" "DEBUG" (boot changed_bytes_disk)))).
  - vm_compute. reflexivity.
  - discriminate.
  - vm_compute. reflexivity.
Defined.

(** X19. A replica that mirrors its source is left alone.  When the replica
    tree has the names of the source tree in the same listing order, a
    directory under each directory, and under each file a file with the same
    bytes that is not older, and every file of the two trees can be read,
    the cycle copies nothing, removes nothing and creates nothing: it
    returns with the disk as it was, and all it writes is its closing record
    (nothing at all at level DEBUG). *)
Theorem mirrored_replica_is_left_alone (source_path replica_path log_level : string) (w : world)
  (ms mr : Z) (src rep : list (string * node)) :
  valid_name source_path = true -> valid_name replica_path = true ->
  lookup (fs w) [source_path] = inr (Dir ms src) ->
  lookup (fs w) [replica_path] = inr (Dir mr rep) ->
  well_named valid_name (Dir ms src) = true ->
  tree_readable (Dir ms src) = true ->
  tree_readable (Dir mr rep) = true ->
  mirrors (Dir ms src) (Dir mr rep) = true ->
  sync_cycle source_path replica_path log_level w
  = Done tt (if String.eqb log_level "DEBUG" then w
             else World (fs w) (clock w)
                        (logged w ++ [FoldersSynchronizedAt (clock w)])
                        (printed w) (actions w)).
Proof. apply mirrored_cycle. Qed.

(** A cycle on [mirrored_disk]. *)
Lemma mirrored_replica_is_left_alone_witness :
  sync_cycle "src" "dst" "INFO" (boot mirrored_disk)
  = Done tt (World mirrored_disk (seconds 100)
                   [FoldersSynchronizedAt (seconds 100)] [] []).
Proof.
  apply (mirrored_replica_is_left_alone "src" "dst" "INFO" (boot mirrored_disk)
           (seconds 20) (seconds 90)
           [ ("a.txt", File true (seconds 10) (text "x"));
             ("sub", Dir (seconds 15)
                       [ ("b.txt", File true (seconds 12) (text "y")) ]) ]
           [ ("a.txt", File true (seconds 10) (text "x"));
             ("sub", Dir (seconds 90)
                       [ ("b.txt", File true (seconds 12) (text "y")) ]) ]);
    reflexivity.
Defined.

(** X20. Once the replica mirrors the source, the loop is idle: however many
    passes follow, the disk stays as it is, no call that changes the disk is
    made and nothing is printed; each pass only writes its closing record
    and sleeps.  The interval is not negative, as [time.sleep] demands. *)
Theorem mirrored_replica_stays_untouched (n : nat)
  (source_path replica_path log_level : string) (interval : Z) (w : world)
  (ms mr : Z) (src rep : list (string * node)) :
  0 <= interval ->
  valid_name source_path = true -> valid_name replica_path = true ->
  lookup (fs w) [source_path] = inr (Dir ms src) ->
  lookup (fs w) [replica_path] = inr (Dir mr rep) ->
  well_named valid_name (Dir ms src) = true ->
  tree_readable (Dir ms src) = true ->
  tree_readable (Dir mr rep) = true ->
  mirrors (Dir ms src) (Dir mr rep) = true ->
  exists w',
    main_loop n source_path replica_path interval log_level w = Done tt w' /\
    fs w' = fs w /\ actions w' = actions w /\ printed w' = printed w.
Proof.
  intros _ Hs Hr Hls Hlr Hwn Hreads Hreadr Hm.
  destruct (mirrored_loop source_path replica_path log_level interval
              ms mr src rep (fs w) Hs Hr Hls Hlr Hwn Hreads Hreadr Hm n w eq_refl)
    as (w' & Hrun & Hfs & Ha & Hp & _).
  now exists w'.
Qed.

(** Four passes on [mirrored_disk], five seconds apart. *)
Lemma mirrored_replica_stays_untouched_witness :
  exists w',
    main_loop 4 "src" "dst" 5 "INFO" (boot mirrored_disk) = Done tt w' /\
    fs w' = mirrored_disk /\ actions w' = [] /\ printed w' = [].
Proof.
  apply (mirrored_replica_stays_untouched 4 "src" "dst" "INFO" 5 (boot mirrored_disk)
           (seconds 20) (seconds 90)
           [ ("a.txt", File true (seconds 10) (text "x"));
             ("sub", Dir (seconds 15)
                       [ ("b.txt", File true (seconds 12) (text "y")) ]) ]
           [ ("a.txt", File true (seconds 10) (text "x"));
             ("sub", Dir (seconds 90)
                       [ ("b.txt", File true (seconds 12) (text "y")) ]) ]);
    try reflexivity.
  lia.
Defined.

(** X21. Over tidy trees with plain roots, no number of passes of the loop
    changes anything outside the replica root, whether the passes return or
    one of them ends the loop with an exception: the source tree is as it
    was, and the trees are still tidy.  The interval is not negative, as
    [time.sleep] demands. *)
Theorem main_loop_changes_replica_only (n : nat)
  (source_path replica_path : string) (interval : Z) (log_level : string)
  (w : world) :
  0 <= interval ->
  plain_roots source_path replica_path = true ->
  tidy_disk source_path replica_path (fs w) = true ->
  tidy_disk source_path replica_path
    (fs (final (main_loop n source_path replica_path interval log_level w))) = true /\
  forall c p,
    c <> replica_path ->
    lookup (fs (final (main_loop n source_path replica_path interval log_level w)))
           (c :: p)
    = lookup (fs w) (c :: p).
Proof.
  intros _ Hroots Htidy.
  pose proof (respects_main_loop source_path replica_path interval log_level
                Hroots n w Htidy) as Hloop.
  split.
  - exact (tidy_step _ _ Hroots _ _ Htidy Hloop).
  - now destruct Hloop.
Qed.

(** Three passes over [orphans_disk], five seconds apart. *)
Lemma main_loop_changes_replica_only_witness :
  tidy_disk "src" "dst"
    (fs (final (main_loop 3 "src" "dst" 5 "INFO" (boot orphans_disk)))) = true /\
  forall c p,
    c <> "dst" ->
    lookup (fs (final (main_loop 3 "src" "dst" 5 "INFO" (boot orphans_disk)))) (c :: p)
    = lookup (fs (boot orphans_disk)) (c :: p).
Proof.
  apply (main_loop_changes_replica_only 3 "src" "dst" 5 "INFO" (boot orphans_disk)).
  - lia.
  - reflexivity.
  - reflexivity.
Defined.

(** X22. No pass of the loop removes a directory, whatever the two paths
    are and whatever the disk holds: every directory of the disk is still a
    directory after any number of passes.  The script has no call that
    removes one. *)
Theorem main_loop_keeps_directories (n : nat)
  (source_path replica_path : string) (interval : Z) (log_level : string)
  (w : world) :
  0 <= interval ->
  dirs_kept (fs w)
    (fs (final (main_loop n source_path replica_path interval log_level w))).
Proof.
  intros _.
  now apply (kept_main_loop source_path replica_path interval log_level n w).
Qed.

(** Three passes over [stray_dir_disk]: [dst/old] stays. *)
Lemma main_loop_keeps_directories_witness :
  dirs_kept (fs (boot stray_dir_disk))
    (fs (final (main_loop 3 "src" "dst" 5 "INFO" (boot stray_dir_disk)))).
Proof.
  apply (main_loop_keeps_directories 3 "src" "dst" 5 "INFO" (boot stray_dir_disk)).
  lia.
Defined.
